(** * AgroChain / GrainChain: the BatchTracker ledger and its client access layer

    A shallow embedding of

    - [contracts/BatchTracker.sol], in the variant that stores an IPFS
      metadata reference (the variant without it is the same contract less
      the [ipfsHash] member and [updateMetadata]), as a state-and-error
      monad over the contract storage, with the checked arithmetic and the
      bounds checks of Solidity 0.8 written out;
    - the client access layer ([config/contracts.ts], [lib/contract.ts],
      [lib/pinata.ts], [lib/metadata-storage.ts]), as a state-and-exception
      monad over a world that records the requests sent and the browser
      storage.  The collaborators (wallet provider, Pinata API and gateway,
      clock, deployment files) are the members of a class; logging to the
      console is left out, and JavaScript numbers are naturals;

    followed by the properties of the specification proved about them. *)

From Stdlib Require Import NArith ZArith List Lia Bool Ascii String.
From stdpp Require Import base option list gmap strings pretty.

Import ListNotations.

(* ===================================================================== *)
(** * Part I: the ledger contract                                         *)
(* ===================================================================== *)

Module Ledger.

Local Open Scope N_scope.

(** ** Machine integers and addresses *)

(** [uint256] values are naturals below [2^256]; arithmetic is the checked
    arithmetic of Solidity 0.8: an overflow or underflow is [Panic(0x11)]. *)
Definition uint256 : Type := N.
Definition address : Type := N.

Definition UINT256_MAX : uint256 := 2 ^ 256 - 1.

(** [address(0)] *)
Definition address_zero : address := 0.

(** ** Storage layout *)

(** [struct Batch] *)
Record Batch : Type := mkBatch {
  batchId : uint256;
  ownerHistory : list address;
  exists_ : bool;
  createdAt : uint256;
  lastTransferAt : uint256;
  ipfsHash : string
}.

(** The value every slot of [mapping(uint256 => Batch)] holds before it is
    written: all fields zero, the dynamic array empty. *)
Definition zero_batch : Batch :=
  {| batchId := 0; ownerHistory := []; exists_ := false;
     createdAt := 0; lastTransferAt := 0; ipfsHash := "" |}.

(** Contract storage: the two mappings and the counter. *)
Record State : Type := mkState {
  st_batches : gmap N Batch;
  st_batchExists : gmap N bool;
  nextBatchId : uint256
}.

(** Reading a Solidity mapping is total: an absent key reads as zero. *)
Definition batches (id : uint256) (s : State) : Batch :=
  default zero_batch (st_batches s !! id).

(** The public getter of [mapping(uint256 => bool) public batchExists]. *)
Definition batchExists (id : uint256) (s : State) : bool :=
  default false (st_batchExists s !! id).

(** ** Events *)

Inductive Event : Type :=
| BatchCreated (batch : uint256) (creator : address) (timestamp : uint256)
    (hash : string)
| BatchTransferred (batch : uint256) (from to : address) (timestamp : uint256)
| MetadataUpdated (batch : uint256) (oldIpfsHash newIpfsHash : string)
    (timestamp : uint256).

(** ** Failures *)

Inductive Error : Type :=
| Revert (reason : string)   (* a failed [require] *)
| Panic (code : N).          (* a compiler-inserted check *)

Definition PANIC_ARITHMETIC : Error := Panic 17. (* 0x11 *)
Definition PANIC_INDEX : Error := Panic 50.      (* 0x32 *)

(** The four revert reasons of the contract. *)
Definition MSG_NOT_EXIST : string := "Batch does not exist".
Definition MSG_NOT_OWNER : string := "Only current owner can modify batch".
Definition MSG_ZERO_ADDRESS : string := "Cannot transfer to zero address".
Definition MSG_SAME_OWNER : string := "Cannot transfer to current owner".

(** The error taxonomy under which the specification names those reasons. *)
Inductive ErrorKind : Type := NotFound | Unauthorized | InvalidArgument.

Definition error_kind (e : Error) : option ErrorKind :=
  match e with
  | Revert r =>
      if String.eqb r MSG_NOT_EXIST then Some NotFound
      else if String.eqb r MSG_NOT_OWNER then Some Unauthorized
      else if String.eqb r MSG_ZERO_ADDRESS then Some InvalidArgument
      else if String.eqb r MSG_SAME_OWNER then Some InvalidArgument
      else None
  | Panic _ => None
  end.

Definition Result (A : Type) : Type := (Error + A)%type.

(** [fails_with r k msg]: the call reverted with reason [msg], which the
    taxonomy files under [k]. *)
Definition fails_with {A} (r : Result A) (k : ErrorKind) (msg : string) : Prop :=
  r = inl (Revert msg) ∧ error_kind (Revert msg) = Some k.

(** ** The execution monad *)

(** What a running call can touch: the storage and the log of the events it
    has emitted so far. *)
Record Machine : Type := mkMachine {
  storage : State;
  emitted : list Event
}.

(** A computation runs until it returns or fails; in both cases it hands
    back the machine as it was at that point.  Rolling the storage back
    after a failure is the job of [execute] below, not of the monad. *)
Definition M (A : Type) : Type := Machine → Result A * Machine.

Global Instance M_ret : MRet M := λ A a m, (inr a, m).

Global Instance M_bind : MBind M := λ A B k c m,
  match c m with
  | (inr a, m') => k a m'
  | (inl e, m') => (inl e, m')
  end.

Definition throw {A} (e : Error) : M A := λ m, (inl e, m).

Definition read {A} (f : State → A) : M A := λ m, (inr (f (storage m)), m).

Definition write (f : State → State) : M unit :=
  λ m, (inr tt, {| storage := f (storage m); emitted := emitted m |}).

Definition emit (e : Event) : M unit :=
  λ m, (inr tt, {| storage := storage m; emitted := emitted m ++ [e] |}).

(** [require(cond, reason)] *)
Definition require (cond : bool) (reason : string) : M unit :=
  if cond then mret tt else throw (Revert reason).

(** Checked [a + b] and [a - b] on [uint256]. *)
Definition checked_add (a b : uint256) : M uint256 :=
  if a + b <=? UINT256_MAX then mret (a + b) else throw PANIC_ARITHMETIC.

Definition checked_sub (a b : uint256) : M uint256 :=
  if b <=? a then mret (a - b) else throw PANIC_ARITHMETIC.

(** Bounds-checked [arr[i]]. *)
Definition index {A} (arr : list A) (i : uint256) : M A :=
  match arr !! N.to_nat i with
  | Some x => mret x
  | None => throw PANIC_INDEX
  end.

(** [arr.length] *)
Definition array_length {A} (arr : list A) : uint256 := N.of_nat (length arr).

(** ** Storage writes *)

(** An assignment to one member of [batches[id]]. *)
Definition update_batch (id : uint256) (f : Batch → Batch) : M unit :=
  write (λ s, {| st_batches := <[id := f (batches id s)]> (st_batches s);
                 st_batchExists := st_batchExists s;
                 nextBatchId := nextBatchId s |}).

Definition set_batchId (v : uint256) (b : Batch) : Batch :=
  {| batchId := v; ownerHistory := ownerHistory b; exists_ := exists_ b;
     createdAt := createdAt b; lastTransferAt := lastTransferAt b;
     ipfsHash := ipfsHash b |}.

(** [ownerHistory.push(a)] *)
Definition push_owner (a : address) (b : Batch) : Batch :=
  {| batchId := batchId b; ownerHistory := ownerHistory b ++ [a];
     exists_ := exists_ b; createdAt := createdAt b;
     lastTransferAt := lastTransferAt b; ipfsHash := ipfsHash b |}.

Definition set_exists (v : bool) (b : Batch) : Batch :=
  {| batchId := batchId b; ownerHistory := ownerHistory b; exists_ := v;
     createdAt := createdAt b; lastTransferAt := lastTransferAt b;
     ipfsHash := ipfsHash b |}.

Definition set_createdAt (v : uint256) (b : Batch) : Batch :=
  {| batchId := batchId b; ownerHistory := ownerHistory b; exists_ := exists_ b;
     createdAt := v; lastTransferAt := lastTransferAt b;
     ipfsHash := ipfsHash b |}.

Definition set_lastTransferAt (v : uint256) (b : Batch) : Batch :=
  {| batchId := batchId b; ownerHistory := ownerHistory b; exists_ := exists_ b;
     createdAt := createdAt b; lastTransferAt := v; ipfsHash := ipfsHash b |}.

Definition set_ipfsHash (v : string) (b : Batch) : Batch :=
  {| batchId := batchId b; ownerHistory := ownerHistory b; exists_ := exists_ b;
     createdAt := createdAt b; lastTransferAt := lastTransferAt b;
     ipfsHash := v |}.

(** [batchExists[id] = v] *)
Definition set_batchExists (id : uint256) (v : bool) : M unit :=
  write (λ s, {| st_batches := st_batches s;
                 st_batchExists := <[id := v]> (st_batchExists s);
                 nextBatchId := nextBatchId s |}).

Definition set_nextBatchId (v : uint256) : M unit :=
  write (λ s, {| st_batches := st_batches s;
                 st_batchExists := st_batchExists s;
                 nextBatchId := v |}).

(** ** The contract *)

(** The transaction context: [msg.sender] and [block.timestamp]. *)
Record Env : Type := mkEnv {
  msg_sender : address;
  block_timestamp : uint256
}.

(** [constructor()] *)
Definition constructor : State :=
  {| st_batches := ∅; st_batchExists := ∅; nextBatchId := 1 |}.

(** [modifier batchMustExist(_batchId)] *)
Definition batchMustExist {A} (_batchId : uint256) (body : M A) : M A :=
  ex ← read (batchExists _batchId);
  require ex MSG_NOT_EXIST;;
  body.

(** The expression [batches[id].ownerHistory[batches[id].ownerHistory.length - 1]]. *)
Definition last_owner (_batchId : uint256) : M address :=
  h ← read (λ s, ownerHistory (batches _batchId s));
  i ← checked_sub (array_length h) 1;
  index h i.

(** [modifier onlyCurrentOwner(_batchId)] *)
Definition onlyCurrentOwner {A} (sender : address) (_batchId : uint256)
    (body : M A) : M A :=
  ex ← read (batchExists _batchId);
  require ex MSG_NOT_EXIST;;
  o ← last_owner _batchId;
  require (o =? sender) MSG_NOT_OWNER;;
  body.

(** [getCurrentOwner] *)
Definition getCurrentOwner (_batchId : uint256) : M address :=
  batchMustExist _batchId (last_owner _batchId).

(** [getOwnerHistory] *)
Definition getOwnerHistory (_batchId : uint256) : M (list address) :=
  batchMustExist _batchId (read (λ s, ownerHistory (batches _batchId s))).

(** [getBatchInfo] *)
Definition getBatchInfo (_batchId : uint256)
  : M (uint256 * address * uint256 * uint256 * uint256 * string) :=
  batchMustExist _batchId (
    batch ← read (batches _batchId);
    i ← checked_sub (array_length (ownerHistory batch)) 1;
    o ← index (ownerHistory batch) i;
    mret (batchId batch, o, array_length (ownerHistory batch),
         createdAt batch, lastTransferAt batch, ipfsHash batch)).

(** [getTotalBatches] *)
Definition getTotalBatches : M uint256 :=
  n ← read nextBatchId;
  checked_sub n 1.

(** [getOwnerCount] *)
Definition getOwnerCount (_batchId : uint256) : M uint256 :=
  batchMustExist _batchId
    (read (λ s, array_length (ownerHistory (batches _batchId s)))).

(** The [for] loop of [wasOwner]: scan from the front, stop at the first hit. *)
Fixpoint wasOwner_loop (history : list address) (_address : address) : bool :=
  match history with
  | [] => false
  | h :: rest => if h =? _address then true else wasOwner_loop rest _address
  end.

(** [wasOwner] *)
Definition wasOwner (_batchId : uint256) (_address : address) : M bool :=
  batchMustExist _batchId (
    history ← read (λ s, ownerHistory (batches _batchId s));
    mret (wasOwner_loop history _address)).

Section Transactions.

Variable env : Env.

(** [createBatch] *)
Definition createBatch (_ipfsHash : string) : M uint256 :=
  id ← read nextBatchId;
  next ← checked_add id 1;
  set_nextBatchId next;;
  update_batch id (set_batchId id);;
  update_batch id (push_owner (msg_sender env));;
  update_batch id (set_exists true);;
  update_batch id (set_createdAt (block_timestamp env));;
  update_batch id (set_lastTransferAt (block_timestamp env));;
  update_batch id (set_ipfsHash _ipfsHash);;
  set_batchExists id true;;
  emit (BatchCreated id (msg_sender env) (block_timestamp env) _ipfsHash);;
  mret id.

(** [transferBatch] *)
Definition transferBatch (_batchId : uint256) (_newOwner : address) : M unit :=
  batchMustExist _batchId (onlyCurrentOwner (msg_sender env) _batchId (
    require (negb (_newOwner =? address_zero)) MSG_ZERO_ADDRESS;;
    o ← getCurrentOwner _batchId;
    require (negb (_newOwner =? o)) MSG_SAME_OWNER;;
    currentOwner ← getCurrentOwner _batchId;
    update_batch _batchId (push_owner _newOwner);;
    update_batch _batchId (set_lastTransferAt (block_timestamp env));;
    emit (BatchTransferred _batchId currentOwner _newOwner
            (block_timestamp env)))).

(** [updateMetadata] *)
Definition updateMetadata (_batchId : uint256) (_newIpfsHash : string)
  : M unit :=
  batchMustExist _batchId (onlyCurrentOwner (msg_sender env) _batchId (
    oldHash ← read (λ s, ipfsHash (batches _batchId s));
    update_batch _batchId (set_ipfsHash _newIpfsHash);;
    emit (MetadataUpdated _batchId oldHash _newIpfsHash
            (block_timestamp env)))).

End Transactions.

(** ** Calls from the outside *)

(** A view call reads the current storage. *)
Definition view {A} (c : M A) (s : State) : Result A :=
  fst (c {| storage := s; emitted := [] |}).

(** A transaction: on success the storage and the log are those the body
    left; on failure the EVM restores the storage and drops the log. *)
Definition execute {A} (c : M A) (s : State) : Result A * State * list Event :=
  match c {| storage := s; emitted := [] |} with
  | (inr a, m) => (inr a, storage m, emitted m)
  | (inl e, _) => (inl e, s, [])
  end.

(** The storage exactly where the body stopped, before any rollback. *)
Definition storage_at_stop {A} (c : M A) (s : State) : State :=
  storage (snd (c {| storage := s; emitted := [] |})).

(** The state-changing entry points. *)
Inductive Call : Type :=
| CreateBatch (_ipfsHash : string)
| TransferBatch (_batchId : uint256) (_newOwner : address)
| UpdateMetadata (_batchId : uint256) (_newIpfsHash : string).

Inductive Return : Type :=
| Created (id : uint256)
| Done.

Definition dispatch (env : Env) (c : Call) : M Return :=
  match c with
  | CreateBatch h => id ← createBatch env h; mret (Created id)
  | TransferBatch id o => transferBatch env id o;; mret Done
  | UpdateMetadata id h => updateMetadata env id h;; mret Done
  end.

Definition outcome (env : Env) (c : Call) (s : State) : Result Return :=
  fst (fst (execute (dispatch env c) s)).

Definition step (env : Env) (c : Call) (s : State) : State :=
  snd (fst (execute (dispatch env c) s)).

(** A history of the contract: the transactions mined so far, in order. *)
Fixpoint run (txs : list (Env * Call)) (s : State) : list (Result Return) * State :=
  match txs with
  | [] => ([], s)
  | (env, c) :: rest =>
      let '(outs, s') := run rest (step env c s) in
      (outcome env c s :: outs, s')
  end.

(** The ids handed out by the successful [createBatch] calls of a history. *)
Fixpoint created_ids (outs : list (Result Return)) : list uint256 :=
  match outs with
  | [] => []
  | inr (Created id) :: rest => id :: created_ids rest
  | _ :: rest => created_ids rest
  end.

(** The storages the contract can ever be in. *)
Inductive reachable : State → Prop :=
| reach_deploy : reachable constructor
| reach_step env c s : reachable s → reachable (step env c s).

End Ledger.

(* ===================================================================== *)
(** * Part II: the client access layer                                    *)
(* ===================================================================== *)

Module Client.

Local Open Scope N_scope.

(** ** JavaScript values *)

(** What [JSON.parse] can produce.  Numbers are kept as integers: the code
    only ever asks whether one is zero or positive. *)
#[local] Unset Elimination Schemes.
Inductive json : Type :=
| JNull
| JBool (b : bool)
| JNum (n : Z)
| JStr (s : string)
| JArr (items : list json)
| JObj (fields : list (string * json)).
#[local] Set Elimination Schemes.

(** [!!v] *)
Definition truthy (v : json) : bool :=
  match v with
  | JNull => false
  | JBool b => b
  | JNum n => negb (n =? 0)%Z
  | JStr s => negb (String.eqb s "")
  | JArr _ | JObj _ => true
  end.

(** [typeof v === 'object'] *)
Definition typeof_object (v : json) : bool :=
  match v with
  | JNull | JArr _ | JObj _ => true
  | _ => false
  end.

Fixpoint assoc (key : string) (fields : list (string * json)) : option json :=
  match fields with
  | [] => None
  | (k, v) :: rest => if String.eqb k key then Some v else assoc key rest
  end.

(** [v.key] on a parsed document; [None] is [undefined]. *)
Definition get_field (v : json) (key : string) : option json :=
  match v with
  | JObj fields => assoc key fields
  | _ => None
  end.

(** Truthiness of a property that may be [undefined]. *)
Definition truthy_field (v : json) (key : string) : bool :=
  match get_field v key with
  | Some x => truthy x
  | None => false
  end.

(** Truthiness of an optional string: [undefined] and [""] are falsy. *)
Definition truthy_string (s : option string) : bool :=
  match s with
  | Some x => negb (String.eqb x "")
  | None => false
  end.

(** [hay.includes(needle)] *)
Fixpoint includes (needle hay : string) : bool :=
  String.prefix needle hay
  || match hay with
     | EmptyString => false
     | String _ rest => includes needle rest
     end.

(** [toLowerCase] on the ASCII letters, which is all a hexadecimal address
    contains. *)
Definition lower_ascii (c : ascii) : ascii :=
  let n := Ascii.N_of_ascii c in
  if (65 <=? n) && (n <=? 90) then Ascii.ascii_of_N (n + 32) else c.

Fixpoint toLowerCase (s : string) : string :=
  match s with
  | EmptyString => EmptyString
  | String c rest => String (lower_ascii c) (toLowerCase rest)
  end.

(** ** Thrown errors *)

(** The members of a thrown [Error] that the code looks at. *)
Record JsError : Type := mkJsError {
  err_code : option string;
  err_message : string;
  err_reason : option string;
  err_inner_message : option string;  (* [error.error.message] *)
  err_inner_reason : option string    (* [error.error.reason] *)
}.

(** [new Error(message)] *)
Definition new_Error (message : string) : JsError :=
  {| err_code := None; err_message := message; err_reason := None;
     err_inner_message := None; err_inner_reason := None |}.

(** ** Documents and records *)

(** A browser [File]. *)
Record File : Type := mkFile {
  file_name : string;
  file_bytes : string
}.

Inductive AttributeValue : Type :=
| AttrString (s : string)
| AttrNumber (n : Z).

Record Attribute : Type := mkAttribute {
  trait_type : string;
  value : AttributeValue
}.

(** [BatchMetadata['batch_properties']] *)
Record BatchProperties : Type := mkBatchProperties {
  origin : option string;
  quality_grade : option string;
  harvest_date : option string;
  expiry_date : option string;
  weight : option string;
  location : option string;
  certifications : option (list string)
}.

(** The object literal [{}]. *)
Definition empty_properties : BatchProperties :=
  {| origin := None; quality_grade := None; harvest_date := None;
     expiry_date := None; weight := None; location := None;
     certifications := None |}.

(** [interface BatchMetadata]; an optional member that is [None] is not in
    the document. *)
Record BatchMetadata : Type := mkBatchMetadata {
  name : string;
  description : string;
  image : option string;
  attributes : option (list Attribute);
  batch_properties : option BatchProperties;
  external_url : option string;
  created_at : string;
  version : string
}.

(** [interface BatchFormData] *)
Record BatchFormData : Type := mkBatchFormData {
  form_name : string;
  form_description : string;
  form_origin : option string;
  form_quality_grade : option string;
  form_harvest_date : option string;
  form_expiry_date : option string;
  form_weight : option string;
  form_location : option string;
  form_certifications : option (list string);
  form_image : option File;
  form_external_url : option string;
  form_attributes : option (list Attribute)
}.

(** [interface PinataUploadResult] *)
Record PinataUploadResult : Type := mkPinataUploadResult {
  IpfsHash : string;
  PinSize : N;
  Timestamp : string
}.

(** [interface BatchInfo] of [lib/contract.ts]; [metadata] is [None] while
    the property is unset and [Some JNull] when it holds [null]. *)
Record BatchInfo : Type := mkBatchInfo {
  batchId : N;
  currentOwner : string;
  ownerCount : N;
  createdAt : N;
  lastTransferAt : N;
  ipfsHash : option string;
  metadata : option json
}.

(** ** Collaborators *)

(** An HTTP response, as far as the code inspects it. *)
Record Response (A : Type) : Type := mkResponse {
  resp_ok : bool;
  resp_status : N;
  resp_content_type : option string;     (* [headers.get('content-type')] *)
  resp_json : JsError + A;               (* [await response.json()] *)
  resp_text : JsError + string           (* [await response.text()] *)
}.
Arguments mkResponse {A}.
Arguments resp_ok {A}.
Arguments resp_status {A}.
Arguments resp_content_type {A}.
Arguments resp_json {A}.
Arguments resp_text {A}.

(** One entry of [receipt.logs], as [contract.interface.parseLog] sees it. *)
Inductive Log : Type :=
| Unparsable                                (* [parseLog] throws or is null *)
| Parsed (event_name : string) (arg0 : N).

(** A submitted transaction: its hash and what [tx.wait()] resolves to. *)
Record Tx : Type := mkTx {
  tx_hash : string;
  tx_wait : JsError + option (list Log)
}.

(** The item kept in [localStorage] under [STORAGE_KEY], as
    [getAllBatchMetadata] tells items apart: none (or the empty string,
    which the code treats alike), a text [JSON.parse] throws on, or a text
    that parses, kept as the value it parses to. *)
Inductive Stored : Type :=
| NoItem
| Garbled
| Item (value : json).

(** Everything outside the code: the wallet provider and the chain behind
    it, the Pinata API and gateway, the clock, the build-time configuration
    and the browser storage.  A request gets the reply these functions
    give. *)
Class Collaborators : Type := {
  PINATA_GATEWAY : string;
  now_iso : string;                                   (* [new Date().toISOString()] *)
  localhostDeployment : option string;                (* [contracts?.BatchTracker?.address] *)
  hardhatDeployment : option string;
  provider_getNetwork : JsError + N;                  (* [Number(network.chainId)] *)
  pinFileToIPFS : File → JsError + Response PinataUploadResult;
  pinJSONToIPFS : BatchMetadata → JsError + Response PinataUploadResult;
  gateway_fetch : string → JsError + Response json;
  contract_getBatchInfo :
    string → N → JsError + (N * string * N * N * N * string);
  contract_getCurrentOwner : string → N → JsError + string;
  contract_getTotalBatches : string → JsError + N;
  contract_createBatch : string → string → JsError + Tx;
  localStorage_available : bool
}.

(** ** The world and the effects on it *)

(** The requests the code sends out, in the order it sends them. *)
Inductive Effect : Type :=
| GetNetwork
| PinFile (file : File)
| PinJSON (doc : BatchMetadata)
| Fetch (url : string)
| CallGetBatchInfo (contract : string) (id : N)
| CallGetCurrentOwner (contract : string) (id : N)
| CallGetTotalBatches (contract : string)
| SendCreateBatch (contract : string) (metadataHash : string)
| WaitForReceipt (hash : string).

Record World : Type := mkWorld {
  trace : list Effect;
  stored : Stored
}.

(** An [async] function: it runs in a world and either resolves or rejects. *)
Definition Async (A : Type) : Type := World → (JsError + A) * World.

Global Instance Async_ret : MRet Async := λ A a w, (inr a, w).

Global Instance Async_bind : MBind Async := λ A B k c w,
  match c w with
  | (inr a, w') => k a w'
  | (inl e, w') => (inl e, w')
  end.

Definition throw {A} (e : JsError) : Async A := λ w, (inl e, w).

(** [try { body } catch (error) { handler }] *)
Definition try_catch {A} (body : Async A) (handler : JsError → Async A)
  : Async A :=
  λ w, match body w with
       | (inr a, w') => (inr a, w')
       | (inl e, w') => handler e w'
       end.

(** A synchronous value that may throw. *)
Definition settle {A} (r : JsError + A) : Async A :=
  match r with
  | inr a => mret a
  | inl e => throw e
  end.

(** Send a request: note it in the trace, then take the reply. *)
Definition request {A} (e : Effect) (reply : JsError + A) : Async A :=
  λ w, settle reply {| trace := trace w ++ [e]; stored := stored w |}.

(** ** [config/contracts.ts] *)

Section Code.

Context `{Collaborators}.

(** [getContractConfig]; the result is the contract address, the ABI being
    a constant.  [NETWORKS] has the two keys 1337 and 31337. *)
Definition getContractConfig (chainId : N) : JsError + string :=
  let network :=
    if chainId =? 1337 then Some localhostDeployment
    else if chainId =? 31337 then Some hardhatDeployment
    else None in
  match network with
  | None =>
      inl (new_Error ("Unsupported network. ChainId: " +:+ pretty chainId
                      +:+ ". Supported networks: 1337, 31337"))
  | Some deployment =>
      if truthy_string deployment
      then inr (default "" deployment)
      else inl (new_Error ("BatchTracker contract not found in deployment for chainId "
                           +:+ pretty chainId))
  end.

(** ** [lib/pinata.ts] *)

(** [uploadJSON] *)
Definition uploadJSON (doc : BatchMetadata) : Async PinataUploadResult :=
  try_catch
    (response ← request (PinJSON doc) (pinJSONToIPFS doc);
     if negb (resp_ok response) then
       errorData ← settle (resp_text response);
       throw (new_Error ("Pinata API error: " +:+ pretty (resp_status response)
                         +:+ " - " +:+ errorData))
     else
       settle (resp_json response))
    (λ error,
       throw (new_Error ("Failed to upload metadata to IPFS: "
                         +:+ err_message error))).

(** [uploadFile] *)
Definition uploadFile (file : File) : Async PinataUploadResult :=
  try_catch
    (response ← request (PinFile file) (pinFileToIPFS file);
     if negb (resp_ok response) then
       errorData ← settle (resp_text response);
       throw (new_Error ("Pinata API error: " +:+ pretty (resp_status response)
                         +:+ " - " +:+ errorData))
     else
       settle (resp_json response))
    (λ error,
       throw (new_Error ("Failed to upload file to IPFS: "
                         +:+ err_message error))).

(** [getImageUrl], also the template string of [getContent] and
    [createBatchMetadata]. *)
Definition getImageUrl (hash : string) : string :=
  PINATA_GATEWAY +:+ "/ipfs/" +:+ hash.

(** [getContent] *)
Definition getContent (hash : string) : Async json :=
  try_catch
    (response ← request (Fetch (getImageUrl hash))
                  (gateway_fetch (getImageUrl hash));
     if negb (resp_ok response) then
       throw (new_Error ("Failed to fetch from IPFS: "
                         +:+ pretty (resp_status response)))
     else if truthy_string (resp_content_type response)
             && includes "application/json"
                  (default "" (resp_content_type response))
     then settle (resp_json response)
     else text ← settle (resp_text response); mret (JStr text))
    (λ error,
       throw (new_Error ("Failed to fetch content from IPFS: "
                         +:+ err_message error))).

(** The test [metadata && typeof metadata === 'object' && metadata.name
    && metadata.description]. *)
Definition looks_like_metadata (v : json) : bool :=
  truthy v && typeof_object v && truthy_field v "name"
  && truthy_field v "description".

(** [getBatchMetadata]; [JNull] is the [null] it returns. *)
Definition getBatchMetadata (hash : string) : Async json :=
  try_catch
    (content ← getContent hash;
     if looks_like_metadata content then mret content else mret JNull)
    (λ _, mret JNull).

(** [createBatchMetadata] *)
Definition createBatchMetadata (name : string) (description : string)
    (imageHash : option string) (properties : option BatchProperties)
    (attributes : option (list Attribute)) : BatchMetadata :=
  {| name := name;
     description := description;
     created_at := now_iso;
     version := "1.0";
     batch_properties := Some (default empty_properties properties);
     attributes := Some (default [] attributes);
     image := if truthy_string imageHash
              then Some (getImageUrl (default "" imageHash))
              else None;
     external_url := None |}.

(** What [uploadBatchWithAssets] resolves to. *)
Record Uploaded : Type := mkUploaded {
  metadataHash : string;
  imageHash : option string;
  uploaded_metadata : BatchMetadata
}.

(** [uploadBatchWithAssets], with its five parameters. *)
Definition uploadBatchWithAssets (name : string) (description : string)
    (image : option File) (properties : option BatchProperties)
    (attributes : option (list Attribute)) : Async Uploaded :=
  try_catch
    (imageHash ← match image with
                 | Some file =>
                     imageResult ← uploadFile file;
                     mret (Some (IpfsHash imageResult))
                 | None => mret None
                 end;
     let doc :=
       createBatchMetadata name description imageHash properties attributes in
     metadataResult ← uploadJSON doc;
     mret {| metadataHash := IpfsHash metadataResult;
             imageHash := imageHash;
             uploaded_metadata := doc |})
    (λ error, throw error).

(** A call of [uploadBatchWithAssets] with six arguments: JavaScript binds
    the first five to the parameters and drops the sixth. *)
Definition uploadBatchWithAssets_6 (name : string) (description : string)
    (image : option File) (properties : option BatchProperties)
    (attributes : option (list Attribute)) (_sixth : option string)
  : Async Uploaded :=
  uploadBatchWithAssets name description image properties attributes.

(** ** [lib/metadata-storage.ts] *)

Definition storage_error : JsError := new_Error "localStorage is not available".
Definition syntax_error : JsError := new_Error "Unexpected token in JSON".
Definition type_error : JsError := new_Error "Cannot set properties".

(** [localStorage.getItem(STORAGE_KEY)] *)
Definition getItem : Async Stored :=
  λ w, if localStorage_available then (inr (stored w), w)
       else (inl storage_error, w).

(** [localStorage.setItem(STORAGE_KEY, JSON.stringify(existing))]: the
    item parses to what [JSON.stringify] wrote. *)
Definition setItem (existing : json) : Async unit :=
  λ w, if localStorage_available
       then (inr tt, {| trace := trace w; stored := Item existing |})
       else (inl storage_error, w).

(** [MetadataStorage.getAllBatchMetadata]: whatever the item parses to,
    an object or not; [JObj []] is [{}]. *)
Definition getAllBatchMetadata : Async json :=
  try_catch
    (item ← getItem;
     match item with
     | NoItem => mret (JObj [])
     | Garbled => throw syntax_error
     | Item value => mret value
     end)
    (λ _, mret (JObj [])).

(** The integers below this bound are the indices of an array; a larger
    one names an ordinary member, which an array parsed from JSON does not
    have and which [JSON.stringify] does not write. *)
Definition ARRAY_INDEX_LIMIT : N := 2 ^ 32 - 1.

(** [existing[batchId]] for an [existing] other than [null]; the member
    name is [batchId.toString()] and [None] is [undefined].  A string has
    its characters as members, a number or a boolean has none. *)
Definition member (existing : json) (batchId : N) : option json :=
  match existing with
  | JObj fields => assoc (pretty batchId) fields
  | JArr items =>
      if batchId <? ARRAY_INDEX_LIMIT then items !! N.to_nat batchId else None
  | JStr s =>
      match String.get (N.to_nat batchId) s with
      | Some c => Some (JStr (String c EmptyString))
      | None => None
      end
  | JNull | JBool _ | JNum _ => None
  end.

(** Writing a member of an object: in place when it is there, as a new
    member otherwise. *)
Fixpoint set_field (key : string) (v : json) (fields : list (string * json))
  : list (string * json) :=
  match fields with
  | [] => [(key, v)]
  | (k, x) :: rest =>
      if String.eqb k key then (k, v) :: rest
      else (k, x) :: set_field key v rest
  end.

(** Writing an element of an array, which grows to hold it; the elements
    it skips are holes, and [JSON.stringify] writes a hole as [null]. *)
Definition set_element (index : nat) (v : json) (items : list json)
  : list json :=
  if (index <? length items)%nat then <[index := v]> items
  else items ++ replicate (index - length items) JNull ++ [v].

(** [existing[batchId] = ipfsHash] in strict code (a module), and then
    [existing] as [JSON.stringify] writes it.  The assignment throws a
    [TypeError] on [null] and on a number, a boolean or a string. *)
Definition assign (existing : json) (batchId : N) (ipfsHash : string)
  : JsError + json :=
  match existing with
  | JObj fields =>
      inr (JObj (set_field (pretty batchId) (JStr ipfsHash) fields))
  | JArr items =>
      inr (JArr (if batchId <? ARRAY_INDEX_LIMIT
                 then set_element (N.to_nat batchId) (JStr ipfsHash) items
                 else items))
  | JNull | JBool _ | JNum _ | JStr _ => inl type_error
  end.

(** [MetadataStorage.setBatchMetadata] *)
Definition setBatchMetadata (batchId : N) (ipfsHash : string) : Async unit :=
  try_catch
    (existing ← getAllBatchMetadata;
     existing ← settle (assign existing batchId ipfsHash);
     setItem existing)
    (λ _, mret tt).

(** ** [lib/contract.ts] *)

(** The regular expression [/reverted with reason string '([^']+)'/]
    tried at the start of [s]: the literal, then the longest run of
    characters other than the quote, at least one, then a quote. *)
Fixpoint until_quote (s : string) : option (string * string) :=
  match s with
  | EmptyString => None
  | String c rest =>
      if Ascii.eqb c "'"%char then Some (EmptyString, rest)
      else match until_quote rest with
           | Some (run, tail) => Some (String c run, tail)
           | None => None
           end
  end.

Definition REVERT_PREFIX : string := "reverted with reason string '".

Definition match_here (s : string) : option string :=
  if String.prefix REVERT_PREFIX s then
    match until_quote (String.substring (String.length REVERT_PREFIX)
                         (String.length s - String.length REVERT_PREFIX) s) with
    | Some (run, _) => if String.eqb run "" then None else Some run
    | None => None
    end
  else None.

(** The first capture group of the leftmost match. *)
Fixpoint match_revert (s : string) : option string :=
  match match_here s with
  | Some run => Some run
  | None => match s with
            | EmptyString => None
            | String _ rest => match_revert rest
            end
  end.

(** [extractRevertReason] *)
Definition extractRevertReason (error : JsError) : option string :=
  if truthy_string (err_reason error) then err_reason error
  else if truthy_string (err_inner_reason error) then err_inner_reason error
  else if negb (String.eqb (err_message error) "")
  then match_revert (err_message error)
  else None.

(** [enhanceError] *)
Definition enhanceError (error : JsError) : JsError :=
  let code_is c := match err_code error with
                   | Some c' => String.eqb c' c
                   | None => false
                   end in
  let message_has needle := includes needle (err_message error) in
  if code_is "UNKNOWN_ERROR" && truthy_string (err_inner_message error) then
    new_Error ("Transaction failed: " +:+ default "" (err_inner_message error))
  else if code_is "INSUFFICIENT_FUNDS" then
    new_Error "Insufficient funds to complete transaction. Please check your account balance."
  else if code_is "NETWORK_ERROR" then
    new_Error "Network connection error. Please check your connection and try again."
  else if code_is "USER_REJECTED" then
    new_Error "Transaction was rejected by user."
  else if message_has "invalid chainId" || message_has "chainId" then
    new_Error "ChainId mismatch. Please ensure MetaMask is connected to Hardhat network (chainId 31337). Go to MetaMask > Settings > Networks and verify the chainId is 31337."
  else if message_has "unrecognized selector" || message_has "function selector" then
    new_Error "Contract function not found. This may indicate an ABI mismatch or the contract was not deployed correctly. Please check the contract deployment."
  else if message_has "execution reverted" then
    new_Error ("Contract execution failed: "
               +:+ (if truthy_string (extractRevertReason error)
                    then default "" (extractRevertReason error)
                    else "Unknown reason"))
  else if message_has "Internal JSON-RPC error" then
    new_Error "Blockchain network error. Please check: 1) MetaMask is connected to the correct network (chainId 31337), 2) Your local blockchain is running, 3) The contract is deployed at the correct address."
  else if code_is "CALL_EXCEPTION" then
    new_Error ("Contract call failed: "
               +:+ (if truthy_string (err_reason error)
                    then default "" (err_reason error)
                    else err_message error)
               +:+ ". The contract may not be deployed or the function parameters are invalid.")
  else if message_has "missing method" || message_has "is not a function" then
    new_Error "Contract method not found. This indicates an ABI mismatch with the deployed contract."
  else if code_is "TIMEOUT" then
    new_Error "Transaction timeout. The network may be congested or your local blockchain may not be responding."
  else error.

(** [getBatchTrackerContract(signerOrProvider, chainId)]; a contract
    instance is known by its address. *)
Definition getBatchTrackerContract (chainId : N) : JsError + string :=
  if negb (chainId =? 0) then getContractConfig chainId
  else match getContractConfig 31337 with
       | inr address => inr address
       | inl _ =>
           inl (new_Error "Unable to create contract instance. Please ensure the contract is deployed and chainId is correct.")
       end.

(** [getBatchInfo] *)
Definition getBatchInfo (batchId : N) : Async BatchInfo :=
  chainId ← request GetNetwork provider_getNetwork;
  contract ← settle (getBatchTrackerContract chainId);
  result ← request (CallGetBatchInfo contract batchId)
             (contract_getBatchInfo contract batchId);
  let '(r0, r1, r2, r3, r4, r5) := result in
  mret {| batchId := r0; currentOwner := r1; ownerCount := r2;
          createdAt := r3; lastTransferAt := r4;
          ipfsHash := if String.eqb r5 "" then None else Some r5;
          metadata := None |}.

(** The assignment [batchInfo.metadata = v]. *)
Definition set_metadata (v : json) (b : BatchInfo) : BatchInfo :=
  {| batchId := batchId b; currentOwner := currentOwner b;
     ownerCount := ownerCount b; createdAt := createdAt b;
     lastTransferAt := lastTransferAt b; ipfsHash := ipfsHash b;
     metadata := Some v |}.

(** [getBatchInfoWithMetadata] *)
Definition getBatchInfoWithMetadata (batchId : N) : Async BatchInfo :=
  batchInfo ← getBatchInfo batchId;
  if truthy_string (ipfsHash batchInfo) then
    try_catch
      (doc ← getBatchMetadata (default "" (ipfsHash batchInfo));
       mret (set_metadata doc batchInfo))
      (λ _, mret batchInfo)
  else mret batchInfo.

(** [getTotalBatches] *)
Definition getTotalBatches : Async N :=
  chainId ← request GetNetwork provider_getNetwork;
  contract ← settle (getBatchTrackerContract chainId);
  request (CallGetTotalBatches contract) (contract_getTotalBatches contract).

(** One turn of the [for] loop of [getUserOwnedBatches]. *)
Definition owned_body (contract userAddress : string) (i : N)
    (ownedBatches : list BatchInfo) : Async (list BatchInfo) :=
  try_catch
    (currentOwner ← request (CallGetCurrentOwner contract i)
                      (contract_getCurrentOwner contract i);
     if String.eqb (toLowerCase currentOwner) (toLowerCase userAddress) then
       batchInfo ← getBatchInfo i;
       mret (ownedBatches ++ [batchInfo])
     else mret ownedBatches)
    (λ _, mret ownedBatches).

(** The loop [for (let i = first; ...; i++)], [turns] turns of it. *)
Fixpoint owned_loop (contract userAddress : string) (turns : nat) (i : N)
    (ownedBatches : list BatchInfo) : Async (list BatchInfo) :=
  match turns with
  | O => mret ownedBatches
  | S turns' =>
      ownedBatches' ← owned_body contract userAddress i ownedBatches;
      owned_loop contract userAddress turns' (i + 1) ownedBatches'
  end.

(** [getUserOwnedBatches] *)
Definition getUserOwnedBatches (userAddress : string)
  : Async (list BatchInfo) :=
  chainId ← request GetNetwork provider_getNetwork;
  contract ← settle (getBatchTrackerContract chainId);
  totalBatches ← getTotalBatches;
  owned_loop contract userAddress (N.to_nat totalBatches) 1 [].

(** [receipt?.logs.find(log => parseLog(log)?.name === 'BatchCreated')] *)
Fixpoint find_BatchCreated (logs : list Log) : option Log :=
  match logs with
  | [] => None
  | Parsed event_name arg0 :: rest =>
      if String.eqb event_name "BatchCreated"
      then Some (Parsed event_name arg0)
      else find_BatchCreated rest
  | Unparsable :: rest => find_BatchCreated rest
  end.

(** [createBatchWithMetadata] *)
Definition createBatchWithMetadata (formData : BatchFormData) : Async N :=
  try_catch
    (chainId ← request GetNetwork provider_getNetwork;
     let batchProperties :=
       {| origin := form_origin formData;
          quality_grade := form_quality_grade formData;
          harvest_date := form_harvest_date formData;
          expiry_date := form_expiry_date formData;
          weight := form_weight formData;
          location := form_location formData;
          certifications := form_certifications formData |} in
     uploaded ← uploadBatchWithAssets_6
                  (form_name formData) (form_description formData)
                  (form_image formData) (Some batchProperties)
                  (form_attributes formData) (form_external_url formData);
     contract ← settle (getBatchTrackerContract chainId);
     tx ← request (SendCreateBatch contract (metadataHash uploaded))
            (contract_createBatch contract (metadataHash uploaded));
     receipt ← request (WaitForReceipt (tx_hash tx)) (tx_wait tx);
     match find_BatchCreated (default [] receipt) with
     | Some (Parsed _ batchId) =>
         setBatchMetadata batchId (metadataHash uploaded);;
         mret batchId
     | _ =>
         throw (new_Error "BatchCreated event not found in transaction receipt")
     end)
    (λ error, throw (enhanceError error)).

End Code.

End Client.

(* ===================================================================== *)
(** * The ledger contract without metadata                                *)
(* ===================================================================== *)

(** The second [BatchTracker] of [contracts/BatchTracker.sol]: the same
    contract with no [ipfsHash] member, a [createBatch] without argument,
    no [updateMetadata], and three-argument [BatchCreated] events. *)

Module LedgerBasic.

Import Ledger.
Local Open Scope N_scope.

(** [struct Batch] *)
Record Batch : Type := mkBatch {
  batchId : uint256;
  ownerHistory : list address;
  exists_ : bool;
  createdAt : uint256;
  lastTransferAt : uint256
}.

Definition zero_batch : Batch :=
  {| batchId := 0; ownerHistory := []; exists_ := false;
     createdAt := 0; lastTransferAt := 0 |}.

Record State : Type := mkState {
  st_batches : gmap N Batch;
  st_batchExists : gmap N bool;
  nextBatchId : uint256
}.

Definition batches (id : uint256) (s : State) : Batch :=
  default zero_batch (st_batches s !! id).

Definition batchExists (id : uint256) (s : State) : bool :=
  default false (st_batchExists s !! id).

Inductive Event : Type :=
| BatchCreated (batch : uint256) (creator : address) (timestamp : uint256)
| BatchTransferred (batch : uint256) (from to : address) (timestamp : uint256).

(** The reason [onlyCurrentOwner] gives in this variant. *)
Definition MSG_NOT_OWNER : string := "Only current owner can transfer batch".

Record Machine : Type := mkMachine {
  storage : State;
  emitted : list Event
}.

Definition M (A : Type) : Type := Machine → Result A * Machine.

Global Instance M_ret : MRet M := λ A a m, (inr a, m).

Global Instance M_bind : MBind M := λ A B k c m,
  match c m with
  | (inr a, m') => k a m'
  | (inl e, m') => (inl e, m')
  end.

Definition throw {A} (e : Error) : M A := λ m, (inl e, m).

Definition read {A} (f : State → A) : M A := λ m, (inr (f (storage m)), m).

Definition write (f : State → State) : M unit :=
  λ m, (inr tt, {| storage := f (storage m); emitted := emitted m |}).

Definition emit (e : Event) : M unit :=
  λ m, (inr tt, {| storage := storage m; emitted := emitted m ++ [e] |}).

Definition require (cond : bool) (reason : string) : M unit :=
  if cond then mret tt else throw (Revert reason).

Definition checked_add (a b : uint256) : M uint256 :=
  if a + b <=? UINT256_MAX then mret (a + b) else throw PANIC_ARITHMETIC.

Definition checked_sub (a b : uint256) : M uint256 :=
  if b <=? a then mret (a - b) else throw PANIC_ARITHMETIC.

Definition index {A} (arr : list A) (i : uint256) : M A :=
  match arr !! N.to_nat i with
  | Some x => mret x
  | None => throw PANIC_INDEX
  end.

Definition update_batch (id : uint256) (f : Batch → Batch) : M unit :=
  write (λ s, {| st_batches := <[id := f (batches id s)]> (st_batches s);
                 st_batchExists := st_batchExists s;
                 nextBatchId := nextBatchId s |}).

Definition set_batchId (v : uint256) (b : Batch) : Batch :=
  {| batchId := v; ownerHistory := ownerHistory b; exists_ := exists_ b;
     createdAt := createdAt b; lastTransferAt := lastTransferAt b |}.

Definition push_owner (a : address) (b : Batch) : Batch :=
  {| batchId := batchId b; ownerHistory := ownerHistory b ++ [a];
     exists_ := exists_ b; createdAt := createdAt b;
     lastTransferAt := lastTransferAt b |}.

Definition set_exists (v : bool) (b : Batch) : Batch :=
  {| batchId := batchId b; ownerHistory := ownerHistory b; exists_ := v;
     createdAt := createdAt b; lastTransferAt := lastTransferAt b |}.

Definition set_createdAt (v : uint256) (b : Batch) : Batch :=
  {| batchId := batchId b; ownerHistory := ownerHistory b; exists_ := exists_ b;
     createdAt := v; lastTransferAt := lastTransferAt b |}.

Definition set_lastTransferAt (v : uint256) (b : Batch) : Batch :=
  {| batchId := batchId b; ownerHistory := ownerHistory b; exists_ := exists_ b;
     createdAt := createdAt b; lastTransferAt := v |}.

Definition set_batchExists (id : uint256) (v : bool) : M unit :=
  write (λ s, {| st_batches := st_batches s;
                 st_batchExists := <[id := v]> (st_batchExists s);
                 nextBatchId := nextBatchId s |}).

Definition set_nextBatchId (v : uint256) : M unit :=
  write (λ s, {| st_batches := st_batches s;
                 st_batchExists := st_batchExists s;
                 nextBatchId := v |}).

(** [constructor()] *)
Definition constructor : State :=
  {| st_batches := ∅; st_batchExists := ∅; nextBatchId := 1 |}.

(** [modifier batchMustExist(_batchId)] *)
Definition batchMustExist {A} (_batchId : uint256) (body : M A) : M A :=
  ex ← read (batchExists _batchId);
  require ex MSG_NOT_EXIST;;
  body.

Definition last_owner (_batchId : uint256) : M address :=
  h ← read (λ s, ownerHistory (batches _batchId s));
  i ← checked_sub (array_length h) 1;
  index h i.

(** [modifier onlyCurrentOwner(_batchId)] *)
Definition onlyCurrentOwner {A} (sender : address) (_batchId : uint256)
    (body : M A) : M A :=
  ex ← read (batchExists _batchId);
  require ex MSG_NOT_EXIST;;
  o ← last_owner _batchId;
  require (o =? sender) MSG_NOT_OWNER;;
  body.

(** [getCurrentOwner] *)
Definition getCurrentOwner (_batchId : uint256) : M address :=
  batchMustExist _batchId (last_owner _batchId).

(** [getOwnerHistory] *)
Definition getOwnerHistory (_batchId : uint256) : M (list address) :=
  batchMustExist _batchId (read (λ s, ownerHistory (batches _batchId s))).

(** [getBatchInfo] *)
Definition getBatchInfo (_batchId : uint256)
  : M (uint256 * address * uint256 * uint256 * uint256) :=
  batchMustExist _batchId (
    batch ← read (batches _batchId);
    i ← checked_sub (array_length (ownerHistory batch)) 1;
    o ← index (ownerHistory batch) i;
    mret (batchId batch, o, array_length (ownerHistory batch),
         createdAt batch, lastTransferAt batch)).

(** [getTotalBatches] *)
Definition getTotalBatches : M uint256 :=
  n ← read nextBatchId;
  checked_sub n 1.

(** [getOwnerCount] *)
Definition getOwnerCount (_batchId : uint256) : M uint256 :=
  batchMustExist _batchId
    (read (λ s, array_length (ownerHistory (batches _batchId s)))).

(** [wasOwner] *)
Definition wasOwner (_batchId : uint256) (_address : address) : M bool :=
  batchMustExist _batchId (
    history ← read (λ s, ownerHistory (batches _batchId s));
    mret (wasOwner_loop history _address)).

Section Transactions.

Variable env : Env.

(** [createBatch] *)
Definition createBatch : M uint256 :=
  id ← read nextBatchId;
  next ← checked_add id 1;
  set_nextBatchId next;;
  update_batch id (set_batchId id);;
  update_batch id (push_owner (msg_sender env));;
  update_batch id (set_exists true);;
  update_batch id (set_createdAt (block_timestamp env));;
  update_batch id (set_lastTransferAt (block_timestamp env));;
  set_batchExists id true;;
  emit (BatchCreated id (msg_sender env) (block_timestamp env));;
  mret id.

(** [transferBatch] *)
Definition transferBatch (_batchId : uint256) (_newOwner : address) : M unit :=
  batchMustExist _batchId (onlyCurrentOwner (msg_sender env) _batchId (
    require (negb (_newOwner =? address_zero)) MSG_ZERO_ADDRESS;;
    o ← getCurrentOwner _batchId;
    require (negb (_newOwner =? o)) MSG_SAME_OWNER;;
    currentOwner ← getCurrentOwner _batchId;
    update_batch _batchId (push_owner _newOwner);;
    update_batch _batchId (set_lastTransferAt (block_timestamp env));;
    emit (BatchTransferred _batchId currentOwner _newOwner
            (block_timestamp env)))).

End Transactions.

Definition view {A} (c : M A) (s : State) : Result A :=
  fst (c {| storage := s; emitted := [] |}).

Definition execute {A} (c : M A) (s : State) : Result A * State * list Event :=
  match c {| storage := s; emitted := [] |} with
  | (inr a, m) => (inr a, storage m, emitted m)
  | (inl e, _) => (inl e, s, [])
  end.

End LedgerBasic.

(* ===================================================================== *)
(** * More of the client access layer and its callers                     *)
(* ===================================================================== *)

(** The rest of [lib/metadata-storage.ts]. *)

Module MetadataStorage.

Import Client.
Local Open Scope N_scope.

Section Code.

Context `{Collaborators}.

(** [... || null]; [JNull] is [null]. *)
Definition or_null (v : option json) : json :=
  match v with
  | Some x => if truthy x then x else JNull
  | None => JNull
  end.

(** [existing[batchId]], which throws a [TypeError] on [null]. *)
Definition read (existing : json) (batchId : N) : JsError + option json :=
  match existing with
  | JNull => inl type_error
  | _ => inr (member existing batchId)
  end.

(** [MetadataStorage.getBatchMetadata]: the interface promises a string or
    [null], the code returns whatever truthy value the item holds. *)
Definition getBatchMetadata (batchId : N) : Async json :=
  try_catch
    (existing ← getAllBatchMetadata;
     found ← settle (read existing batchId);
     mret (or_null found))
    (λ _, mret JNull).

(** [delete existing[batchId]] in strict code, and then [existing] as
    [JSON.stringify] writes it.  It throws on [null] and on a character of
    a string; on a number or a boolean there is nothing to delete; the
    element of an array becomes a hole, written as [null]. *)
Definition delete_member (existing : json) (batchId : N) : JsError + json :=
  match existing with
  | JNull => inl type_error
  | JObj fields =>
      inr (JObj (filter (λ kv, negb (String.eqb (fst kv) (pretty batchId)))
                   fields))
  | JArr items =>
      inr (JArr (if batchId <? ARRAY_INDEX_LIMIT
                 then <[N.to_nat batchId := JNull]> items
                 else items))
  | JStr s =>
      if (N.to_nat batchId <? String.length s)%nat then inl type_error
      else inr existing
  | JBool _ | JNum _ => inr existing
  end.

(** [MetadataStorage.removeBatchMetadata] *)
Definition removeBatchMetadata (batchId : N) : Async unit :=
  try_catch
    (existing ← getAllBatchMetadata;
     existing ← settle (delete_member existing batchId);
     setItem existing)
    (λ _, mret tt).

(** The conversion to a number that [>] applies to a string, an array or
    an object, and whether the number is positive.  It is the language's
    [ToNumber]; on an object that hides both [valueOf] and [toString]
    behind members that are not functions it throws. *)
Variable to_number_positive : json → JsError + bool.

(** [x > 0] *)
Definition greater_than_zero (x : option json) : JsError + bool :=
  match x with
  | None | Some JNull => inr false
  | Some (JBool b) => inr b
  | Some (JNum n) => inr (0 <? n)%Z
  | Some v => to_number_positive v
  end.

(** [hash.length > 0] for a [hash] other than [null] *)
Definition length_positive (hash : json) : JsError + bool :=
  match hash with
  | JStr s => inr (0 <? String.length s)%nat
  | JArr items => inr (0 <? length items)%nat
  | JObj fields => greater_than_zero (assoc "length" fields)
  | JNull | JBool _ | JNum _ => inr false
  end.

(** [MetadataStorage.hasBatchMetadata], which has no [try] of its own. *)
Definition hasBatchMetadata (batchId : N) : Async bool :=
  hash ← getBatchMetadata batchId;
  match hash with
  | JNull => mret false
  | _ => settle (length_positive hash)
  end.

(** [localStorage.removeItem(STORAGE_KEY)] *)
Definition removeItem : Async unit :=
  λ w, if localStorage_available
       then (inr tt, {| trace := trace w; stored := NoItem |})
       else (inl storage_error, w).

(** [MetadataStorage.clearAllMetadata] *)
Definition clearAllMetadata : Async unit :=
  try_catch removeItem (λ _, mret tt).

End Code.

End MetadataStorage.

(** The plain [createBatch] of [lib/contract.ts]. *)

Module ClientMore.

Import Client.
Local Open Scope N_scope.

Section Code.

Context `{Collaborators}.

(** [createBatch] *)
Definition createBatch : Async N :=
  try_catch
    (chainId ← request GetNetwork provider_getNetwork;
     contract ← settle (getBatchTrackerContract chainId);
     tx ← request (SendCreateBatch contract "")
            (contract_createBatch contract "");
     receipt ← request (WaitForReceipt (tx_hash tx)) (tx_wait tx);
     match find_BatchCreated (default [] receipt) with
     | Some (Parsed _ batchId) => mret batchId
     | _ =>
         throw (new_Error "BatchCreated event not found in transaction receipt")
     end)
    (λ error, throw (enhanceError error)).

End Code.

End ClientMore.

(** The image address of [components/batch-detail-view.tsx]. *)

Module BatchDetailView.

Import Client.

Section Code.

Context `{Collaborators}.

(** [s.replace(pattern, replacement)] with a string pattern: the first
    occurrence is replaced. *)
Fixpoint replace_first (pattern replacement s : string) : string :=
  if String.prefix pattern s
  then replacement +:+ String.substring (String.length pattern)
                         (String.length s - String.length pattern) s
  else match s with
       | EmptyString => EmptyString
       | String c rest => String c (replace_first pattern replacement rest)
       end.

(** [getImageUrl]; [None] is [null]. *)
Definition getImageUrl (metadata : BatchMetadata) : option string :=
  if truthy_string (image metadata) then
    let img := default "" (image metadata) in
    if String.prefix "http" img then Some img
    else if String.prefix "ipfs://" img
    then Some (Client.getImageUrl (replace_first "ipfs://" "" img))
    else Some (Client.getImageUrl img)
  else None.

End Code.

End BatchDetailView.

(** The scanner callback of [components/transfer-batch.tsx]. *)

Module TransferBatch.

Local Open Scope N_scope.

(** [[a-fA-F0-9]] *)
Definition is_hex (c : ascii) : bool :=
  let n := Ascii.N_of_ascii c in
  ((48 <=? n) && (n <=? 57)) || ((65 <=? n) && (n <=? 70))
  || ((97 <=? n) && (n <=? 102)).

(** [[a-fA-F0-9]{n}] at the start of [s]: the digits matched. *)
Fixpoint hex_digits (n : nat) (s : string) : option string :=
  match n with
  | O => Some EmptyString
  | S n' =>
      match s with
      | EmptyString => None
      | String c rest =>
          if is_hex c then
            match hex_digits n' rest with
            | Some digits => Some (String c digits)
            | None => None
            end
          else None
      end
  end.

(** [/0x[a-fA-F0-9]{40}/] at the start of [s]: the text matched. *)
Definition address_here (s : string) : option string :=
  if String.prefix "0x" s then
    match hex_digits 40 (String.substring 2 (String.length s - 2) s) with
    | Some digits => Some ("0x" +:+ digits)
    | None => None
    end
  else None.

(** [s.match(/0x[a-fA-F0-9]{40}/)]: the leftmost match. *)
Fixpoint match_address (s : string) : option string :=
  match address_here s with
  | Some a => Some a
  | None => match s with
            | EmptyString => None
            | String _ rest => match_address rest
            end
  end.

(** [/^0x[a-fA-F0-9]{40}$/.test(s)] *)
Definition test_address (s : string) : bool :=
  match address_here s with
  | Some a => String.eqb a s
  | None => false
  end.

Inductive InputMode : Type := Manual | Scan.

(** The state of the form that the callback writes. *)
Record Form : Type := mkForm {
  newOwner : string;
  inputMode : InputMode;
  error : option string
}.

Section Code.

(** [String.prototype.trim] *)
Variable trim : string → string.

(** [handleQRScan] *)
Definition handleQRScan (scannedData : string) (form : Form) : Form :=
  let address := trim scannedData in
  let address := match match_address address with
                 | Some found => found
                 | None => address
                 end in
  if test_address address then
    {| newOwner := address; inputMode := Manual; error := None |}
  else
    {| newOwner := newOwner form; inputMode := inputMode form;
       error := Some "Scanned QR code does not contain a valid Ethereum address" |}.

End Code.

End TransferBatch.

(* ===================================================================== *)
(** * Part III: vocabulary for the properties                             *)
(* ===================================================================== *)

(** Closed forms, invariants and small examples, in terms of which the
    properties below are stated and proved. *)

Module LedgerSpec.

Import Ledger.
Local Open Scope N_scope.

(** ** The three transactions in closed form *)

(** The batch [createBatch] leaves in the slot of the new id. *)
Definition created_batch (env : Env) (h : string) (s : State) : Batch :=
  {| batchId := nextBatchId s;
     ownerHistory := ownerHistory (batches (nextBatchId s) s) ++ [msg_sender env];
     exists_ := true;
     createdAt := block_timestamp env;
     lastTransferAt := block_timestamp env;
     ipfsHash := h |}.

(** The storage after a successful [createBatch]. *)
Definition created_state (env : Env) (h : string) (s : State) : State :=
  {| st_batches := <[nextBatchId s := created_batch env h s]> (st_batches s);
     st_batchExists := <[nextBatchId s := true]> (st_batchExists s);
     nextBatchId := nextBatchId s + 1 |}.

(** The storage after a successful [transferBatch]. *)
Definition transferred_state (env : Env) (id : uint256) (o : address)
    (s : State) : State :=
  {| st_batches :=
       <[id := set_lastTransferAt (block_timestamp env)
                 (push_owner o (batches id s))]> (st_batches s);
     st_batchExists := st_batchExists s;
     nextBatchId := nextBatchId s |}.

(** The storage after a successful [updateMetadata]. *)
Definition updated_state (id : uint256) (h : string) (s : State) : State :=
  {| st_batches := <[id := set_ipfsHash h (batches id s)]> (st_batches s);
     st_batchExists := st_batchExists s;
     nextBatchId := nextBatchId s |}.

(** The guards of [onlyCurrentOwner], in the order the code evaluates them. *)
Definition owner_check (sender : address) (id : uint256) (s : State)
  : option Error :=
  if batchExists id s then
    match last (ownerHistory (batches id s)) with
    | None => Some PANIC_ARITHMETIC
    | Some o => if o =? sender then None else Some (Revert MSG_NOT_OWNER)
    end
  else Some (Revert MSG_NOT_EXIST).

(** All guards of [transferBatch], in the order the code evaluates them;
    past [owner_check] the current owner is the sender. *)
Definition transfer_check (sender : address) (id : uint256) (newOwner : address)
    (s : State) : option Error :=
  match owner_check sender id s with
  | Some e => Some e
  | None =>
      if newOwner =? address_zero then Some (Revert MSG_ZERO_ADDRESS)
      else if newOwner =? sender then Some (Revert MSG_SAME_OWNER)
      else None
  end.

(** ** Invariants *)

(** The storage invariant: the counter is at least 1 and fits a [uint256],
    the existing batches are those with an id below the counter, the slots
    from the counter on have never been written, and an existing batch has
    an owner. *)
Record wf (s : State) : Prop := mk_wf {
  wf_counter : 1 ≤ nextBatchId s ≤ UINT256_MAX;
  wf_exists : ∀ id, batchExists id s = true ↔ 1 ≤ id < nextBatchId s;
  wf_fresh : ∀ id, nextBatchId s ≤ id → st_batches s !! id = None;
  wf_owned : ∀ id, batchExists id s = true → ownerHistory (batches id s) ≠ []
}.

(** What the accessors show of a batch: a non-empty history whose last
    entry is the current owner. *)
Definition owned (s : State) (id : uint256) : Prop :=
  ∃ h o, view (getOwnerHistory id) s = inr h ∧ h ≠ [] ∧ last h = Some o
         ∧ view (getCurrentOwner id) s = inr o.

(** The ownership invariant of the specification. *)
Definition owner_inv (s : State) : Prop :=
  ∀ id, batchExists id s = true → owned s id.

(** ** Histories *)

(** The ids of a whole history, and the storage it ends in. *)
Definition history_ids (txs : list (Env * Call)) : list uint256 :=
  created_ids (fst (run txs constructor)).

Definition history_state (txs : list (Env * Call)) : State :=
  snd (run txs constructor).

(** The numbers [k, k+1, ..., k+n-1]. *)
Definition ids_from (k : uint256) (n : nat) : list uint256 :=
  (λ i, k + N.of_nat i) <$> seq 0 n.

(** ** A small history, for examples *)

(** Two accounts. *)
Definition alice : address := 1001.
Definition bob : address := 2002.

(** A transaction context with [sender] as [msg.sender]. *)
Definition sent_by (sender : address) : Env :=
  {| msg_sender := sender; block_timestamp := 1700000000 |}.

(** Alice creates a batch. *)
Definition one_batch : State :=
  step (sent_by alice) (CreateBatch "bafy-wheat") constructor.

(** Alice creates a batch, hands it to Bob, and Bob creates another. *)
Definition demo_history : list (Env * Call) :=
  [(sent_by alice, CreateBatch "bafy-wheat");
   (sent_by alice, TransferBatch 1 bob);
   (sent_by bob, CreateBatch "")].

End LedgerSpec.

Module ClientSpec.

Import Client.
Local Open Scope N_scope.

(** ** Requests and replies *)

(** The world after some more requests went out. *)
Definition after (w : World) (es : list Effect) : World :=
  {| trace := trace w ++ es; stored := stored w |}.

Section Spec.

Context `{Collaborators}.

(** The record [getBatchInfo] builds from the tuple the contract returns. *)
Definition info_of (result : N * string * N * N * N * string) : BatchInfo :=
  let '(r0, r1, r2, r3, r4, r5) := result in
  {| batchId := r0; currentOwner := r1; ownerCount := r2;
     createdAt := r3; lastTransferAt := r4;
     ipfsHash := if String.eqb r5 "" then None else Some r5;
     metadata := None |}.

(** The members of a [BatchInfo] that come from the chain. *)
Definition onchain_record (b : BatchInfo)
  : N * string * N * N * N * option string :=
  (batchId b, currentOwner b, ownerCount b, createdAt b, lastTransferAt b,
   ipfsHash b).

(** [v == null]: the member is unset or holds [null], which is what the
    optional chaining of the readers takes for no metadata. *)
Definition nullish (v : option json) : bool :=
  match v with
  | None | Some JNull => true
  | Some _ => false
  end.

(** The batch ids for which the current owner was asked, in order. *)
Fixpoint owner_queries (es : list Effect) : list N :=
  match es with
  | [] => []
  | CallGetCurrentOwner _ i :: rest => i :: owner_queries rest
  | _ :: rest => owner_queries rest
  end.

(** What one turn of the loop adds: the records pushed and the requests
    sent. *)
Definition scan_one (contract userAddress : string) (i : N)
  : list BatchInfo * list Effect :=
  match contract_getCurrentOwner contract i with
  | inl _ => ([], [CallGetCurrentOwner contract i])
  | inr currentOwner =>
      if String.eqb (toLowerCase currentOwner) (toLowerCase userAddress)
      then (match contract_getBatchInfo contract i with
            | inr result => [info_of result]
            | inl _ => []
            end,
            [CallGetCurrentOwner contract i; GetNetwork;
             CallGetBatchInfo contract i])
      else ([], [CallGetCurrentOwner contract i])
  end.

(** What [turns] turns of the loop add, starting at id [i]. *)
Fixpoint scan (contract userAddress : string) (turns : nat) (i : N)
  : list BatchInfo * list Effect :=
  match turns with
  | O => ([], [])
  | S turns' =>
      let '(found, sent) := scan_one contract userAddress i in
      let '(found', sent') := scan contract userAddress turns' (i + 1) in
      (found ++ found', sent ++ sent')
  end.

(** The upload result carried by a reply of the Pinata API, if it is a
    success reply with a readable body. *)
Definition pinned (reply : JsError + Response PinataUploadResult)
  : option PinataUploadResult :=
  match reply with
  | inr response =>
      if resp_ok response then
        match resp_json response with
        | inr result => Some result
        | inl _ => None
        end
      else None
  | inl _ => None
  end.

(** [r] resolves to [v] when there is one, and rejects otherwise. *)
Definition settles_as {A} (r : JsError + A) (v : option A) : Prop :=
  match v with
  | Some a => r = inr a
  | None => ∃ e, r = inl e
  end.

(** The requests of [uploadBatchWithAssets]. *)
Definition offchain_effects (name description : string) (image : option File)
    (properties : option BatchProperties)
    (attributes : option (list Attribute)) : list Effect :=
  match image with
  | None =>
      [PinJSON (createBatchMetadata name description None properties
                  attributes)]
  | Some file =>
      PinFile file ::
      match pinned (pinFileToIPFS file) with
      | Some result =>
          [PinJSON (createBatchMetadata name description
                      (Some (IpfsHash result)) properties attributes)]
      | None => []
      end
  end.

(** What [uploadBatchWithAssets] resolves to, if it does. *)
Definition offchain_result (name description : string) (image : option File)
    (properties : option BatchProperties)
    (attributes : option (list Attribute)) : option Uploaded :=
  imageHash ← match image with
              | None => Some None
              | Some file =>
                  result ← pinned (pinFileToIPFS file);
                  Some (Some (IpfsHash result))
              end;
  let doc :=
    createBatchMetadata name description imageHash properties attributes in
  result ← pinned (pinJSONToIPFS doc);
  Some {| metadataHash := IpfsHash result; imageHash := imageHash;
          uploaded_metadata := doc |}.

(** The value [getAllBatchMetadata] reads out of a stored item. *)
Definition index_of (item : Stored) : json :=
  match item with
  | Item value => value
  | NoItem | Garbled => JObj []
  end.


(** The world after [setBatchMetadata id hash]. *)
Definition recorded (w : World) (id : N) (hash : string) : World :=
  if localStorage_available then
    match assign (index_of (stored w)) id hash with
    | inr existing => {| trace := trace w; stored := Item existing |}
    | inl _ => w
    end
  else w.


(** The object literal [batchProperties]. *)
Definition form_properties (formData : BatchFormData) : BatchProperties :=
  {| origin := form_origin formData;
     quality_grade := form_quality_grade formData;
     harvest_date := form_harvest_date formData;
     expiry_date := form_expiry_date formData;
     weight := form_weight formData;
     location := form_location formData;
     certifications := form_certifications formData |}.

(** The off-chain requests of a creation. *)
Definition form_offchain (formData : BatchFormData) : list Effect :=
  offchain_effects (form_name formData) (form_description formData)
    (form_image formData) (Some (form_properties formData))
    (form_attributes formData).

(** What the off-chain steps of a creation resolve to, if they do. *)
Definition form_uploaded (formData : BatchFormData) : option Uploaded :=
  offchain_result (form_name formData) (form_description formData)
    (form_image formData) (Some (form_properties formData))
    (form_attributes formData).

(** The on-chain requests of a creation that pinned its metadata under
    [hash]. *)
Definition onchain_effects (chainId : N) (hash : string) : list Effect :=
  match getBatchTrackerContract chainId with
  | inl _ => []
  | inr contract =>
      SendCreateBatch contract hash ::
      match contract_createBatch contract hash with
      | inl _ => []
      | inr tx => [WaitForReceipt (tx_hash tx)]
      end
  end.

(** The batch id the on-chain steps of a creation end in, if they do. *)
Definition onchain_result (chainId : N) (hash : string) : option N :=
  match getBatchTrackerContract chainId with
  | inl _ => None
  | inr contract =>
      match contract_createBatch contract hash with
      | inl _ => None
      | inr tx =>
          match tx_wait tx with
          | inl _ => None
          | inr receipt =>
              match find_BatchCreated (default [] receipt) with
              | Some (Parsed _ id) => Some id
              | _ => None
              end
          end
      end
  end.

(** The off-chain requests of a whole creation. *)
Definition creation_offchain (formData : BatchFormData) : list Effect :=
  match provider_getNetwork with
  | inl _ => []
  | inr _ => form_offchain formData
  end.

(** The on-chain requests of a whole creation. *)
Definition creation_onchain (formData : BatchFormData) : list Effect :=
  match provider_getNetwork, form_uploaded formData with
  | inr chainId, Some uploaded =>
      onchain_effects chainId (metadataHash uploaded)
  | _, _ => []
  end.

(** The batch id and the metadata hash a whole creation ends in. *)
Definition creation_result (formData : BatchFormData) : option (N * string) :=
  match provider_getNetwork, form_uploaded formData with
  | inr chainId, Some uploaded =>
      id ← onchain_result chainId (metadataHash uploaded);
      Some (id, metadataHash uploaded)
  | _, _ => None
  end.

(** Requests to the Pinata API. *)
Definition is_offchain (e : Effect) : bool :=
  match e with
  | PinFile _ | PinJSON _ => true
  | _ => false
  end.

(** Requests that reach the ledger contract. *)
Definition is_onchain (e : Effect) : bool :=
  match e with
  | SendCreateBatch _ _ | WaitForReceipt _ => true
  | _ => false
  end.


(** The requests a call added to the trace. *)
Definition new_effects (w w' : World) : list Effect :=
  drop (length (trace w)) (trace w').

End Spec.

(** ** A small world, for examples *)

(** A stand-in for the way the provider prints an address. *)
Definition show_address (a : N) : string := "0x" +:+ pretty a.

(** The error the provider throws for a reverted call. *)
Definition call_exception (e : Ledger.Error) : JsError :=
  {| err_code := Some "CALL_EXCEPTION";
     err_message := "execution reverted";
     err_reason := match e with
                   | Ledger.Revert reason => Some reason
                   | Ledger.Panic _ => None
                   end;
     err_inner_message := None;
     err_inner_reason := None |}.

(** A contract event as the receipt shows it. *)
Definition log_of (e : Ledger.Event) : Log :=
  match e with
  | Ledger.BatchCreated id _ _ _ => Parsed "BatchCreated" id
  | Ledger.BatchTransferred id _ _ _ => Parsed "BatchTransferred" id
  | Ledger.MetadataUpdated id _ _ _ => Parsed "MetadataUpdated" id
  end.

(** The reply of a working Pinata API. *)
Definition pinned_as (hash : string) : JsError + Response PinataUploadResult :=
  inr {| resp_ok := true; resp_status := 200;
         resp_content_type := Some "application/json";
         resp_json := inr {| IpfsHash := hash; PinSize := 1;
                             Timestamp := "2025-01-01T00:00:00.000Z" |};
         resp_text := inr "" |}.

(** A browser on the Hardhat network whose contract storage is [s], whose
    signer is [sender], whose Pinata API works and whose gateway is down. *)
Definition browser (s : Ledger.State) (sender : Ledger.Env) : Collaborators :=
  {| PINATA_GATEWAY := "https://gateway.pinata.cloud";
     now_iso := "2025-01-01T00:00:00.000Z";
     localhostDeployment := Some "0x5FbDB2315678afecb367f032d93F642f64180aa3";
     hardhatDeployment := Some "0x5FbDB2315678afecb367f032d93F642f64180aa3";
     provider_getNetwork := inr 31337;
     pinFileToIPFS := λ _, pinned_as "bafy-image";
     pinJSONToIPFS := λ _, pinned_as "bafy-document";
     gateway_fetch := λ _, inl (new_Error "Failed to fetch");
     contract_getBatchInfo := λ _ id,
       match Ledger.view (Ledger.getBatchInfo id) s with
       | inr (r0, r1, r2, r3, r4, r5) => inr (r0, show_address r1, r2, r3, r4, r5)
       | inl e => inl (call_exception e)
       end;
     contract_getCurrentOwner := λ _ id,
       match Ledger.view (Ledger.getCurrentOwner id) s with
       | inr o => inr (show_address o)
       | inl e => inl (call_exception e)
       end;
     contract_getTotalBatches := λ _,
       match Ledger.view Ledger.getTotalBatches s with
       | inr n => inr n
       | inl e => inl (call_exception e)
       end;
     contract_createBatch := λ _ hash,
       match Ledger.execute (Ledger.createBatch sender hash) s with
       | (inr _, _, events) =>
           inr {| tx_hash := "0x01"; tx_wait := inr (Some (log_of <$> events)) |}
       | (inl e, _, _) => inl (call_exception e)
       end;
     localStorage_available := true |}.

(** The browser of Bob after [demo_history]. *)
Definition demo_browser : Collaborators :=
  browser (LedgerSpec.history_state LedgerSpec.demo_history)
    (LedgerSpec.sent_by LedgerSpec.bob).

(** A browser that has not sent anything yet. *)
Definition fresh_world : World := {| trace := []; stored := NoItem |}.

(** A filled-in creation form, with an image and an external URL. *)
Definition demo_form : BatchFormData :=
  {| form_name := "Wheat lot 7";
     form_description := "Hard red winter wheat";
     form_origin := Some "Punjab";
     form_quality_grade := Some "A";
     form_harvest_date := None;
     form_expiry_date := None;
     form_weight := Some "40t";
     form_location := None;
     form_certifications := Some ["organic"];
     form_image := Some {| file_name := "lot7.png"; file_bytes := "PNG" |};
     form_external_url := Some "https://example.org/lot7";
     form_attributes := None |}.

End ClientSpec.

(** ** Further vocabulary for the ledger *)

Module LedgerMore.

Import Ledger LedgerSpec.
Local Open Scope N_scope.

(** The events a transaction leaves in its receipt. *)
Definition receipt (env : Env) (c : Call) (s : State) : list Event :=
  snd (execute (dispatch env c) s).

(** The events of a whole sequence of transactions, oldest first. *)
Fixpoint event_log (txs : list (Env * Call)) (s : State) : list Event :=
  match txs with
  | [] => []
  | (env, c) :: rest => receipt env c s ++ event_log rest (step env c s)
  end.

(** What an observer of the events does to its copy of the batches. *)
Definition apply_event (m : gmap N Batch) (ev : Event) : gmap N Batch :=
  match ev with
  | BatchCreated id creator timestamp hash =>
      <[id := {| batchId := id; ownerHistory := [creator]; exists_ := true;
                 createdAt := timestamp; lastTransferAt := timestamp;
                 ipfsHash := hash |}]> m
  | BatchTransferred id _ to timestamp =>
      <[id := set_lastTransferAt timestamp
                (push_owner to (default zero_batch (m !! id)))]> m
  | MetadataUpdated id _ newIpfsHash _ =>
      <[id := set_ipfsHash newIpfsHash (default zero_batch (m !! id))]> m
  end.

Definition replay_from (m : gmap N Batch) (evs : list Event) : gmap N Batch :=
  foldl apply_event m evs.

Definition replay (evs : list Event) : gmap N Batch := replay_from ∅ evs.

(** A history in which no owner follows itself and only the first entry
    may be the zero address. *)
Definition proper_history (h : list address) : Prop :=
  ∀ i a b, h !! i = Some a → h !! S i = Some b → a ≠ b ∧ b ≠ address_zero.

(** What the members of an existing batch keep telling: its own id, the
    set flag, and equal time stamps as long as it was never transferred. *)
Record batch_ok (id : uint256) (b : Batch) : Prop := mk_batch_ok {
  ok_id : batchId b = id;
  ok_flag : exists_ b = true;
  ok_fresh : length (ownerHistory b) = 1%nat → lastTransferAt b = createdAt b;
  ok_proper : proper_history (ownerHistory b)
}.

Definition batches_ok (s : State) : Prop :=
  ∀ id, batchExists id s = true → batch_ok id (batches id s).

End LedgerMore.

(** ** Vocabulary for comparing the two contracts *)

Module Variants.

Import Ledger.
Local Open Scope N_scope.

(** A batch, a storage, an event and a result of the contract with
    metadata, seen without the metadata. *)
Definition erase_batch (b : Batch) : LedgerBasic.Batch :=
  {| LedgerBasic.batchId := batchId b;
     LedgerBasic.ownerHistory := ownerHistory b;
     LedgerBasic.exists_ := exists_ b;
     LedgerBasic.createdAt := createdAt b;
     LedgerBasic.lastTransferAt := lastTransferAt b |}.

Definition erase (s : State) : LedgerBasic.State :=
  {| LedgerBasic.st_batches := erase_batch <$> st_batches s;
     LedgerBasic.st_batchExists := st_batchExists s;
     LedgerBasic.nextBatchId := nextBatchId s |}.

Definition erase_event (e : Event) : option LedgerBasic.Event :=
  match e with
  | BatchCreated id creator timestamp _ =>
      Some (LedgerBasic.BatchCreated id creator timestamp)
  | BatchTransferred id from to timestamp =>
      Some (LedgerBasic.BatchTransferred id from to timestamp)
  | MetadataUpdated _ _ _ _ => None
  end.

(** The two contracts word the refusal of a stranger differently. *)
Definition erase_error (e : Error) : Error :=
  match e with
  | Revert reason =>
      if String.eqb reason MSG_NOT_OWNER then Revert LedgerBasic.MSG_NOT_OWNER
      else Revert reason
  | Panic code => Panic code
  end.

Definition erase_result {A} (r : Result A) : Result A :=
  match r with
  | inl e => inl (erase_error e)
  | inr a => inr a
  end.

Definition erase_outcome {A} (x : Result A * State * list Event)
  : Result A * LedgerBasic.State * list LedgerBasic.Event :=
  let '(r, s, events) := x in
  (erase_result r, erase s, omap erase_event events).

Definition erase_info (t : uint256 * address * uint256 * uint256 * uint256 * string)
  : uint256 * address * uint256 * uint256 * uint256 :=
  let '(r0, r1, r2, r3, r4, _) := t in (r0, r1, r2, r3, r4).

(** The guards of the basic [onlyCurrentOwner] and [transferBatch], in the
    order the code evaluates them. *)
Definition basic_owner_check (sender : address) (id : uint256)
    (s : LedgerBasic.State) : option Error :=
  if LedgerBasic.batchExists id s then
    match last (LedgerBasic.ownerHistory (LedgerBasic.batches id s)) with
    | None => Some PANIC_ARITHMETIC
    | Some o => if o =? sender then None
                else Some (Revert LedgerBasic.MSG_NOT_OWNER)
    end
  else Some (Revert MSG_NOT_EXIST).

Definition basic_transfer_check (sender : address) (id : uint256)
    (newOwner : address) (s : LedgerBasic.State) : option Error :=
  match basic_owner_check sender id s with
  | Some e => Some e
  | None =>
      if newOwner =? address_zero then Some (Revert MSG_ZERO_ADDRESS)
      else if newOwner =? sender then Some (Revert MSG_SAME_OWNER)
      else None
  end.

(** The storage after a successful basic [createBatch] and [transferBatch]. *)
Definition basic_created_state (env : Env) (s : LedgerBasic.State)
  : LedgerBasic.State :=
  let id := LedgerBasic.nextBatchId s in
  {| LedgerBasic.st_batches :=
       <[id := {| LedgerBasic.batchId := id;
                  LedgerBasic.ownerHistory :=
                    LedgerBasic.ownerHistory (LedgerBasic.batches id s)
                    ++ [msg_sender env];
                  LedgerBasic.exists_ := true;
                  LedgerBasic.createdAt := block_timestamp env;
                  LedgerBasic.lastTransferAt := block_timestamp env |}]>
         (LedgerBasic.st_batches s);
     LedgerBasic.st_batchExists := <[id := true]> (LedgerBasic.st_batchExists s);
     LedgerBasic.nextBatchId := id + 1 |}.

Definition basic_transferred_state (env : Env) (id : uint256) (o : address)
    (s : LedgerBasic.State) : LedgerBasic.State :=
  {| LedgerBasic.st_batches :=
       <[id := LedgerBasic.set_lastTransferAt (block_timestamp env)
                 (LedgerBasic.push_owner o (LedgerBasic.batches id s))]>
         (LedgerBasic.st_batches s);
     LedgerBasic.st_batchExists := LedgerBasic.st_batchExists s;
     LedgerBasic.nextBatchId := LedgerBasic.nextBatchId s |}.

End Variants.

(** ** Further vocabulary for the client *)

Module ClientMoreSpec.

Import Client ClientSpec.
Local Open Scope N_scope.

Section Spec.

Context `{Collaborators}.

(** The record the scan of [getUserOwnedBatches] keeps for id [i], if any:
    the owner query is answered with a matching address and the record
    query is answered. *)
Definition pick (contract userAddress : string) (i : N) : option BatchInfo :=
  match contract_getCurrentOwner contract i with
  | inl _ => None
  | inr currentOwner =>
      if String.eqb (toLowerCase currentOwner) (toLowerCase userAddress)
      then match contract_getBatchInfo contract i with
           | inr result => Some (info_of result)
           | inl _ => None
           end
      else None
  end.

End Spec.

(** The browser of the examples in a private window, where the storage
    throws. *)
Definition private_browser : Collaborators :=
  {| PINATA_GATEWAY := @PINATA_GATEWAY demo_browser;
     now_iso := @now_iso demo_browser;
     localhostDeployment := @localhostDeployment demo_browser;
     hardhatDeployment := @hardhatDeployment demo_browser;
     provider_getNetwork := @provider_getNetwork demo_browser;
     pinFileToIPFS := @pinFileToIPFS demo_browser;
     pinJSONToIPFS := @pinJSONToIPFS demo_browser;
     gateway_fetch := @gateway_fetch demo_browser;
     contract_getBatchInfo := @contract_getBatchInfo demo_browser;
     contract_getCurrentOwner := @contract_getCurrentOwner demo_browser;
     contract_getTotalBatches := @contract_getTotalBatches demo_browser;
     contract_createBatch := @contract_createBatch demo_browser;
     localStorage_available := false |}.

(** The browser of the examples with the wallet on the Ethereum main
    network. *)
Definition mainnet_browser : Collaborators :=
  {| PINATA_GATEWAY := @PINATA_GATEWAY demo_browser;
     now_iso := @now_iso demo_browser;
     localhostDeployment := @localhostDeployment demo_browser;
     hardhatDeployment := @hardhatDeployment demo_browser;
     provider_getNetwork := inr 1;
     pinFileToIPFS := @pinFileToIPFS demo_browser;
     pinJSONToIPFS := @pinJSONToIPFS demo_browser;
     gateway_fetch := @gateway_fetch demo_browser;
     contract_getBatchInfo := @contract_getBatchInfo demo_browser;
     contract_getCurrentOwner := @contract_getCurrentOwner demo_browser;
     contract_getTotalBatches := @contract_getTotalBatches demo_browser;
     contract_createBatch := @contract_createBatch demo_browser;
     localStorage_available := true |}.

(** The browser of the examples behind a node that loses the record query
    for batch 1. *)
Definition flaky_browser : Collaborators :=
  {| PINATA_GATEWAY := @PINATA_GATEWAY demo_browser;
     now_iso := @now_iso demo_browser;
     localhostDeployment := @localhostDeployment demo_browser;
     hardhatDeployment := @hardhatDeployment demo_browser;
     provider_getNetwork := @provider_getNetwork demo_browser;
     pinFileToIPFS := @pinFileToIPFS demo_browser;
     pinJSONToIPFS := @pinJSONToIPFS demo_browser;
     gateway_fetch := @gateway_fetch demo_browser;
     contract_getBatchInfo := λ contract id,
       if id =? 1 then inl (new_Error "request timeout")
       else @contract_getBatchInfo demo_browser contract id;
     contract_getCurrentOwner := @contract_getCurrentOwner demo_browser;
     contract_getTotalBatches := @contract_getTotalBatches demo_browser;
     contract_createBatch := @contract_createBatch demo_browser;
     localStorage_available := true |}.


(** No quote in [s]: what [[^']] accepts, character by character. *)
Fixpoint quote_free (s : string) : bool :=
  match s with
  | EmptyString => true
  | String c rest => negb (Ascii.eqb c "'"%char) && quote_free rest
  end.

(** [reason], between the literal of the regular expression and a closing
    quote, somewhere in [message]. *)
Definition quotes_reason (message reason : string) : Prop :=
  ∃ before behind,
    message = before +:+ REVERT_PREFIX +:+ reason +:+ String "'"%char behind.

(** The rejection [handleQRScan] shows. *)
Definition scan_rejected (form : TransferBatch.Form) : TransferBatch.Form :=
  {| TransferBatch.newOwner := TransferBatch.newOwner form;
     TransferBatch.inputMode := TransferBatch.inputMode form;
     TransferBatch.error :=
       Some "Scanned QR code does not contain a valid Ethereum address" |}.

(** All the characters of [s] are hexadecimal digits. *)
Fixpoint all_hex (s : string) : bool :=
  match s with
  | EmptyString => true
  | String c rest => TransferBatch.is_hex c && all_hex rest
  end.

End ClientMoreSpec.

(* ===================================================================== *)
(** * Part IV: properties of the ledger contract                          *)
(* ===================================================================== *)

Module LedgerFacts.

Import Ledger LedgerSpec.
Local Open Scope N_scope.

(** ** Running the monad *)

#[local] Arguments last_owner : simpl never.
#[local] Arguments getCurrentOwner : simpl never.
#[local] Arguments index : simpl never.

Ltac run_monad :=
  repeat progress
    (unfold mbind, M_bind, mret, M_ret, read, write, emit, require, throw,
       checked_add, checked_sub, update_batch, set_batchExists,
       set_nextBatchId in *; simpl in *).

Lemma batches_insert_eq id b (m : gmap N Batch) ex n :
  batches id {| st_batches := <[id := b]> m; st_batchExists := ex;
                nextBatchId := n |} = b.
Proof. unfold batches; simpl. by rewrite lookup_insert_eq. Qed.

Lemma batches_insert_ne id id' b (m : gmap N Batch) ex n :
  id ≠ id' →
  batches id' {| st_batches := <[id := b]> m; st_batchExists := ex;
                 nextBatchId := n |}
  = default zero_batch (m !! id').
Proof. intros. unfold batches; simpl. by rewrite lookup_insert_ne. Qed.

(** The bounds-checked read of the last slot is [last]. *)
Lemma index_last {A} (h : list A) (o : A) (m : Machine) :
  last h = Some o →
  index h (array_length h - 1) m = (inr o, m).
Proof.
  intros Hlast. unfold index, array_length.
  replace (N.to_nat (N.of_nat (length h) - 1)) with (Nat.pred (length h))
    by lia.
  by rewrite <- last_lookup, Hlast.
Qed.

Lemma last_nonempty_length {A} (h : list A) (o : A) :
  last h = Some o → (1 <=? array_length h) = true.
Proof.
  intros Hlast. apply N.leb_le. unfold array_length.
  destruct h; [discriminate | simpl; lia].
Qed.

Lemma last_owner_run id m o :
  last (ownerHistory (batches id (storage m))) = Some o →
  last_owner id m = (inr o, m).
Proof.
  intros Hlast. unfold last_owner. run_monad.
  rewrite (last_nonempty_length _ _ Hlast).
  by apply index_last.
Qed.

Lemma last_owner_empty id m :
  ownerHistory (batches id (storage m)) = [] →
  last_owner id m = (inl PANIC_ARITHMETIC, m).
Proof.
  intros Hh. unfold last_owner, index, array_length. run_monad.
  by rewrite Hh.
Qed.

(** ** Closed forms of the three transactions *)

Lemma createBatch_run env h m :
  nextBatchId (storage m) < UINT256_MAX →
  createBatch env h m =
    (inr (nextBatchId (storage m)),
     {| storage := created_state env h (storage m);
        emitted := emitted m ++ [BatchCreated (nextBatchId (storage m))
                                   (msg_sender env) (block_timestamp env) h] |}).
Proof.
  intros Hlt. unfold createBatch. run_monad.
  assert (Hle : (nextBatchId (storage m) + 1 <=? UINT256_MAX) = true)
    by (apply N.leb_le; lia).
  rewrite Hle; simpl.
  rewrite !batches_insert_eq. unfold batches at 1; simpl.
  rewrite !insert_insert_eq.
  reflexivity.
Qed.

Lemma createBatch_overflow env h m :
  UINT256_MAX ≤ nextBatchId (storage m) →
  createBatch env h m = (inl PANIC_ARITHMETIC, m).
Proof.
  intros Hge. unfold createBatch. run_monad.
  assert (Hle : (nextBatchId (storage m) + 1 <=? UINT256_MAX) = false)
    by (apply N.leb_gt; lia).
  by rewrite Hle.
Qed.

Lemma owner_check_None sender id s :
  owner_check sender id s = None ↔
  batchExists id s = true ∧ last (ownerHistory (batches id s)) = Some sender.
Proof.
  unfold owner_check.
  destruct (batchExists id s); [|split; [discriminate | intros [? _]; discriminate]].
  destruct (last (ownerHistory (batches id s))) as [o|];
    [|split; [discriminate | intros [_ ?]; discriminate]].
  destruct (N.eqb_spec o sender) as [->|Hne]; split; try done.
  intros [_ Heq]. by inversion Heq.
Qed.

Lemma getCurrentOwner_run id m o :
  batchExists id (storage m) = true →
  last (ownerHistory (batches id (storage m))) = Some o →
  getCurrentOwner id m = (inr o, m).
Proof.
  intros Hex Hlast. unfold getCurrentOwner, batchMustExist. run_monad.
  rewrite Hex; simpl. by apply last_owner_run.
Qed.

Lemma transferBatch_run env id newOwner m :
  transferBatch env id newOwner m =
    match transfer_check (msg_sender env) id newOwner (storage m) with
    | Some e => (inl e, m)
    | None =>
        (inr tt,
         {| storage := transferred_state env id newOwner (storage m);
            emitted := emitted m ++ [BatchTransferred id (msg_sender env)
                                       newOwner (block_timestamp env)] |})
    end.
Proof.
  unfold transferBatch, batchMustExist, onlyCurrentOwner, transfer_check,
    owner_check.
  run_monad.
  destruct (batchExists id (storage m)) eqn:Hex; simpl; [|done].
  rewrite Hex; simpl.
  destruct (last (ownerHistory (batches id (storage m)))) as [o|] eqn:Hlast.
  - rewrite (last_owner_run _ _ _ Hlast).
    destruct (N.eqb_spec o (msg_sender env)) as [->|Hne]; simpl; [|done].
    destruct (newOwner =? address_zero); simpl; [done|].
    rewrite (getCurrentOwner_run _ _ _ Hex Hlast).
    destruct (newOwner =? msg_sender env); simpl; [done|].
    rewrite (getCurrentOwner_run _ _ _ Hex Hlast).
    rewrite batches_insert_eq, insert_insert_eq.
    reflexivity.
  - apply last_None in Hlast. by rewrite (last_owner_empty _ _ Hlast).
Qed.

Lemma updateMetadata_run env id h m :
  updateMetadata env id h m =
    match owner_check (msg_sender env) id (storage m) with
    | Some e => (inl e, m)
    | None =>
        (inr tt,
         {| storage := updated_state id h (storage m);
            emitted := emitted m ++ [MetadataUpdated id
                                       (ipfsHash (batches id (storage m))) h
                                       (block_timestamp env)] |})
    end.
Proof.
  unfold updateMetadata, batchMustExist, onlyCurrentOwner, owner_check.
  run_monad.
  destruct (batchExists id (storage m)) eqn:Hex; simpl; [|done].
  rewrite Hex; simpl.
  destruct (last (ownerHistory (batches id (storage m)))) as [o|] eqn:Hlast.
  - rewrite (last_owner_run _ _ _ Hlast).
    by destruct (N.eqb_spec o (msg_sender env)) as [->|Hne].
  - apply last_None in Hlast. by rewrite (last_owner_empty _ _ Hlast).
Qed.

(** ** One transaction, in closed form *)

Lemma execute_createBatch env h s :
  execute (dispatch env (CreateBatch h)) s =
    if nextBatchId s <? UINT256_MAX
    then (inr (Created (nextBatchId s)), created_state env h s,
          [BatchCreated (nextBatchId s) (msg_sender env) (block_timestamp env) h])
    else (inl PANIC_ARITHMETIC, s, []).
Proof.
  unfold execute, dispatch.
  unfold mbind at 1, M_bind at 1.
  destruct (N.ltb_spec (nextBatchId s) UINT256_MAX) as [Hlt|Hge].
  - by rewrite createBatch_run.
  - by rewrite createBatch_overflow.
Qed.

Lemma execute_transferBatch env id o s :
  execute (dispatch env (TransferBatch id o)) s =
    match transfer_check (msg_sender env) id o s with
    | Some e => (inl e, s, [])
    | None => (inr Done, transferred_state env id o s,
               [BatchTransferred id (msg_sender env) o (block_timestamp env)])
    end.
Proof.
  unfold execute, dispatch.
  unfold mbind at 1, M_bind at 1.
  rewrite transferBatch_run; simpl.
  by destruct (transfer_check (msg_sender env) id o s).
Qed.

Lemma execute_updateMetadata env id h s :
  execute (dispatch env (UpdateMetadata id h)) s =
    match owner_check (msg_sender env) id s with
    | Some e => (inl e, s, [])
    | None => (inr Done, updated_state id h s,
               [MetadataUpdated id (ipfsHash (batches id s)) h
                  (block_timestamp env)])
    end.
Proof.
  unfold execute, dispatch.
  unfold mbind at 1, M_bind at 1.
  rewrite updateMetadata_run; simpl.
  by destruct (owner_check (msg_sender env) id s).
Qed.

Lemma step_createBatch env h s :
  step env (CreateBatch h) s =
    if nextBatchId s <? UINT256_MAX then created_state env h s else s.
Proof.
  unfold step. rewrite execute_createBatch.
  by destruct (nextBatchId s <? UINT256_MAX).
Qed.

Lemma outcome_createBatch env h s :
  outcome env (CreateBatch h) s =
    if nextBatchId s <? UINT256_MAX then inr (Created (nextBatchId s))
    else inl PANIC_ARITHMETIC.
Proof.
  unfold outcome. rewrite execute_createBatch.
  by destruct (nextBatchId s <? UINT256_MAX).
Qed.

Lemma step_transferBatch env id o s :
  step env (TransferBatch id o) s =
    match transfer_check (msg_sender env) id o s with
    | Some _ => s
    | None => transferred_state env id o s
    end.
Proof.
  unfold step. rewrite execute_transferBatch.
  by destruct (transfer_check (msg_sender env) id o s).
Qed.

Lemma outcome_transferBatch env id o s :
  outcome env (TransferBatch id o) s =
    match transfer_check (msg_sender env) id o s with
    | Some e => inl e
    | None => inr Done
    end.
Proof.
  unfold outcome. rewrite execute_transferBatch.
  by destruct (transfer_check (msg_sender env) id o s).
Qed.

Lemma step_updateMetadata env id h s :
  step env (UpdateMetadata id h) s =
    match owner_check (msg_sender env) id s with
    | Some _ => s
    | None => updated_state id h s
    end.
Proof.
  unfold step. rewrite execute_updateMetadata.
  by destruct (owner_check (msg_sender env) id s).
Qed.

Lemma outcome_updateMetadata env id h s :
  outcome env (UpdateMetadata id h) s =
    match owner_check (msg_sender env) id s with
    | Some e => inl e
    | None => inr Done
    end.
Proof.
  unfold outcome. rewrite execute_updateMetadata.
  by destruct (owner_check (msg_sender env) id s).
Qed.

(** A failed transaction leaves the storage alone. *)
Lemma step_failed env c s e : outcome env c s = inl e → step env c s = s.
Proof.
  unfold outcome, step, execute.
  by destruct (dispatch env c _) as [[e'|r] m].
Qed.

(** ** The view functions, in closed form *)

Lemma view_not_found {A} (body : M A) id s :
  batchExists id s = false →
  view (batchMustExist id body) s = inl (Revert MSG_NOT_EXIST).
Proof.
  intros Hex. unfold view, batchMustExist. run_monad. by rewrite Hex.
Qed.

Lemma view_found {A} (body : M A) id s :
  batchExists id s = true →
  view (batchMustExist id body) s = view body s.
Proof.
  intros Hex. unfold view, batchMustExist. run_monad. by rewrite Hex.
Qed.

Lemma view_getCurrentOwner id s o :
  batchExists id s = true →
  last (ownerHistory (batches id s)) = Some o →
  view (getCurrentOwner id) s = inr o.
Proof.
  intros Hex Hlast. unfold view.
  by rewrite (getCurrentOwner_run id _ o).
Qed.

Lemma view_getCurrentOwner_inv id s o :
  view (getCurrentOwner id) s = inr o →
  batchExists id s = true ∧ last (ownerHistory (batches id s)) = Some o.
Proof.
  unfold getCurrentOwner. intros Hv.
  destruct (batchExists id s) eqn:Hex;
    [|by rewrite view_not_found in Hv].
  split; [done|].
  rewrite view_found in Hv by done. unfold view in Hv.
  destruct (last (ownerHistory (batches id s))) as [o'|] eqn:Hlast.
  - rewrite (last_owner_run id _ o') in Hv by done. simpl in Hv. congruence.
  - apply last_None in Hlast.
    rewrite last_owner_empty in Hv by done. discriminate.
Qed.

Lemma view_getOwnerHistory id s :
  batchExists id s = true →
  view (getOwnerHistory id) s = inr (ownerHistory (batches id s)).
Proof. intros Hex. unfold getOwnerHistory. by rewrite view_found. Qed.

Lemma view_getOwnerCount id s :
  batchExists id s = true →
  view (getOwnerCount id) s = inr (array_length (ownerHistory (batches id s))).
Proof. intros Hex. unfold getOwnerCount. by rewrite view_found. Qed.

Lemma view_wasOwner id a s :
  batchExists id s = true →
  view (wasOwner id a) s = inr (wasOwner_loop (ownerHistory (batches id s)) a).
Proof. intros Hex. unfold wasOwner. by rewrite view_found. Qed.

Lemma view_getBatchInfo id s o :
  batchExists id s = true →
  last (ownerHistory (batches id s)) = Some o →
  view (getBatchInfo id) s =
    inr (batchId (batches id s), o,
         array_length (ownerHistory (batches id s)),
         createdAt (batches id s), lastTransferAt (batches id s),
         ipfsHash (batches id s)).
Proof.
  intros Hex Hlast. unfold getBatchInfo. rewrite view_found by done.
  unfold view. run_monad.
  rewrite (last_nonempty_length _ _ Hlast).
  by rewrite (index_last _ _ _ Hlast).
Qed.

Lemma view_getTotalBatches s :
  1 ≤ nextBatchId s → view getTotalBatches s = inr (nextBatchId s - 1).
Proof.
  intros Hle. unfold view, getTotalBatches. run_monad.
  apply N.leb_le in Hle. by rewrite Hle.
Qed.

(** ** How one transaction moves the storage *)

Lemma batchExists_created env h s id :
  batchExists id (created_state env h s) =
    if decide (nextBatchId s = id) then true else batchExists id s.
Proof.
  unfold batchExists, created_state; simpl.
  rewrite lookup_insert. by case_decide.
Qed.

Lemma batches_created env h s id :
  batches id (created_state env h s) =
    if decide (nextBatchId s = id) then created_batch env h s else batches id s.
Proof.
  unfold batches, created_state; simpl.
  rewrite lookup_insert. by case_decide.
Qed.

Lemma batches_transferred env id o s id' :
  batches id' (transferred_state env id o s) =
    if decide (id = id')
    then set_lastTransferAt (block_timestamp env) (push_owner o (batches id s))
    else batches id' s.
Proof.
  unfold batches, transferred_state; simpl.
  rewrite lookup_insert. by case_decide.
Qed.

Lemma batches_updated id h s id' :
  batches id' (updated_state id h s) =
    if decide (id = id') then set_ipfsHash h (batches id s) else batches id' s.
Proof.
  unfold batches, updated_state; simpl.
  rewrite lookup_insert. by case_decide.
Qed.

(** [exists] is never unset. *)
Lemma step_batchExists env c s id :
  batchExists id s = true → batchExists id (step env c s) = true.
Proof.
  intros Hex. destruct c as [h|id' o|id' h].
  - rewrite step_createBatch.
    destruct (nextBatchId s <? UINT256_MAX); [|done].
    rewrite batchExists_created. by case_decide.
  - rewrite step_transferBatch.
    by destruct (transfer_check (msg_sender env) id' o s).
  - rewrite step_updateMetadata.
    by destruct (owner_check (msg_sender env) id' s).
Qed.

(** The owner history is append-only. *)
Lemma step_ownerHistory env c s id :
  ∃ l, ownerHistory (batches id (step env c s))
       = ownerHistory (batches id s) ++ l.
Proof.
  destruct c as [h|id' o|id' h].
  - rewrite step_createBatch.
    destruct (nextBatchId s <? UINT256_MAX); [|exists []; by rewrite app_nil_r].
    rewrite batches_created. case_decide as Hid.
    + subst id. by exists [msg_sender env].
    + exists []. by rewrite app_nil_r.
  - rewrite step_transferBatch.
    destruct (transfer_check (msg_sender env) id' o s);
      [exists []; by rewrite app_nil_r|].
    rewrite batches_transferred. case_decide as Hid.
    + subst id'. by exists [o].
    + exists []. by rewrite app_nil_r.
  - rewrite step_updateMetadata.
    destruct (owner_check (msg_sender env) id' s);
      [exists []; by rewrite app_nil_r|].
    rewrite batches_updated. case_decide as Hid.
    + subst id'. exists []. by rewrite app_nil_r.
    + exists []. by rewrite app_nil_r.
Qed.

Lemma wasOwner_loop_elem h a : wasOwner_loop h a = true ↔ a ∈ h.
Proof.
  induction h as [|x h IH]; simpl.
  - split; [discriminate | by intros ?%elem_of_nil].
  - rewrite elem_of_cons. destruct (N.eqb_spec x a) as [->|Hne].
    + split; auto.
    + rewrite IH. split; [auto | intros [?|?]; [congruence | done]].
Qed.

Lemma wasOwner_loop_app h l a :
  wasOwner_loop h a = true → wasOwner_loop (h ++ l) a = true.
Proof. rewrite !wasOwner_loop_elem, elem_of_app. auto. Qed.

(** Once [wasOwner] answers [true], it does so after every transaction. *)
Lemma step_wasOwner env c s id a :
  view (wasOwner id a) s = inr true →
  view (wasOwner id a) (step env c s) = inr true.
Proof.
  intros Hv.
  destruct (batchExists id s) eqn:Hex;
    [|unfold wasOwner in Hv; by rewrite view_not_found in Hv].
  rewrite view_wasOwner in * by eauto using step_batchExists.
  destruct (step_ownerHistory env c s id) as [l ->].
  f_equal. apply wasOwner_loop_app. congruence.
Qed.

Lemma run_app txs1 txs2 s :
  run (txs1 ++ txs2) s =
    (fst (run txs1 s) ++ fst (run txs2 (snd (run txs1 s))),
     snd (run txs2 (snd (run txs1 s)))).
Proof.
  revert s. induction txs1 as [|[env c] txs1 IH]; intros s; simpl.
  - by destruct (run txs2 s).
  - rewrite IH. by destruct (run txs1 (step env c s)).
Qed.

Lemma run_wasOwner txs s id a :
  view (wasOwner id a) s = inr true →
  view (wasOwner id a) (snd (run txs s)) = inr true.
Proof.
  revert s. induction txs as [|[env c] txs IH]; intros s Hv; simpl; [done|].
  specialize (IH (step env c s) (step_wasOwner env c s id a Hv)).
  by destruct (run txs (step env c s)).
Qed.

Lemma run_reachable txs s : reachable s → reachable (snd (run txs s)).
Proof.
  revert s. induction txs as [|[env c] txs IH]; intros s Hs; simpl; [done|].
  specialize (IH (step env c s) (reach_step env c s Hs)).
  by destruct (run txs (step env c s)).
Qed.

(** ** The storage invariant *)

Lemma wf_constructor : wf constructor.
Proof.
  split; simpl.
  - unfold UINT256_MAX. lia.
  - intros id. unfold batchExists; simpl. rewrite lookup_empty; simpl.
    split; [discriminate | lia].
  - intros id _. apply lookup_empty.
  - intros id. unfold batchExists; simpl. by rewrite lookup_empty.
Qed.

Lemma wf_step env c s : wf s → wf (step env c s).
Proof.
  intros [Hc Hex Hfr How]. destruct c as [h|id' o|id' h].
  - rewrite step_createBatch.
    destruct (N.ltb_spec (nextBatchId s) UINT256_MAX) as [Hlt|Hge]; [|done].
    split.
    + simpl. lia.
    + intros id. rewrite batchExists_created. simpl. case_decide as Hid.
      * subst id. split; [lia | done].
      * rewrite Hex. lia.
    + intros id Hid. simpl in *. rewrite lookup_insert_ne by lia.
      apply Hfr. lia.
    + intros id. rewrite batchExists_created, batches_created.
      case_decide as Hid; [intros _; simpl; by destruct (ownerHistory _)|].
      apply How.
  - rewrite step_transferBatch.
    destruct (transfer_check (msg_sender env) id' o s) as [e|] eqn:Hchk;
      [done|].
    assert (Hex' : batchExists id' s = true).
    { unfold transfer_check in Hchk.
      destruct (owner_check (msg_sender env) id' s) eqn:Hoc; [done|].
      by apply owner_check_None in Hoc as [? _]. }
    split; try done.
    + intros id Hid. simpl in *.
      rewrite lookup_insert_ne; [by apply Hfr|].
      apply Hex in Hex'. lia.
    + intros id Hid. rewrite batches_transferred.
      case_decide; [simpl; by destruct (ownerHistory _)|].
      by apply How.
  - rewrite step_updateMetadata.
    destruct (owner_check (msg_sender env) id' s) as [e|] eqn:Hchk; [done|].
    apply owner_check_None in Hchk as [Hex' _].
    split; try done.
    + intros id Hid. simpl in *.
      rewrite lookup_insert_ne; [by apply Hfr|].
      apply Hex in Hex'. lia.
    + intros id Hid. rewrite batches_updated.
      case_decide as Heq; [subst id'; simpl|]; by apply How.
Qed.

Lemma reachable_wf s : reachable s → wf s.
Proof. induction 1; auto using wf_constructor, wf_step. Qed.

(** ** The ownership invariant *)

Lemma owned_intro s id :
  batchExists id s = true → ownerHistory (batches id s) ≠ [] → owned s id.
Proof.
  intros Hex Hne.
  destruct (last (ownerHistory (batches id s))) as [o|] eqn:Hlast;
    [|by apply last_None in Hlast].
  exists (ownerHistory (batches id s)), o.
  by rewrite view_getOwnerHistory, (view_getCurrentOwner id s o).
Qed.

Lemma owned_elim s id :
  batchExists id s = true → owned s id → ownerHistory (batches id s) ≠ [].
Proof.
  intros Hex (h & o & Hh & Hne & _). rewrite view_getOwnerHistory in Hh by done.
  congruence.
Qed.

Lemma owner_inv_step env c s : owner_inv s → owner_inv (step env c s).
Proof.
  intros Hinv id Hex'. apply owned_intro; [done|].
  destruct (step_ownerHistory env c s id) as [l Hl].
  destruct (batchExists id s) eqn:Hex.
  - rewrite Hl. specialize (owned_elim s id Hex (Hinv id Hex)).
    by destruct (ownerHistory (batches id s)).
  - (* the batch came into being in this very transaction *)
    clear Hl. revert Hex'. destruct c as [h|id' o|id' h].
    + rewrite step_createBatch.
      destruct (nextBatchId s <? UINT256_MAX); [|intros ?; congruence].
      rewrite batchExists_created, batches_created.
      case_decide; [intros _|intros ?; congruence]. simpl.
      by destruct (ownerHistory _).
    + rewrite step_transferBatch.
      destruct (transfer_check _ _ _ _); unfold batchExists in *; simpl;
        intros ?; congruence.
    + rewrite step_updateMetadata.
      destruct (owner_check _ _ _); unfold batchExists in *; simpl;
        intros ?; congruence.
Qed.

Lemma owner_inv_wf s : wf s → owner_inv s.
Proof. intros Hwf id Hex. apply owned_intro; [done|]. by apply Hwf. Qed.

(** C1. In every storage the contract can reach, each existing batch has a
    non-empty [getOwnerHistory] whose last element is [getCurrentOwner];
    every one of the three operations (successful or reverted) hands this
    on to the next storage, and never unsets [batchExists]. *)
Theorem ownership_invariant (s : State) :
  reachable s →
  owner_inv s
  ∧ ∀ env c,
      owner_inv (step env c s)
      ∧ ∀ id, batchExists id s = true → batchExists id (step env c s) = true.
Proof.
  intros Hs. pose proof (owner_inv_wf s (reachable_wf s Hs)) as Hinv.
  split; [done|]. intros env c. split.
  - by apply owner_inv_step.
  - intros id. apply step_batchExists.
Qed.

(** ** Sequential identifiers *)

Lemma ids_from_S k n : ids_from k (S n) = k :: ids_from (k + 1) n.
Proof.
  unfold ids_from. simpl. f_equal; [lia|].
  rewrite <- fmap_S_seq, <- list_fmap_compose.
  apply list_fmap_ext. intros _ i _. simpl. lia.
Qed.

Lemma ids_from_1 n : ids_from 1 n = N.of_nat <$> seq 1 n.
Proof.
  unfold ids_from. rewrite <- fmap_S_seq, <- list_fmap_compose.
  apply list_fmap_ext. intros _ i _. simpl. lia.
Qed.

Lemma step_counter env c s :
  match outcome env c s with
  | inr (Created id) => id = nextBatchId s
                        ∧ nextBatchId (step env c s) = nextBatchId s + 1
  | _ => nextBatchId (step env c s) = nextBatchId s
  end.
Proof.
  destruct c as [h|id' o|id' h].
  - rewrite outcome_createBatch, step_createBatch.
    by destruct (nextBatchId s <? UINT256_MAX).
  - rewrite outcome_transferBatch, step_transferBatch.
    by destruct (transfer_check _ _ _ _).
  - rewrite outcome_updateMetadata, step_updateMetadata.
    by destruct (owner_check _ _ _).
Qed.

Lemma run_counter txs s :
  let ids := created_ids (fst (run txs s)) in
  ids = ids_from (nextBatchId s) (length ids)
  ∧ nextBatchId (snd (run txs s)) = nextBatchId s + N.of_nat (length ids).
Proof.
  revert s. induction txs as [|[env c] txs IH]; intros s; simpl.
  - split; [done | lia].
  - specialize (IH (step env c s)). pose proof (step_counter env c s) as Hc.
    destruct (run txs (step env c s)) as [outs s'] eqn:Hrun. simpl in *.
    destruct (outcome env c s) as [e|[id|]]; simpl.
    + rewrite Hc in IH. done.
    + destruct Hc as [-> Hc]. rewrite Hc in IH. destruct IH as [IH1 IH2].
      rewrite ids_from_S. split; [by f_equal | lia].
    + rewrite Hc in IH. done.
Qed.

Lemma history_getTotalBatches txs :
  view getTotalBatches (history_state txs)
  = inr (N.of_nat (length (history_ids txs))).
Proof.
  unfold history_ids, history_state.
  destruct (run_counter txs constructor) as [_ Hnext]. simpl in *.
  rewrite view_getTotalBatches by lia. f_equal. lia.
Qed.

(** C2. A successful [createBatch] hands out the value of the counter as the
    new id, leaves a batch whose history is [[caller]], whose two timestamps
    are the block time, whose metadata reference is the argument and whose
    [exists] flag is set, and moves the counter (hence [getTotalBatches]) up
    by exactly one; the call succeeds whenever the counter can still be
    incremented.  Over a whole history of the contract, the ids handed out
    are [1, 2, ..., N] in this order and [getTotalBatches] is [N], the
    number of successful creations. *)
Theorem createBatch_sequential :
  (∀ s env h, reachable s →
     (nextBatchId s < UINT256_MAX →
        outcome env (CreateBatch h) s = inr (Created (nextBatchId s)))
     ∧ ∀ r, outcome env (CreateBatch h) s = inr r →
         let id := nextBatchId s in
         let s' := step env (CreateBatch h) s in
         r = Created id
         ∧ batchExists id s = false
         ∧ batchExists id s' = true
         ∧ batches id s' =
             {| batchId := id; ownerHistory := [msg_sender env];
                exists_ := true; createdAt := block_timestamp env;
                lastTransferAt := block_timestamp env; ipfsHash := h |}
         ∧ view (getOwnerHistory id) s' = inr [msg_sender env]
         ∧ nextBatchId s' = nextBatchId s + 1
         ∧ view getTotalBatches s = inr (id - 1)
         ∧ view getTotalBatches s' = inr id)
  ∧ (∀ txs,
       let n := length (history_ids txs) in
       history_ids txs = N.of_nat <$> seq 1 n
       ∧ NoDup (history_ids txs)
       ∧ view getTotalBatches (history_state txs) = inr (N.of_nat n)).
Proof.
  split.
  - intros s env h Hs. pose proof (reachable_wf s Hs) as [Hc Hex Hfr How].
    rewrite outcome_createBatch, step_createBatch.
    destruct (N.ltb_spec (nextBatchId s) UINT256_MAX) as [Hlt|Hge];
      [|split; [lia | discriminate]].
    split; [done|]. intros r [= <-]. simpl.
    assert (Hnew : batches (nextBatchId s) (created_state env h s) =
                   {| batchId := nextBatchId s;
                      ownerHistory := [msg_sender env];
                      exists_ := true; createdAt := block_timestamp env;
                      lastTransferAt := block_timestamp env; ipfsHash := h |}).
    { rewrite batches_created. rewrite decide_True by done.
      unfold created_batch, batches. by rewrite Hfr. }
    assert (Hex' : batchExists (nextBatchId s) (created_state env h s) = true).
    { rewrite batchExists_created. by rewrite decide_True. }
    repeat split; try done.
    + destruct (batchExists (nextBatchId s) s) eqn:E; [|done].
      apply Hex in E. lia.
    + rewrite view_getOwnerHistory by done. by rewrite Hnew.
    + apply view_getTotalBatches. lia.
    + rewrite view_getTotalBatches by (simpl; lia). simpl. f_equal. lia.
  - intros txs. simpl. unfold history_ids, history_state.
    destruct (run_counter txs constructor) as [Hids Hnext]. simpl in *.
    rewrite ids_from_1 in Hids. repeat split.
    + done.
    + rewrite Hids. apply NoDup_fmap_2; [|apply NoDup_seq].
      intros i j Hij. lia.
    + apply history_getTotalBatches.
Qed.

(** ** The guards of [transferBatch] *)

Lemma fails_with_not_exist {A} (r : Result A) :
  r = inl (Revert MSG_NOT_EXIST) → fails_with r NotFound MSG_NOT_EXIST.
Proof. by intros ->. Qed.

Lemma storage_at_stop_transferBatch env id o s e :
  outcome env (TransferBatch id o) s = inl e →
  storage_at_stop (transferBatch env id o) s = s.
Proof.
  rewrite outcome_transferBatch. unfold storage_at_stop.
  rewrite transferBatch_run. simpl.
  by destruct (transfer_check (msg_sender env) id o s).
Qed.

(** C3. [transferBatch] evaluates its guards in the order existence,
    caller is current owner, target is not the zero address, target is not
    the current owner, and reports the first one that fails: [NotFound],
    [Unauthorized], [InvalidArgument], [InvalidArgument].  Whenever the call
    fails the storage afterwards is the storage before: the body had not
    written anything when it stopped, and no event is logged. *)
Theorem transferBatch_guards (s : State) (env : Env) (id : uint256)
    (newOwner : address) :
  reachable s →
  let r := outcome env (TransferBatch id newOwner) s in
  (batchExists id s = false → fails_with r NotFound MSG_NOT_EXIST)
  ∧ (batchExists id s = true →
       ∃ o, view (getCurrentOwner id) s = inr o
         ∧ (msg_sender env ≠ o → fails_with r Unauthorized MSG_NOT_OWNER)
         ∧ (msg_sender env = o → newOwner = address_zero →
              fails_with r InvalidArgument MSG_ZERO_ADDRESS)
         ∧ (msg_sender env = o → newOwner ≠ address_zero → newOwner = o →
              fails_with r InvalidArgument MSG_SAME_OWNER))
  ∧ (∀ e, r = inl e →
       execute (dispatch env (TransferBatch id newOwner)) s = (inl e, s, [])
       ∧ step env (TransferBatch id newOwner) s = s
       ∧ storage_at_stop (transferBatch env id newOwner) s = s).
Proof.
  intros Hs r. subst r. pose proof (reachable_wf s Hs) as Hwf.
  split; [|split].
  - intros Hex. rewrite outcome_transferBatch.
    unfold transfer_check, owner_check. by rewrite Hex.
  - intros Hex.
    destruct (last (ownerHistory (batches id s))) as [o|] eqn:Hlast;
      [|apply last_None in Hlast; by apply (wf_owned s Hwf) in Hex].
    exists o. split; [by apply view_getCurrentOwner|].
    rewrite outcome_transferBatch. unfold transfer_check, owner_check.
    rewrite Hex, Hlast.
    destruct (N.eqb_spec o (msg_sender env)) as [Ho|Ho].
    + subst o. split; [done|]. split.
      * intros _ ->. done.
      * intros _ Hnz ->.
        destruct (N.eqb_spec (msg_sender env) address_zero); [done|].
        by rewrite N.eqb_refl.
    + split; [done|]. split; intros Heq; by rewrite Heq in Ho.
  - intros e He. split; [|split].
    + rewrite execute_transferBatch. rewrite outcome_transferBatch in He.
      destruct (transfer_check _ _ _ _); congruence.
    + by apply (step_failed _ _ _ e).
    + by apply (storage_at_stop_transferBatch _ _ _ _ e).
Qed.

(** ** The effect of a transfer *)

Lemma transfer_check_None sender id o s :
  transfer_check sender id o s = None ↔
  batchExists id s = true
  ∧ last (ownerHistory (batches id s)) = Some sender
  ∧ o ≠ address_zero ∧ o ≠ sender.
Proof.
  unfold transfer_check.
  destruct (owner_check sender id s) as [e|] eqn:Hoc.
  - split; [discriminate|]. intros (Hex & Hlast & _).
    assert (owner_check sender id s = None) by by apply owner_check_None.
    congruence.
  - apply owner_check_None in Hoc as [Hex Hlast].
    destruct (N.eqb_spec o address_zero), (N.eqb_spec o sender);
      split; try done; intros (_ & _ & ? & ?); done.
Qed.

(** C4. A [transferBatch(id, X)] goes through exactly when the batch exists,
    the caller is its current owner and [X] is neither the zero address
    nor the caller.  After it went through, [getCurrentOwner(id)] is [X],
    the history is the old one with [X] appended, so [getOwnerCount(id)] is
    one more than before, [lastTransferAt] is the block time, and
    [wasOwner(id, X)] is [true] now and after every further history of
    transactions. *)
Theorem transferBatch_effect (s : State) (env : Env) (id : uint256)
    (X : address) :
  let s' := step env (TransferBatch id X) s in
  (batchExists id s = true →
   view (getCurrentOwner id) s = inr (msg_sender env) →
   X ≠ address_zero → X ≠ msg_sender env →
   outcome env (TransferBatch id X) s = inr Done)
  ∧ (outcome env (TransferBatch id X) s = inr Done →
       view (getCurrentOwner id) s' = inr X
       ∧ (∃ h, view (getOwnerHistory id) s = inr h
               ∧ view (getOwnerHistory id) s' = inr (h ++ [X]))
       ∧ (∃ n, view (getOwnerCount id) s = inr n
               ∧ view (getOwnerCount id) s' = inr (n + 1))
       ∧ lastTransferAt (batches id s') = block_timestamp env
       ∧ view (wasOwner id X) s' = inr true
       ∧ ∀ txs, view (wasOwner id X) (snd (run txs s')) = inr true).
Proof.
  intros s'. subst s'. rewrite outcome_transferBatch, step_transferBatch.
  split.
  - intros Hex Hown Hz Hne. apply view_getCurrentOwner_inv in Hown as [_ Hlast].
    assert (transfer_check (msg_sender env) id X s = None) as ->
      by by apply transfer_check_None.
    done.
  - destruct (transfer_check (msg_sender env) id X s) eqn:Hchk; [done|].
    intros _. apply transfer_check_None in Hchk as (Hex & Hlast & Hz & Hne).
    assert (Hex' : batchExists id (transferred_state env id X s) = true) by done.
    assert (Hh : ownerHistory (batches id (transferred_state env id X s))
                 = ownerHistory (batches id s) ++ [X]).
    { rewrite batches_transferred. by rewrite decide_True. }
    assert (Hw : view (wasOwner id X) (transferred_state env id X s) = inr true).
    { rewrite view_wasOwner by done. f_equal. rewrite Hh.
      apply wasOwner_loop_elem, elem_of_app. right. by apply list_elem_of_singleton. }
    repeat split.
    + apply view_getCurrentOwner; [done|]. by rewrite Hh, last_snoc.
    + exists (ownerHistory (batches id s)).
      rewrite !view_getOwnerHistory by done. by rewrite Hh.
    + exists (array_length (ownerHistory (batches id s))).
      rewrite !view_getOwnerCount by done. split; [done|]. f_equal.
      rewrite Hh. unfold array_length. rewrite length_app. simpl. lia.
    + rewrite batches_transferred. by rewrite decide_True.
    + done.
    + intros txs. by apply run_wasOwner.
Qed.

(** ** Accessors on batches that were never created *)

Lemma elem_of_ids_from k n id :
  id ∈ ids_from k n ↔ k ≤ id < k + N.of_nat n.
Proof.
  unfold ids_from. rewrite list_elem_of_fmap. split.
  - intros (i & -> & Hi). apply elem_of_seq in Hi. lia.
  - intros Hid. exists (N.to_nat (id - k)). split; [lia|].
    apply elem_of_seq. lia.
Qed.

Lemma history_state_reachable txs : reachable (history_state txs).
Proof. apply run_reachable, reach_deploy. Qed.

(** In the storage a history ends in, the existing batches are exactly the
    ones that history created. *)
Lemma history_batchExists txs id :
  batchExists id (history_state txs) = true ↔ id ∈ history_ids txs.
Proof.
  pose proof (reachable_wf _ (history_state_reachable txs)) as Hwf.
  rewrite (wf_exists _ Hwf). unfold history_ids, history_state.
  destruct (run_counter txs constructor) as [Hids Hnext]. simpl in *.
  rewrite Hids, Hnext, elem_of_ids_from. lia.
Qed.

(** C5. On an id that no [createBatch] of the contract's history has handed
    out, [getCurrentOwner], [getOwnerHistory], [getBatchInfo],
    [getOwnerCount] and [wasOwner] all fail with [NotFound], while
    [batchExists] answers [false]; [getTotalBatches] returns a number
    after every history. *)
Theorem accessors_not_found :
  (∀ txs id, id ∉ history_ids txs →
     let s := history_state txs in
     fails_with (view (getCurrentOwner id) s) NotFound MSG_NOT_EXIST
     ∧ fails_with (view (getOwnerHistory id) s) NotFound MSG_NOT_EXIST
     ∧ fails_with (view (getBatchInfo id) s) NotFound MSG_NOT_EXIST
     ∧ fails_with (view (getOwnerCount id) s) NotFound MSG_NOT_EXIST
     ∧ (∀ a, fails_with (view (wasOwner id a) s) NotFound MSG_NOT_EXIST)
     ∧ batchExists id s = false)
  ∧ (∀ txs, view getTotalBatches (history_state txs)
            = inr (N.of_nat (length (history_ids txs)))).
Proof.
  split.
  - intros txs id Hid s.
    assert (Hex : batchExists id s = false).
    { destruct (batchExists id s) eqn:E; [|done].
      by apply history_batchExists in E. }
    repeat split; try done; try intros a;
      by apply fails_with_not_exist, view_not_found.
  - apply history_getTotalBatches.
Qed.

(** ** The frame of [updateMetadata] *)

(** C6. When the batch exists and the caller is its current owner,
    [updateMetadata] succeeds and replaces the stored [ipfsHash] by the new
    reference; the batch's [batchId], [ownerHistory], [exists] flag,
    [createdAt] and [lastTransferAt], every other batch, the existence
    mapping and the counter are what they were. *)
Theorem updateMetadata_frame (s : State) (env : Env) (id : uint256)
    (h : string) :
  batchExists id s = true →
  view (getCurrentOwner id) s = inr (msg_sender env) →
  let s' := step env (UpdateMetadata id h) s in
  outcome env (UpdateMetadata id h) s = inr Done
  ∧ ipfsHash (batches id s') = h
  ∧ batchId (batches id s') = batchId (batches id s)
  ∧ ownerHistory (batches id s') = ownerHistory (batches id s)
  ∧ exists_ (batches id s') = exists_ (batches id s)
  ∧ createdAt (batches id s') = createdAt (batches id s)
  ∧ lastTransferAt (batches id s') = lastTransferAt (batches id s)
  ∧ (∀ id', id' ≠ id → batches id' s' = batches id' s)
  ∧ (∀ id', batchExists id' s' = batchExists id' s)
  ∧ nextBatchId s' = nextBatchId s.
Proof.
  intros Hex Hown s'. subst s'.
  apply view_getCurrentOwner_inv in Hown as [_ Hlast].
  rewrite outcome_updateMetadata, step_updateMetadata.
  assert (owner_check (msg_sender env) id s = None) as ->
    by by apply owner_check_None.
  rewrite batches_updated, decide_True by done. simpl.
  repeat split.
  intros id' Hne. rewrite batches_updated. by rewrite decide_False.
Qed.

(** ** The properties at work on the small history *)

Lemma ownership_invariant_witness :
  reachable one_batch
  ∧ owner_inv one_batch
  ∧ ∀ env c,
      owner_inv (step env c one_batch)
      ∧ ∀ id, batchExists id one_batch = true →
              batchExists id (step env c one_batch) = true.
Proof.
  assert (Hreach : reachable one_batch) by apply reach_step, reach_deploy.
  split; [exact Hreach|]. exact (ownership_invariant one_batch Hreach).
Defined.

Lemma createBatch_sequential_witness :
  outcome (sent_by alice) (CreateBatch "bafy-wheat") constructor
    = inr (Created 1)
  ∧ history_ids demo_history
    = N.of_nat <$> seq 1 (length (history_ids demo_history)).
Proof.
  destruct createBatch_sequential as [Hone Hall]. split.
  - apply (Hone constructor (sent_by alice) "bafy-wheat" reach_deploy).
    vm_compute. reflexivity.
  - apply (Hall demo_history).
Defined.

Lemma transferBatch_guards_witness :
  fails_with (outcome (sent_by bob) (TransferBatch 1 address_zero) one_batch)
    Unauthorized MSG_NOT_OWNER.
Proof.
  assert (Hreach : reachable one_batch) by apply reach_step, reach_deploy.
  destruct (transferBatch_guards one_batch (sent_by bob) 1 address_zero Hreach)
    as (_ & Hexists & _).
  destruct (Hexists eq_refl) as (o & Ho & Hother & _).
  apply Hother. vm_compute in Ho. injection Ho as <-. discriminate.
Defined.

Lemma transferBatch_effect_witness :
  view (getCurrentOwner 1)
    (step (sent_by alice) (TransferBatch 1 bob) one_batch) = inr bob.
Proof.
  destruct (transferBatch_effect one_batch (sent_by alice) 1 bob)
    as [Hgoes Hthen].
  apply Hthen. apply Hgoes.
  - vm_compute. reflexivity.
  - vm_compute. reflexivity.
  - discriminate.
  - discriminate.
Defined.

Lemma accessors_not_found_witness :
  fails_with (view (getCurrentOwner 7) (history_state demo_history))
    NotFound MSG_NOT_EXIST
  ∧ batchExists 7 (history_state demo_history) = false.
Proof.
  destruct accessors_not_found as [Hmissing _].
  assert (Hid : 7 ∉ history_ids demo_history).
  { vm_compute. intros Hin. inversion Hin as [|? ? ? Hin']; subst.
    inversion Hin' as [|? ? ? Hin'']; subst. inversion Hin''. }
  destruct (Hmissing demo_history 7 Hid) as (Howner & _ & _ & _ & _ & Hex).
  split; [exact Howner | exact Hex].
Defined.

Lemma updateMetadata_frame_witness :
  ipfsHash (batches 1 (step (sent_by alice) (UpdateMetadata 1 "bafy-rye")
                         one_batch)) = "bafy-rye"
  ∧ ownerHistory (batches 1 (step (sent_by alice) (UpdateMetadata 1 "bafy-rye")
                               one_batch))
    = ownerHistory (batches 1 one_batch).
Proof.
  assert (Hex : batchExists 1 one_batch = true) by (vm_compute; reflexivity).
  assert (Hown : view (getCurrentOwner 1) one_batch
                 = inr (msg_sender (sent_by alice)))
    by (vm_compute; reflexivity).
  destruct (updateMetadata_frame one_batch (sent_by alice) 1 "bafy-rye"
              Hex Hown) as (_ & Hhash & _ & Hhist & _).
  split; [exact Hhash | exact Hhist].
Defined.

End LedgerFacts.



(* ===================================================================== *)
(** * Part V: properties of the client access layer                       *)
(* ===================================================================== *)

Module ClientFacts.

Import Client ClientSpec ClientMoreSpec.
Local Open Scope N_scope.

Section Facts.

Context `{Collaborators}.

Ltac run_async :=
  repeat progress
    (unfold mbind, Async_bind, mret, Async_ret, try_catch, throw, request,
       settle in *; simpl in *).

Lemma after_nil w : after w [] = w.
Proof. destruct w. unfold after; simpl. by rewrite app_nil_r. Qed.

Lemma after_after w es1 es2 : after (after w es1) es2 = after w (es1 ++ es2).
Proof. unfold after; simpl. by rewrite app_assoc. Qed.

Lemma settle_run {A} (r : JsError + A) w : settle r w = (r, w).
Proof. by destruct r. Qed.

Lemma request_run {A} e (r : JsError + A) w :
  request e r w = (r, after w [e]).
Proof. unfold request. by rewrite settle_run. Qed.

(** ** [getBatchInfo] *)

Lemma getBatchInfo_run id w :
  getBatchInfo id w =
    match provider_getNetwork with
    | inl e => (inl e, after w [GetNetwork])
    | inr chainId =>
        match getBatchTrackerContract chainId with
        | inl e => (inl e, after w [GetNetwork])
        | inr contract =>
            (match contract_getBatchInfo contract id with
             | inl e => inl e
             | inr result => inr (info_of result)
             end,
             after w [GetNetwork; CallGetBatchInfo contract id])
        end
    end.
Proof.
  unfold getBatchInfo.
  unfold mbind at 1, Async_bind at 1. rewrite request_run.
  destruct provider_getNetwork as [e|chainId]; [done|].
  unfold mbind at 1, Async_bind at 1. rewrite settle_run.
  destruct (getBatchTrackerContract chainId) as [e|contract]; [done|].
  unfold mbind at 1, Async_bind at 1. rewrite request_run, after_after.
  simpl.
  destruct (contract_getBatchInfo contract id) as [e|[[[[[r0 r1] r2] r3] r4] r5]];
    done.
Qed.

Lemma getBatchInfo_ipfsHash id w info w1 h :
  getBatchInfo id w = (inr info, w1) → ipfsHash info = Some h → h ≠ "".
Proof.
  rewrite getBatchInfo_run.
  destruct provider_getNetwork as [e|chainId]; [done|].
  destruct (getBatchTrackerContract chainId) as [e|contract]; [done|].
  destruct (contract_getBatchInfo contract id)
    as [e|[[[[[r0 r1] r2] r3] r4] r5]]; [done|].
  intros [= <- <-]. simpl.
  destruct (String.eqb_spec r5 ""); [done|]. by intros [= <-].
Qed.

(** ** [getContent] and [getBatchMetadata] *)

Lemma getContent_trace hash w :
  snd (getContent hash w) = after w [Fetch (getImageUrl hash)].
Proof.
  unfold getContent, try_catch.
  unfold mbind at 1, Async_bind at 1. rewrite request_run.
  destruct (gateway_fetch (getImageUrl hash)) as [e|response]; [done|].
  destruct (resp_ok response); simpl; [|done].
  destruct (truthy_string (resp_content_type response)
            && includes "application/json"
                 (default "" (resp_content_type response))).
  - rewrite settle_run. by destruct (resp_json response).
  - unfold mbind, Async_bind. rewrite settle_run.
    by destruct (resp_text response).
Qed.

Lemma getBatchMetadata_run hash w :
  getBatchMetadata hash w =
    (inr (match fst (getContent hash w) with
          | inr content =>
              if looks_like_metadata content then content else JNull
          | inl _ => JNull
          end),
     after w [Fetch (getImageUrl hash)]).
Proof.
  unfold getBatchMetadata, try_catch.
  unfold mbind at 1, Async_bind at 1.
  pose proof (getContent_trace hash w) as Htr.
  destruct (getContent hash w) as [[e|content] w1]; simpl in *; subst w1;
    [done|].
  by destruct (looks_like_metadata content).
Qed.

(** C7. [getBatchInfoWithMetadata] reads the on-chain record first; if that
    read fails, the failure is the result and the gateway is never asked.
    Otherwise the call succeeds whatever the gateway does: the on-chain
    members of the record are returned as read; with no metadata
    reference nothing is fetched and [metadata] stays unset; with a
    (necessarily non-empty) reference the document is fetched once, and
    [metadata] is that document when the fetch succeeded and it has a
    truthy [name] and [description], and [null], that is no metadata, when
    the fetch or the parse failed or the document is not of that form. *)
Theorem metadata_degrades_gracefully (id : N) (w : World) :
  (∀ e w1, getBatchInfo id w = (inl e, w1) →
     getBatchInfoWithMetadata id w = (inl e, w1))
  ∧ (∀ info w1, getBatchInfo id w = (inr info, w1) →
       ∃ info' w',
         getBatchInfoWithMetadata id w = (inr info', w')
         ∧ onchain_record info' = onchain_record info
         ∧ (ipfsHash info = None → info' = info ∧ w' = w1)
         ∧ (∀ h, ipfsHash info = Some h →
              h ≠ ""
              ∧ w' = after w1 [Fetch (getImageUrl h)]
              ∧ (∀ e w2, getContent h w1 = (inl e, w2) →
                   metadata info' = Some JNull
                   ∧ nullish (metadata info') = true)
              ∧ (∀ v w2, getContent h w1 = (inr v, w2) →
                   metadata info' =
                     Some (if looks_like_metadata v then v else JNull)))).
Proof.
  split.
  - intros e w1 Hinfo. unfold getBatchInfoWithMetadata.
    unfold mbind, Async_bind. by rewrite Hinfo.
  - intros info w1 Hinfo. unfold getBatchInfoWithMetadata.
    unfold mbind at 1, Async_bind at 1. rewrite Hinfo.
    destruct (ipfsHash info) as [h|] eqn:Hh; simpl.
    + assert (Hne : h ≠ "") by eauto using getBatchInfo_ipfsHash.
      destruct (String.eqb_spec h ""); [done|]. simpl.
      unfold try_catch, mbind, Async_bind. rewrite getBatchMetadata_run.
      eexists _, _. split; [reflexivity|].
      split; [reflexivity|].
      split; [done|]. intros h' [= <-]. split; [done|]. split; [done|].
      split.
      * intros e w2 Hc. by rewrite Hc.
      * intros v w2 Hc. by rewrite Hc.
    + exists info, w1. by repeat split.
Qed.

(** ** [getUserOwnedBatches] *)

Lemma owner_queries_app es1 es2 :
  owner_queries (es1 ++ es2) = owner_queries es1 ++ owner_queries es2.
Proof.
  induction es1 as [|e es1 IH]; simpl; [done|].
  destruct e; simpl; by rewrite ?IH.
Qed.

Section Connected.

(** The provider answers, and names a network with a deployment. *)
Variables (chainId : N) (contract : string).
Hypothesis Hnetwork : provider_getNetwork = inr chainId.
Hypothesis Hcontract : getBatchTrackerContract chainId = inr contract.

Lemma getBatchInfo_connected id w :
  getBatchInfo id w =
    (match contract_getBatchInfo contract id with
     | inl e => inl e
     | inr result => inr (info_of result)
     end,
     after w [GetNetwork; CallGetBatchInfo contract id]).
Proof. by rewrite getBatchInfo_run, Hnetwork, Hcontract. Qed.

Lemma getTotalBatches_connected w :
  getTotalBatches w =
    (contract_getTotalBatches contract,
     after w [GetNetwork; CallGetTotalBatches contract]).
Proof.
  unfold getTotalBatches.
  unfold mbind at 1, Async_bind at 1. rewrite request_run, Hnetwork.
  unfold mbind at 1, Async_bind at 1. rewrite settle_run, Hcontract.
  by rewrite request_run, after_after.
Qed.

Lemma owned_body_run userAddress i acc w :
  owned_body contract userAddress i acc w =
    (inr (acc ++ fst (scan_one contract userAddress i)),
     after w (snd (scan_one contract userAddress i))).
Proof.
  unfold owned_body, scan_one, try_catch.
  unfold mbind at 1, Async_bind at 1. rewrite request_run.
  destruct (contract_getCurrentOwner contract i) as [e|o]; simpl;
    [by rewrite app_nil_r|].
  destruct (String.eqb (toLowerCase o) (toLowerCase userAddress)); simpl;
    [|by rewrite app_nil_r].
  unfold mbind, Async_bind.
  rewrite getBatchInfo_connected, after_after. simpl.
  destruct (contract_getBatchInfo contract i) as [e|result]; simpl;
    [by rewrite app_nil_r | done].
Qed.

Lemma owned_loop_run userAddress turns i acc w :
  owned_loop contract userAddress turns i acc w =
    (inr (acc ++ fst (scan contract userAddress turns i)),
     after w (snd (scan contract userAddress turns i))).
Proof.
  revert i acc w. induction turns as [|turns IH]; intros i acc w; simpl.
  - by rewrite app_nil_r, after_nil.
  - unfold mbind, Async_bind. rewrite owned_body_run, IH.
    destruct (scan_one contract userAddress i) as [found sent].
    destruct (scan contract userAddress turns (i + 1)) as [found' sent'].
    simpl. by rewrite after_after, app_assoc.
Qed.

Lemma getUserOwnedBatches_run userAddress w :
  getUserOwnedBatches userAddress w =
    match contract_getTotalBatches contract with
    | inl e =>
        (inl e,
         after w [GetNetwork; GetNetwork; CallGetTotalBatches contract])
    | inr total =>
        (inr (fst (scan contract userAddress (N.to_nat total) 1)),
         after w ([GetNetwork; GetNetwork; CallGetTotalBatches contract]
                  ++ snd (scan contract userAddress (N.to_nat total) 1)))
    end.
Proof.
  unfold getUserOwnedBatches.
  unfold mbind at 1, Async_bind at 1. rewrite request_run, Hnetwork.
  unfold mbind at 1, Async_bind at 1. rewrite settle_run, Hcontract.
  unfold mbind at 1, Async_bind at 1.
  rewrite getTotalBatches_connected, after_after. simpl.
  destruct (contract_getTotalBatches contract) as [e|total]; [done|].
  by rewrite owned_loop_run, after_after.
Qed.

(** When every query of the scan is answered, the scan is a filter. *)
Lemma scan_answered userAddress (owner : N → string)
    (record : N → N * string * N * N * N * string) turns i :
  (∀ j, i ≤ j < i + N.of_nat turns →
     contract_getCurrentOwner contract j = inr (owner j)) →
  (∀ j, i ≤ j < i + N.of_nat turns →
     toLowerCase (owner j) = toLowerCase userAddress →
     contract_getBatchInfo contract j = inr (record j)) →
  fst (scan contract userAddress turns i) =
    (info_of ∘ record) <$>
      filter (λ j, toLowerCase (owner j) = toLowerCase userAddress)
        (LedgerSpec.ids_from i turns)
  ∧ owner_queries (snd (scan contract userAddress turns i)) =
      LedgerSpec.ids_from i turns.
Proof.
  revert i. induction turns as [|turns IH]; intros i Hown Hrec; [done|].
  rewrite LedgerFacts.ids_from_S. simpl.
  destruct (IH (i + 1)) as [IH1 IH2].
  { intros j Hj. apply Hown. lia. }
  { intros j Hj. apply Hrec. lia. }
  destruct (scan contract userAddress turns (i + 1)) as [found' sent'].
  simpl in *. unfold scan_one. rewrite Hown by lia.
  rewrite filter_cons.
  destruct (String.eqb_spec (toLowerCase (owner i))
              (toLowerCase userAddress)) as [Heq|Hne].
  - rewrite Hrec by (done || lia). rewrite decide_True by done. simpl.
    by rewrite IH1, IH2.
  - rewrite decide_False by done. simpl. by rewrite IH1, IH2.
Qed.

End Connected.

Lemma scan_one_pick contract userAddress i :
  fst (scan_one contract userAddress i)
  = option_list (pick contract userAddress i)
  ∧ owner_queries (snd (scan_one contract userAddress i)) = [i].
Proof.
  unfold scan_one, pick.
  destruct (contract_getCurrentOwner contract i) as [e|o]; [done|].
  destruct (String.eqb (toLowerCase o) (toLowerCase userAddress)); [|done].
  by destruct (contract_getBatchInfo contract i).
Qed.

Lemma scan_is_omap contract userAddress turns i :
  fst (scan contract userAddress turns i)
  = omap (pick contract userAddress) (LedgerSpec.ids_from i turns)
  ∧ owner_queries (snd (scan contract userAddress turns i))
    = LedgerSpec.ids_from i turns.
Proof.
  revert i. induction turns as [|turns IH]; intros i; [done|].
  rewrite LedgerFacts.ids_from_S. cbn [scan].
  destruct (scan_one_pick contract userAddress i) as [Hfound Hsent].
  destruct (IH (i + 1)) as [IHfound IHsent].
  destruct (scan_one contract userAddress i) as [found sent].
  destruct (scan contract userAddress turns (i + 1)) as [found' sent'].
  simpl in *. rewrite owner_queries_app, Hsent, IHsent, Hfound, IHfound.
  split; [|done].
  by destruct (pick contract userAddress i).
Qed.

Lemma pick_Some contract userAddress i record :
  pick contract userAddress i = Some record ↔
  ∃ owner result,
    contract_getCurrentOwner contract i = inr owner
    ∧ toLowerCase owner = toLowerCase userAddress
    ∧ contract_getBatchInfo contract i = inr result
    ∧ record = info_of result.
Proof.
  unfold pick. split.
  - destruct (contract_getCurrentOwner contract i) as [e|owner]; [done|].
    destruct (String.eqb_spec (toLowerCase owner) (toLowerCase userAddress))
      as [Heq|Hne]; [|done].
    destruct (contract_getBatchInfo contract i) as [e|result]; [done|].
    intros [= <-]. by exists owner, result.
  - intros (owner & result & -> & Heq & -> & ->).
    by destruct (String.eqb_spec (toLowerCase owner)
                   (toLowerCase userAddress)).
Qed.

(** C9, as amended. With a provider that answers for the network and the
    total, [getUserOwnedBatches] asks for the total once and then for the
    current owner of every id [1, 2, ..., total], in this order; it
    returns, in ascending id order, the records of the batches for which
    the owner query is answered with [userAddress] up to the case of
    letters and the record query is answered too.  A batch for which one
    of the two queries fails is skipped.  When every owner query and the
    record query of every owned batch are answered, these are exactly the
    records of the batches [userAddress] owns. *)
Theorem getUserOwnedBatches_filters (userAddress : string) (w : World)
    (chainId : N) (contract : string) (total : N) :
  provider_getNetwork = inr chainId →
  getBatchTrackerContract chainId = inr contract →
  contract_getTotalBatches contract = inr total →
  let ids := N.of_nat <$> seq 1 (N.to_nat total) in
  ∃ records sent,
    getUserOwnedBatches userAddress w =
      (inr records,
       after w ([GetNetwork; GetNetwork; CallGetTotalBatches contract]
                ++ sent))
    ∧ owner_queries sent = ids
    ∧ records = omap (pick contract userAddress) ids
    ∧ (∀ record, record ∈ records ↔
         ∃ i owner result,
           i ∈ ids
           ∧ contract_getCurrentOwner contract i = inr owner
           ∧ toLowerCase owner = toLowerCase userAddress
           ∧ contract_getBatchInfo contract i = inr result
           ∧ record = info_of result)
    ∧ (∀ (owner : N → string)
         (result : N → N * string * N * N * N * string),
         (∀ i, 1 ≤ i ≤ total →
            contract_getCurrentOwner contract i = inr (owner i)) →
         (∀ i, 1 ≤ i ≤ total →
            toLowerCase (owner i) = toLowerCase userAddress →
            contract_getBatchInfo contract i = inr (result i)) →
         records =
           (info_of ∘ result) <$>
             filter (λ i, toLowerCase (owner i) = toLowerCase userAddress)
               ids).
Proof.
  intros Hnet Hcon Htot ids. subst ids.
  rewrite (getUserOwnedBatches_run chainId contract Hnet Hcon), Htot.
  destruct (scan_is_omap contract userAddress (N.to_nat total) 1)
    as [Hfound Hsent].
  rewrite LedgerFacts.ids_from_1 in Hfound, Hsent.
  exists (fst (scan contract userAddress (N.to_nat total) 1)),
    (snd (scan contract userAddress (N.to_nat total) 1)).
  split; [done|]. split; [done|]. split; [done|]. split.
  - intros record. rewrite Hfound, list_elem_of_omap. split.
    + intros (i & Hin & Hpick).
      apply pick_Some in Hpick as (owner & result & ? & ? & ? & ?).
      by exists i, owner, result.
    + intros (i & owner & result & Hin & ? & ? & ? & ?).
      exists i. split; [done|]. apply pick_Some. by exists owner, result.
  - intros owner result Hown Hrec.
    destruct (scan_answered contract userAddress owner result
                (N.to_nat total) 1) as [Hfilter _].
    { intros j Hj. apply Hown. lia. }
    { intros j Hj. apply Hrec. lia. }
    by rewrite LedgerFacts.ids_from_1 in Hfilter.
Qed.

(** ** The uploads *)

Lemma uploadFile_run file w :
  ∃ r, uploadFile file w = (r, after w [PinFile file])
       ∧ settles_as r (pinned (pinFileToIPFS file)).
Proof.
  unfold uploadFile, try_catch, pinned.
  unfold mbind at 1, Async_bind at 1. rewrite request_run.
  destruct (pinFileToIPFS file) as [e|response]; simpl; [by eauto|].
  destruct (resp_ok response); simpl.
  - rewrite settle_run. destruct (resp_json response); simpl; by eauto.
  - unfold mbind, Async_bind. rewrite settle_run.
    destruct (resp_text response); simpl; by eauto.
Qed.

Lemma uploadJSON_run doc w :
  ∃ r, uploadJSON doc w = (r, after w [PinJSON doc])
       ∧ settles_as r (pinned (pinJSONToIPFS doc)).
Proof.
  unfold uploadJSON, try_catch, pinned.
  unfold mbind at 1, Async_bind at 1. rewrite request_run.
  destruct (pinJSONToIPFS doc) as [e|response]; simpl; [by eauto|].
  destruct (resp_ok response); simpl.
  - rewrite settle_run. destruct (resp_json response); simpl; by eauto.
  - unfold mbind, Async_bind. rewrite settle_run.
    destruct (resp_text response); simpl; by eauto.
Qed.

Lemma uploadBatchWithAssets_run name description image properties
    attributes w :
  ∃ r, uploadBatchWithAssets name description image properties attributes w
       = (r, after w (offchain_effects name description image properties
                        attributes))
       ∧ settles_as r (offchain_result name description image properties
                         attributes).
Proof.
  unfold uploadBatchWithAssets, try_catch, offchain_effects, offchain_result.
  unfold mbind at 1, Async_bind at 1.
  destruct image as [file|]; simpl.
  - unfold mbind at 1, Async_bind at 1.
    destruct (uploadFile_run file w) as (r & -> & Hr).
    destruct (pinned (pinFileToIPFS file)) as [result|]; simpl in *.
    + subst r. simpl.
      unfold mbind at 1, Async_bind at 1.
      destruct (uploadJSON_run
                  (createBatchMetadata name description
                     (Some (IpfsHash result)) properties attributes)
                  (after w [PinFile file])) as (r & -> & Hr).
      rewrite after_after. simpl.
      destruct (pinned (pinJSONToIPFS _)) as [result'|]; simpl in *.
      * subst r. by eauto.
      * destruct Hr as [e ->]. by eauto.
    + destruct Hr as [e ->]. by eauto.
  - unfold mbind at 1, Async_bind at 1.
    destruct (uploadJSON_run
                (createBatchMetadata name description None properties
                   attributes) w) as (r & -> & Hr).
    destruct (pinned (pinJSONToIPFS _)) as [result'|]; simpl in *.
    + subst r. by eauto.
    + destruct Hr as [e ->]. by eauto.
Qed.

(** ** The side index *)

Lemma getAllBatchMetadata_run w :
  getAllBatchMetadata w =
    (inr (if localStorage_available then index_of (stored w) else JObj []),
     w).
Proof.
  unfold getAllBatchMetadata, try_catch, getItem.
  unfold mbind, Async_bind.
  destruct localStorage_available; [|done].
  by destruct (stored w).
Qed.

Lemma setBatchMetadata_run id hash w :
  setBatchMetadata id hash w = (inr tt, recorded w id hash).
Proof.
  unfold setBatchMetadata, try_catch, recorded.
  unfold mbind at 1, Async_bind at 1. rewrite getAllBatchMetadata_run.
  unfold mbind, Async_bind, setItem.
  destruct localStorage_available; simpl.
  - rewrite settle_run.
    by destruct (assign (index_of (stored w)) id hash).
  - done.
Qed.

Lemma recorded_trace w id hash : trace (recorded w id hash) = trace w.
Proof.
  unfold recorded. destruct localStorage_available; [|done].
  by destruct (assign (index_of (stored w)) id hash).
Qed.







(** ** The receipt *)


(** ** [createBatchWithMetadata] *)

Lemma createBatchWithMetadata_run formData w :
  let sent := GetNetwork :: creation_offchain formData
              ++ creation_onchain formData in
  ∃ r, createBatchWithMetadata formData w =
         (r, match creation_result formData with
             | Some (id, hash) => recorded (after w sent) id hash
             | None => after w sent
             end)
       ∧ settles_as r (fst <$> creation_result formData).
Proof.
  unfold createBatchWithMetadata, try_catch, creation_offchain,
    creation_onchain, creation_result, uploadBatchWithAssets_6.
  unfold mbind at 1, Async_bind at 1. rewrite request_run.
  destruct provider_getNetwork as [e|chainId]; simpl; [by eauto|].
  unfold mbind at 1, Async_bind at 1.
  destruct (uploadBatchWithAssets_run (form_name formData)
              (form_description formData) (form_image formData)
              (Some (form_properties formData)) (form_attributes formData)
              (after w [GetNetwork])) as (r & Hrun & Hr).
  unfold form_properties in *. rewrite Hrun. clear Hrun.
  rewrite after_after. unfold form_uploaded, form_offchain, form_properties.
  destruct (offchain_result _ _ _ _ _) as [uploaded|]; simpl in *;
    [subst r | destruct Hr as [e ->]; rewrite app_nil_r; by eauto].
  unfold onchain_effects, onchain_result.
  unfold mbind at 1, Async_bind at 1. rewrite settle_run.
  destruct (getBatchTrackerContract chainId) as [e|contract]; simpl;
    [rewrite app_nil_r; by eauto|].
  unfold mbind at 1, Async_bind at 1. rewrite request_run, after_after.
  destruct (contract_createBatch contract (metadataHash uploaded))
    as [e|tx]; simpl; [by eauto|].
  unfold mbind at 1, Async_bind at 1. rewrite request_run, after_after.
  simpl. rewrite <- !app_assoc. simpl.
  destruct (tx_wait tx) as [e|receipt]; simpl; [by eauto|].
  destruct (find_BatchCreated (default [] receipt)) as [[|event_name id]|];
    simpl; [by eauto| |by eauto].
  unfold mbind, Async_bind. rewrite setBatchMetadata_run. simpl.
  by eauto.
Qed.


Lemma offchain_effects_offchain name description image properties attributes :
  Forall (λ e, is_offchain e = true)
    (offchain_effects name description image properties attributes).
Proof.
  unfold offchain_effects. destruct image as [file|].
  - destruct (pinned (pinFileToIPFS file)); repeat constructor.
  - repeat constructor.
Qed.

Lemma onchain_effects_onchain chainId hash :
  Forall (λ e, is_onchain e = true) (onchain_effects chainId hash).
Proof.
  unfold onchain_effects.
  destruct (getBatchTrackerContract chainId) as [e|contract]; [constructor|].
  destruct (contract_createBatch contract hash); repeat constructor.
Qed.

Lemma creation_trace formData w :
  trace (snd (createBatchWithMetadata formData w)) =
    trace w ++ GetNetwork :: creation_offchain formData
               ++ creation_onchain formData.
Proof.
  destruct (createBatchWithMetadata_run formData w) as (r & -> & _). simpl.
  destruct (creation_result formData) as [[id hash]|]; [|done].
  by rewrite recorded_trace.
Qed.

(** Every document a creation pins is one [createBatchMetadata] built. *)
Lemma creation_offchain_doc formData doc :
  PinJSON doc ∈ creation_offchain formData →
  ∃ imageHash,
    doc = createBatchMetadata (form_name formData)
            (form_description formData) imageHash
            (Some (form_properties formData)) (form_attributes formData)
    ∧ match form_image formData with
      | None => imageHash = None
      | Some file =>
          ∃ result, pinned (pinFileToIPFS file) = Some result
                    ∧ imageHash = Some (IpfsHash result)
                    ∧ creation_offchain formData = [PinFile file; PinJSON doc]
      end.
Proof.
  unfold creation_offchain, form_offchain, offchain_effects.
  destruct provider_getNetwork as [e|chainId]; [by intros ?%elem_of_nil|].
  destruct (form_image formData) as [file|].
  - destruct (pinned (pinFileToIPFS file)) as [result|].
    + intros Hin. apply elem_of_cons in Hin as [[=]|Hin].
      apply list_elem_of_singleton in Hin as [= ->].
      eexists. split; [reflexivity|]. by exists result.
    + intros Hin. apply elem_of_cons in Hin as [[=]|Hin].
      by apply elem_of_nil in Hin.
  - intros Hin. apply list_elem_of_singleton in Hin as [= ->].
    by exists None.
Qed.

Lemma form_uploaded_Some formData uploaded :
  form_uploaded formData = Some uploaded →
  PinJSON (uploaded_metadata uploaded) ∈ form_offchain formData
  ∧ ∃ result,
      pinned (pinJSONToIPFS (uploaded_metadata uploaded)) = Some result
      ∧ metadataHash uploaded = IpfsHash result.
Proof.
  unfold form_uploaded, form_offchain, offchain_result, offchain_effects.
  destruct (form_image formData) as [file|]; simpl.
  - destruct (pinned (pinFileToIPFS file)) as [result|]; simpl; [|done].
    destruct (pinned (pinJSONToIPFS _)) as [result'|] eqn:Hpin; simpl;
      [|done].
    intros [= <-]. simpl. split; [|by eauto].
    apply elem_of_cons. right. by apply list_elem_of_singleton.
  - destruct (pinned (pinJSONToIPFS _)) as [result'|] eqn:Hpin; simpl;
      [|done].
    intros [= <-]. simpl. split; [|by eauto].
    by apply list_elem_of_singleton.
Qed.




Lemma creation_new_effects formData w :
  new_effects w (snd (createBatchWithMetadata formData w)) =
    GetNetwork :: creation_offchain formData ++ creation_onchain formData.
Proof.
  unfold new_effects. rewrite creation_trace. by rewrite drop_app_length.
Qed.

Lemma creation_onchain_not_pin formData doc :
  PinJSON doc ∉ creation_onchain formData.
Proof.
  intros Hin. unfold creation_onchain in Hin.
  destruct provider_getNetwork as [e|chainId]; [by apply elem_of_nil in Hin|].
  destruct (form_uploaded formData) as [uploaded|];
    [|by apply elem_of_nil in Hin].
  pose proof (onchain_effects_onchain chainId (metadataHash uploaded)) as Hall.
  rewrite Forall_forall in Hall. by apply Hall in Hin.
Qed.

(** C10. No metadata document that [createBatchWithMetadata] uploads has
    an [external_url] member, whatever the form holds: the value is the
    sixth argument of a call whose callee has five parameters, and
    [createBatchMetadata] never sets the member. *)
Theorem metadata_without_external_url :
  (∀ name description imageHash properties attributes,
     external_url (createBatchMetadata name description imageHash properties
                     attributes) = None)
  ∧ (∀ name description image properties attributes sixth,
       uploadBatchWithAssets_6 name description image properties attributes
         sixth
       = uploadBatchWithAssets name description image properties attributes)
  ∧ (∀ formData w doc,
       PinJSON doc ∈ new_effects w (snd (createBatchWithMetadata formData w)) →
       external_url doc = None).
Proof.
  split; [done|]. split; [done|].
  intros formData w doc. rewrite creation_new_effects.
  intros Hin. apply elem_of_cons in Hin as [[=]|Hin].
  apply elem_of_app in Hin as [Hin|Hin].
  - by apply creation_offchain_doc in Hin as (imageHash & -> & _).
  - by apply creation_onchain_not_pin in Hin.
Qed.


End Facts.

(** ** The properties at work in the small world *)

#[local] Existing Instance demo_browser.

Lemma metadata_degrades_gracefully_witness :
  ∃ info' w',
    getBatchInfoWithMetadata 1 fresh_world = (inr info', w')
    ∧ metadata info' = Some JNull.
Proof.
  destruct (metadata_degrades_gracefully 1 fresh_world) as [_ Hok].
  destruct (Hok (info_of (1, "0x2002", 2, 1700000000, 1700000000,
                          "bafy-wheat"))
              (after fresh_world
                 [GetNetwork;
                  CallGetBatchInfo
                    "0x5FbDB2315678afecb367f032d93F642f64180aa3" 1]))
    as (info' & w' & Hrun & _ & _ & Hfetch).
  { vm_compute. reflexivity. }
  exists info', w'. split; [exact Hrun|].
  destruct (Hfetch "bafy-wheat" eq_refl) as (_ & _ & Hfail & _).
  eapply Hfail. vm_compute. reflexivity.
Defined.

Lemma getUserOwnedBatches_filters_witness :
  ∃ records sent,
    getUserOwnedBatches "0X2002" fresh_world =
      (inr records,
       after fresh_world
         ([GetNetwork; GetNetwork;
           CallGetTotalBatches "0x5FbDB2315678afecb367f032d93F642f64180aa3"]
          ++ sent))
    ∧ owner_queries sent = [1; 2]
    ∧ records =
        [info_of (1, "0x2002", 2, 1700000000, 1700000000, "bafy-wheat");
         info_of (2, "0x2002", 1, 1700000000, 1700000000, "")].
Proof.
  destruct (getUserOwnedBatches_filters "0X2002" fresh_world 31337
              "0x5FbDB2315678afecb367f032d93F642f64180aa3" 2)
    as (records & sent & Hrun & Hsent & _ & _ & Hall).
  - reflexivity.
  - vm_compute. reflexivity.
  - vm_compute. reflexivity.
  - exists records, sent. split; [exact Hrun|]. split; [exact Hsent|].
    apply (Hall (λ _, "0x2002")
             (λ i, if i =? 1
                   then (1, "0x2002", 2, 1700000000, 1700000000, "bafy-wheat")
                   else (2, "0x2002", 1, 1700000000, 1700000000, ""))).
    + intros i Hi. assert (Hcases : i = 1 ∨ i = 2) by lia.
      destruct Hcases as [-> | ->]; vm_compute; reflexivity.
    + intros i Hi _. assert (Hcases : i = 1 ∨ i = 2) by lia.
      destruct Hcases as [-> | ->]; vm_compute; reflexivity.
Defined.

(** The claim as the specification words it fails behind a node that
    loses one record query: the user owns batches 1 and 2, and the result
    holds the record of batch 2 only. *)
Lemma getUserOwnedBatches_filters_counterexample :
  @getUserOwnedBatches flaky_browser "0x2002" fresh_world
  = (inr [info_of (2, "0x2002", 1, 1700000000, 1700000000, "")],
     after fresh_world
       [GetNetwork; GetNetwork;
        CallGetTotalBatches "0x5FbDB2315678afecb367f032d93F642f64180aa3";
        CallGetCurrentOwner "0x5FbDB2315678afecb367f032d93F642f64180aa3" 1;
        GetNetwork;
        CallGetBatchInfo "0x5FbDB2315678afecb367f032d93F642f64180aa3" 1;
        CallGetCurrentOwner "0x5FbDB2315678afecb367f032d93F642f64180aa3" 2;
        GetNetwork;
        CallGetBatchInfo "0x5FbDB2315678afecb367f032d93F642f64180aa3" 2])
  ∧ @contract_getCurrentOwner flaky_browser
      "0x5FbDB2315678afecb367f032d93F642f64180aa3" 1 = inr "0x2002"
  ∧ ¬ (∀ (browser : Collaborators) (userAddress : string) (w : World)
         (chainId : N) (contract : string) (total : N)
         (records : list BatchInfo) (i : N) (owner : string),
         @provider_getNetwork browser = inr chainId →
         @getBatchTrackerContract browser chainId = inr contract →
         @contract_getTotalBatches browser contract = inr total →
         fst (@getUserOwnedBatches browser userAddress w) = inr records →
         1 ≤ i ≤ total →
         @contract_getCurrentOwner browser contract i = inr owner →
         toLowerCase owner = toLowerCase userAddress →
         ∃ record, record ∈ records ∧ batchId record = i).
Proof.
  split; [vm_compute; reflexivity|]. split; [vm_compute; reflexivity|].
  intros Hclaim.
  destruct (Hclaim flaky_browser "0x2002" fresh_world 31337
              "0x5FbDB2315678afecb367f032d93F642f64180aa3" 2
              [info_of (2, "0x2002", 1, 1700000000, 1700000000, "")]
              1 "0x2002") as (record & Hin & Hid).
  - reflexivity.
  - vm_compute. reflexivity.
  - vm_compute. reflexivity.
  - vm_compute. reflexivity.
  - lia.
  - vm_compute. reflexivity.
  - reflexivity.
  - apply list_elem_of_singleton in Hin. subst record. discriminate Hid.
Qed.

Lemma metadata_without_external_url_witness :
  form_external_url demo_form = Some "https://example.org/lot7"
  ∧ external_url
      (createBatchMetadata "Wheat lot 7" "Hard red winter wheat"
         (Some "bafy-image") (Some (form_properties demo_form)) None) = None.
Proof.
  split; [reflexivity|].
  destruct metadata_without_external_url as (_ & _ & Hpinned).
  apply (Hpinned demo_form fresh_world).
  vm_compute. apply list_elem_of_further, list_elem_of_further,
    list_elem_of_here.
Defined.



End ClientFacts.

(* ===================================================================== *)
(** * Part VI: further properties of the ledger contract                  *)
(* ===================================================================== *)

Module LedgerExtra.

Import Ledger LedgerSpec LedgerMore LedgerFacts.
Local Open Scope N_scope.

(** ** The owner history only grows *)

Lemma run_ownerHistory txs s id :
  ∃ l, ownerHistory (batches id (snd (run txs s)))
       = ownerHistory (batches id s) ++ l.
Proof.
  revert s. induction txs as [|[env c] txs IH]; intros s; simpl.
  - exists []. by rewrite app_nil_r.
  - destruct (IH (step env c s)) as [l2 Hl2].
    destruct (step_ownerHistory env c s id) as [l1 Hl1].
    destruct (run txs (step env c s)) as [outs s']. simpl in *.
    exists (l1 ++ l2). by rewrite Hl2, Hl1, app_assoc.
Qed.

Lemma run_batchExists txs s id :
  batchExists id s = true → batchExists id (snd (run txs s)) = true.
Proof.
  revert s. induction txs as [|[env c] txs IH]; intros s Hex; simpl; [done|].
  specialize (IH (step env c s) (step_batchExists env c s id Hex)).
  by destruct (run txs (step env c s)).
Qed.

(** X1. Whatever transactions follow, the history [getOwnerHistory] returns
    for a batch is the earlier one with entries appended: no entry is ever
    removed or rewritten, and the creator stays at index 0. *)
Theorem history_append_only (txs : list (Env * Call)) (s : State)
    (id : uint256) (h : list address) :
  view (getOwnerHistory id) s = inr h →
  ∃ l, view (getOwnerHistory id) (snd (run txs s)) = inr (h ++ l)
       ∧ ∀ creator, head h = Some creator → head (h ++ l) = Some creator.
Proof.
  intros Hv.
  assert (Hex : batchExists id s = true).
  { destruct (batchExists id s) eqn:E; [done|].
    unfold getOwnerHistory in Hv. by rewrite view_not_found in Hv. }
  rewrite view_getOwnerHistory in Hv by done. injection Hv as <-.
  destruct (run_ownerHistory txs s id) as [l Hl]. exists l. split.
  - rewrite view_getOwnerHistory by by apply run_batchExists. by rewrite Hl.
  - intros creator. by destruct (ownerHistory (batches id s)).
Qed.

Lemma history_append_only_witness :
  ∃ l, view (getOwnerHistory 1)
         (snd (run [(sent_by alice, TransferBatch 1 bob)] one_batch))
       = inr ([alice] ++ l).
Proof.
  destruct (history_append_only [(sent_by alice, TransferBatch 1 bob)]
              one_batch 1 [alice]) as (l & Hl & _).
  - vm_compute. reflexivity.
  - by exists l.
Defined.

(** ** What the accessors tell about each other *)

Lemma view_getBatchInfo_inv id s t :
  view (getBatchInfo id) s = inr t →
  batchExists id s = true
  ∧ ∃ o, last (ownerHistory (batches id s)) = Some o
         ∧ t = (batchId (batches id s), o,
                array_length (ownerHistory (batches id s)),
                createdAt (batches id s), lastTransferAt (batches id s),
                ipfsHash (batches id s)).
Proof.
  intros Hv.
  destruct (batchExists id s) eqn:Hex;
    [|unfold getBatchInfo in Hv; by rewrite view_not_found in Hv].
  split; [done|].
  destruct (last (ownerHistory (batches id s))) as [o|] eqn:Hlast.
  - exists o. split; [done|].
    rewrite (view_getBatchInfo id s o) in Hv by done. congruence.
  - apply last_None in Hlast. unfold getBatchInfo in Hv.
    rewrite view_found in Hv by done. unfold view in Hv.
    unfold mbind, M_bind, read, checked_sub in Hv. simpl in Hv.
    rewrite Hlast in Hv. simpl in Hv. discriminate.
Qed.

(** X2. What [getBatchInfo] returns is what the single accessors return:
    its owner is [getCurrentOwner], its count is [getOwnerCount] and the
    length of [getOwnerHistory], whose last entry is that owner. *)
Theorem getBatchInfo_agrees (s : State) (id i : uint256) (o : address)
    (n c l : uint256) (h : string) :
  view (getBatchInfo id) s = inr (i, o, n, c, l, h) →
  view (getCurrentOwner id) s = inr o
  ∧ view (getOwnerCount id) s = inr n
  ∧ ∃ history, view (getOwnerHistory id) s = inr history
               ∧ array_length history = n
               ∧ last history = Some o
               ∧ view (wasOwner id o) s = inr true.
Proof.
  intros Hv. apply view_getBatchInfo_inv in Hv as (Hex & o' & Hlast & Ht).
  injection Ht as -> -> -> -> -> ->.
  split; [by apply view_getCurrentOwner|].
  split; [by apply view_getOwnerCount|].
  exists (ownerHistory (batches id s)).
  rewrite view_getOwnerHistory, view_wasOwner by done.
  repeat split; [done|]. f_equal. apply wasOwner_loop_elem.
  rewrite last_lookup in Hlast. by eapply list_elem_of_lookup_2.
Qed.

Lemma getBatchInfo_agrees_witness :
  view (getCurrentOwner 1) one_batch = inr alice
  ∧ view (getOwnerCount 1) one_batch = inr 1.
Proof.
  destruct (getBatchInfo_agrees one_batch 1 1 alice 1 1700000000 1700000000
              "bafy-wheat") as (Howner & Hcount & _).
  - vm_compute. reflexivity.
  - split; [exact Howner | exact Hcount].
Defined.

(** X3. [wasOwner] answers whether the address occurs in the history that
    [getOwnerHistory] returns. *)
Theorem wasOwner_is_membership (s : State) (id : uint256) (a : address)
    (h : list address) :
  view (getOwnerHistory id) s = inr h →
  view (wasOwner id a) s = inr (bool_decide (a ∈ h)).
Proof.
  intros Hv.
  assert (Hex : batchExists id s = true).
  { destruct (batchExists id s) eqn:E; [done|].
    unfold getOwnerHistory in Hv. by rewrite view_not_found in Hv. }
  rewrite view_getOwnerHistory in Hv by done. injection Hv as <-.
  rewrite view_wasOwner by done. f_equal.
  destruct (wasOwner_loop (ownerHistory (batches id s)) a) eqn:Hloop.
  - symmetry. apply bool_decide_eq_true. by apply wasOwner_loop_elem.
  - symmetry. apply bool_decide_eq_false. intros Hin.
    apply wasOwner_loop_elem in Hin. congruence.
Qed.

Lemma wasOwner_is_membership_witness :
  view (wasOwner 1 bob) one_batch = inr (bool_decide (bob ∈ [alice])).
Proof.
  apply (wasOwner_is_membership one_batch 1 bob [alice]).
  vm_compute. reflexivity.
Defined.

(** ** What an existing batch keeps telling *)

Lemma proper_history_snoc h a o :
  proper_history h → last h = Some a → a ≠ o → o ≠ address_zero →
  proper_history (h ++ [o]).
Proof.
  intros Hh Hlast Hne Hz i x y Hx Hy.
  destruct (decide (S i < length h)%nat) as [Hlt|Hge].
  - rewrite lookup_app_l in Hx by lia. rewrite lookup_app_l in Hy by lia.
    by apply (Hh i).
  - assert (Hi : S i = length h).
    { apply lookup_lt_Some in Hy. rewrite length_app in Hy. simpl in Hy. lia. }
    rewrite lookup_app_l in Hx by lia.
    rewrite lookup_app_r in Hy by lia.
    rewrite Hi, Nat.sub_diag in Hy. injection Hy as <-.
    rewrite last_lookup in Hlast.
    replace (Nat.pred (length h)) with i in Hlast by lia.
    split; [congruence | done].
Qed.

Lemma batches_ok_constructor : batches_ok constructor.
Proof.
  intros id. unfold batchExists; simpl. by rewrite lookup_empty.
Qed.

Lemma batches_ok_step env c s :
  wf s → batches_ok s → batches_ok (step env c s).
Proof.
  intros Hwf Hok. destruct c as [h|id' o|id' h].
  - rewrite step_createBatch.
    destruct (N.ltb_spec (nextBatchId s) UINT256_MAX) as [Hlt|Hge]; [|done].
    intros id. rewrite batchExists_created, batches_created.
    case_decide as Hid; [intros _; subst id | apply Hok].
    unfold created_batch, batches, uint256.
    rewrite (wf_fresh s Hwf (nextBatchId s)) by lia. simpl.
    split; simpl; try done.
  - rewrite step_transferBatch.
    destruct (transfer_check (msg_sender env) id' o s) eqn:Hchk; [done|].
    apply transfer_check_None in Hchk as (Hex' & Hlast & Hz & Hne).
    intros id Hex. rewrite batches_transferred.
    case_decide as Hid; [subst id' | by apply Hok].
    destruct (Hok id Hex) as [Hi Hf Hfr Hp]. split; simpl; try done.
    + intros Hlen. rewrite length_app in Hlen. simpl in Hlen.
      destruct (ownerHistory (batches id s)); [done | simpl in Hlen; lia].
    + by apply (proper_history_snoc _ (msg_sender env)).
  - rewrite step_updateMetadata.
    destruct (owner_check (msg_sender env) id' s) eqn:Hchk; [done|].
    intros id Hex. rewrite batches_updated.
    case_decide as Hid; [subst id' | by apply Hok].
    by destruct (Hok id Hex) as [Hi Hf Hfr Hp].
Qed.

Lemma reachable_batches_ok s : reachable s → batches_ok s.
Proof.
  induction 1 as [|env c s Hs IH]; [apply batches_ok_constructor|].
  apply batches_ok_step; [by apply reachable_wf | done].
Qed.

(** The creation time of an existing batch is never written again. *)
Lemma step_createdAt env c s id :
  wf s → batchExists id s = true →
  createdAt (batches id (step env c s)) = createdAt (batches id s).
Proof.
  intros Hwf Hex. destruct c as [h|id' o|id' h].
  - rewrite step_createBatch.
    destruct (nextBatchId s <? UINT256_MAX); [|done].
    rewrite batches_created. case_decide as Hid; [|done].
    apply (wf_exists s Hwf) in Hex. lia.
  - rewrite step_transferBatch.
    destruct (transfer_check (msg_sender env) id' o s); [done|].
    rewrite batches_transferred. case_decide as Hid; [by subst|done].
  - rewrite step_updateMetadata.
    destruct (owner_check (msg_sender env) id' s); [done|].
    rewrite batches_updated. case_decide as Hid; [by subst|done].
Qed.

Lemma run_createdAt txs s id :
  reachable s → batchExists id s = true →
  createdAt (batches id (snd (run txs s))) = createdAt (batches id s).
Proof.
  revert s. induction txs as [|[env c] txs IH]; intros s Hs Hex; simpl; [done|].
  specialize (IH (step env c s) (reach_step env c s Hs)
                (step_batchExists env c s id Hex)).
  destruct (run txs (step env c s)) as [outs s']. simpl in *.
  rewrite IH. apply step_createdAt; [by apply reachable_wf | done].
Qed.

(** X4. For a batch of the contract, the id [getBatchInfo] reports is the
    id asked for, and whatever transactions follow, [getBatchInfo] keeps
    answering with the same id and the same creation time, and with an
    owner count that is no smaller. *)
Theorem creation_data_fixed (s : State) (id i : uint256) (o : address)
    (n c l : uint256) (h : string) (txs : list (Env * Call)) :
  reachable s →
  view (getBatchInfo id) s = inr (i, o, n, c, l, h) →
  i = id
  ∧ ∃ o' n' l' h',
      view (getBatchInfo id) (snd (run txs s)) = inr (id, o', n', c, l', h')
      ∧ n ≤ n'.
Proof.
  intros Hs Hv. apply view_getBatchInfo_inv in Hv as (Hex & o1 & Hlast & Ht).
  injection Ht as -> -> -> -> -> ->.
  destruct (reachable_batches_ok s Hs id Hex) as [Hi _ _ _].
  split; [done|].
  pose proof (run_createdAt txs s id Hs Hex) as Hc.
  pose proof (run_reachable txs s Hs) as Hs'.
  pose proof (run_batchExists txs s id Hex) as Hex'.
  destruct (run_ownerHistory txs s id) as [l' Hl'].
  destruct (reachable_batches_ok _ Hs' id Hex') as [Hi' _ _ _].
  destruct (last (ownerHistory (batches id (snd (run txs s)))))
    as [o'|] eqn:Hlast'.
  - eexists o', _, _, _. split.
    + rewrite (view_getBatchInfo id _ o') by done. by rewrite Hc, Hi'.
    + rewrite Hl'. unfold array_length. rewrite length_app. lia.
  - apply last_None in Hlast'.
    by apply (wf_owned _ (reachable_wf _ Hs')) in Hex'.
Qed.

Lemma creation_data_fixed_witness :
  ∃ o' n' l' h',
    view (getBatchInfo 1)
      (snd (run [(sent_by alice, TransferBatch 1 bob)] one_batch))
    = inr (1, o', n', 1700000000, l', h').
Proof.
  destruct (creation_data_fixed one_batch 1 1 alice 1 1700000000 1700000000
              "bafy-wheat" [(sent_by alice, TransferBatch 1 bob)])
    as (_ & o' & n' & l' & h' & Hinfo & _).
  - apply reach_step, reach_deploy.
  - vm_compute. reflexivity.
  - by exists o', n', l', h'.
Defined.

(** X5. A batch of the contract that has had one owner only has never been
    transferred: its [lastTransferAt] is its [createdAt]. *)
Theorem untransferred_batch (s : State) (id i : uint256) (o : address)
    (c l : uint256) (h : string) :
  reachable s →
  view (getBatchInfo id) s = inr (i, o, 1, c, l, h) →
  l = c ∧ view (getOwnerHistory id) s = inr [o].
Proof.
  intros Hs Hv. apply view_getBatchInfo_inv in Hv as (Hex & o1 & Hlast & Ht).
  injection Ht as -> -> Hn -> -> ->.
  destruct (reachable_batches_ok s Hs id Hex) as [_ _ Hfresh _].
  assert (Hlen : length (ownerHistory (batches id s)) = 1%nat).
  { unfold array_length in Hn. lia. }
  split; [by apply Hfresh|].
  rewrite view_getOwnerHistory by done. f_equal.
  destruct (ownerHistory (batches id s)) as [|a [|b rest]]; try done.
  simpl in Hlast. congruence.
Qed.

Lemma untransferred_batch_witness :
  view (getOwnerHistory 1) one_batch = inr [alice].
Proof.
  apply (untransferred_batch one_batch 1 1 alice 1700000000 1700000000
           "bafy-wheat").
  - apply reach_step, reach_deploy.
  - vm_compute. reflexivity.
Defined.

(** X6. In a history of a batch of the contract no owner is followed by
    itself, and no entry but the first can be the zero address. *)
Theorem histories_are_proper (s : State) (id : uint256) (h : list address) :
  reachable s →
  view (getOwnerHistory id) s = inr h →
  proper_history h.
Proof.
  intros Hs Hv.
  assert (Hex : batchExists id s = true).
  { destruct (batchExists id s) eqn:E; [done|].
    unfold getOwnerHistory in Hv. by rewrite view_not_found in Hv. }
  rewrite view_getOwnerHistory in Hv by done. injection Hv as <-.
  by destruct (reachable_batches_ok s Hs id Hex).
Qed.

Lemma histories_are_proper_witness :
  proper_history [alice; bob].
Proof.
  apply (histories_are_proper
           (step (sent_by alice) (TransferBatch 1 bob) one_batch) 1).
  - apply reach_step, reach_step, reach_deploy.
  - vm_compute. reflexivity.
Defined.

(** ** Who may change a batch *)

(** X7. A transaction sent by anybody but the current owner of a batch of
    the contract leaves every member of that batch as it was, whatever the
    entry point and the arguments. *)
Theorem only_owner_changes_batch (s : State) (env : Env) (c : Call)
    (id : uint256) (o : address) :
  reachable s →
  view (getCurrentOwner id) s = inr o →
  msg_sender env ≠ o →
  batches id (step env c s) = batches id s.
Proof.
  intros Hs Hown Hne. pose proof (reachable_wf s Hs) as Hwf.
  apply view_getCurrentOwner_inv in Hown as [Hex Hlast].
  destruct c as [h|id' o'|id' h].
  - rewrite step_createBatch.
    destruct (nextBatchId s <? UINT256_MAX); [|done].
    rewrite batches_created. case_decide as Hid; [|done].
    apply (wf_exists s Hwf) in Hex. lia.
  - rewrite step_transferBatch.
    destruct (transfer_check (msg_sender env) id' o' s) eqn:Hchk; [done|].
    apply transfer_check_None in Hchk as (_ & Hlast' & _).
    rewrite batches_transferred. case_decide as Hid; [|done].
    subst id'. congruence.
  - rewrite step_updateMetadata.
    destruct (owner_check (msg_sender env) id' s) eqn:Hchk; [done|].
    apply owner_check_None in Hchk as (_ & Hlast').
    rewrite batches_updated. case_decide as Hid; [|done].
    subst id'. congruence.
Qed.

Lemma only_owner_changes_batch_witness :
  batches 1 (step (sent_by bob) (UpdateMetadata 1 "bafy-rye") one_batch)
  = batches 1 one_batch.
Proof.
  apply (only_owner_changes_batch one_batch (sent_by bob)
           (UpdateMetadata 1 "bafy-rye") 1 alice).
  - apply reach_step, reach_deploy.
  - vm_compute. reflexivity.
  - discriminate.
Defined.

(** X8. [updateMetadata] checks that the batch exists, else it fails with
    [NotFound], then that the caller is the current owner, else it fails
    with [Unauthorized]; past these two it goes through for every
    reference, the empty one included.  A failed call leaves the storage
    as it was and logs nothing. *)
Theorem updateMetadata_guards (s : State) (env : Env) (id : uint256)
    (h : string) :
  reachable s →
  let r := outcome env (UpdateMetadata id h) s in
  (batchExists id s = false → fails_with r NotFound MSG_NOT_EXIST)
  ∧ (batchExists id s = true →
       ∃ o, view (getCurrentOwner id) s = inr o
         ∧ (msg_sender env ≠ o → fails_with r Unauthorized MSG_NOT_OWNER)
         ∧ (msg_sender env = o → r = inr Done))
  ∧ (∀ e, r = inl e →
       execute (dispatch env (UpdateMetadata id h)) s = (inl e, s, [])).
Proof.
  intros Hs r. subst r. pose proof (reachable_wf s Hs) as Hwf.
  rewrite outcome_updateMetadata, execute_updateMetadata.
  unfold owner_check. split; [|split].
  - by intros ->.
  - intros Hex. rewrite Hex.
    destruct (last (ownerHistory (batches id s))) as [o|] eqn:Hlast;
      [|apply last_None in Hlast; by apply (wf_owned s Hwf) in Hex].
    exists o. split; [by apply view_getCurrentOwner|].
    destruct (N.eqb_spec o (msg_sender env)) as [Ho|Ho]; split; done.
  - intros e.
    destruct (batchExists id s); [|by intros [= <-]].
    destruct (last (ownerHistory (batches id s))) as [o|];
      [|by intros [= <-]].
    destruct (o =? msg_sender env); [done | by intros [= <-]].
Qed.

Lemma updateMetadata_guards_witness :
  fails_with (outcome (sent_by bob) (UpdateMetadata 1 "") one_batch)
    Unauthorized MSG_NOT_OWNER.
Proof.
  assert (Hreach : reachable one_batch) by apply reach_step, reach_deploy.
  destruct (updateMetadata_guards one_batch (sent_by bob) 1 "" Hreach)
    as (_ & Hexists & _).
  destruct (Hexists eq_refl) as (o & Ho & Hother & _).
  apply Hother. vm_compute in Ho. injection Ho as <-. discriminate.
Defined.

(** ** The event log *)

Lemma receipt_createBatch env h s :
  receipt env (CreateBatch h) s =
    if nextBatchId s <? UINT256_MAX
    then [BatchCreated (nextBatchId s) (msg_sender env) (block_timestamp env) h]
    else [].
Proof.
  unfold receipt. rewrite execute_createBatch.
  by destruct (nextBatchId s <? UINT256_MAX).
Qed.

Lemma receipt_transferBatch env id o s :
  receipt env (TransferBatch id o) s =
    match transfer_check (msg_sender env) id o s with
    | Some _ => []
    | None => [BatchTransferred id (msg_sender env) o (block_timestamp env)]
    end.
Proof.
  unfold receipt. rewrite execute_transferBatch.
  by destruct (transfer_check (msg_sender env) id o s).
Qed.

Lemma receipt_updateMetadata env id h s :
  receipt env (UpdateMetadata id h) s =
    match owner_check (msg_sender env) id s with
    | Some _ => []
    | None => [MetadataUpdated id (ipfsHash (batches id s)) h
                 (block_timestamp env)]
    end.
Proof.
  unfold receipt. rewrite execute_updateMetadata.
  by destruct (owner_check (msg_sender env) id s).
Qed.

(** X9. The events in a receipt tell the truth about the transaction: a
    [BatchCreated] names the id that was free before and the record
    [getBatchInfo] shows afterwards; a [BatchTransferred] names the owner
    before as [from] and the owner after as [to]; a [MetadataUpdated]
    names the reference before and after; and each carries the block
    time. *)
Theorem events_are_truthful (s : State) (env : Env) (c : Call) (ev : Event) :
  reachable s →
  ev ∈ receipt env c s →
  receipt env c s = [ev]
  ∧ match ev with
    | BatchCreated id creator timestamp hash =>
        batchExists id s = false
        ∧ view (getBatchInfo id) (step env c s)
          = inr (id, creator, 1, timestamp, timestamp, hash)
        ∧ creator = msg_sender env ∧ timestamp = block_timestamp env
    | BatchTransferred id from to timestamp =>
        view (getCurrentOwner id) s = inr from
        ∧ view (getCurrentOwner id) (step env c s) = inr to
        ∧ from = msg_sender env ∧ timestamp = block_timestamp env
    | MetadataUpdated id oldIpfsHash newIpfsHash timestamp =>
        ipfsHash (batches id s) = oldIpfsHash
        ∧ ipfsHash (batches id (step env c s)) = newIpfsHash
        ∧ timestamp = block_timestamp env
    end.
Proof.
  intros Hs Hin. pose proof (reachable_wf s Hs) as Hwf.
  destruct c as [h|id o|id h].
  - rewrite receipt_createBatch in *. rewrite step_createBatch.
    destruct (N.ltb_spec (nextBatchId s) UINT256_MAX) as [Hlt|Hge];
      [|by apply elem_of_nil in Hin].
    apply list_elem_of_singleton in Hin as ->. split; [done|].
    assert (Hnew : batches (nextBatchId s) (created_state env h s) =
                   {| batchId := nextBatchId s;
                      ownerHistory := [msg_sender env];
                      exists_ := true; createdAt := block_timestamp env;
                      lastTransferAt := block_timestamp env; ipfsHash := h |}).
    { rewrite batches_created. rewrite decide_True by done.
      unfold created_batch, batches, uint256.
      by rewrite (wf_fresh s Hwf (nextBatchId s)) by lia. }
    repeat split.
    + destruct (batchExists (nextBatchId s) s) eqn:E; [|done].
      apply (wf_exists s Hwf) in E. lia.
    + rewrite (view_getBatchInfo _ _ (msg_sender env)).
      * by rewrite Hnew.
      * rewrite batchExists_created. by rewrite decide_True.
      * by rewrite Hnew.
  - rewrite receipt_transferBatch in *. rewrite step_transferBatch.
    destruct (transfer_check (msg_sender env) id o s) eqn:Hchk;
      [by apply elem_of_nil in Hin|].
    apply list_elem_of_singleton in Hin as ->. split; [done|].
    apply transfer_check_None in Hchk as (Hex & Hlast & _).
    repeat split.
    + by apply view_getCurrentOwner.
    + apply view_getCurrentOwner; [done|].
      rewrite batches_transferred, decide_True by done. simpl.
      by rewrite last_snoc.
  - rewrite receipt_updateMetadata in *. rewrite step_updateMetadata.
    destruct (owner_check (msg_sender env) id s) eqn:Hchk;
      [by apply elem_of_nil in Hin|].
    apply list_elem_of_singleton in Hin as ->. split; [done|].
    repeat split. by rewrite batches_updated, decide_True.
Qed.

Lemma events_are_truthful_witness :
  view (getCurrentOwner 1) one_batch = inr alice
  ∧ view (getCurrentOwner 1)
      (step (sent_by alice) (TransferBatch 1 bob) one_batch) = inr bob.
Proof.
  destruct (events_are_truthful one_batch (sent_by alice)
              (TransferBatch 1 bob)
              (BatchTransferred 1 alice bob 1700000000))
    as (_ & Hfrom & Hto & _).
  - apply reach_step, reach_deploy.
  - vm_compute. apply list_elem_of_here.
  - split; [exact Hfrom | exact Hto].
Defined.

Lemma replay_from_run txs s :
  wf s →
  replay_from (st_batches s) (event_log txs s) = st_batches (snd (run txs s)).
Proof.
  revert s. induction txs as [|[env c] txs IH]; intros s Hwf; simpl; [done|].
  specialize (IH (step env c s) (wf_step env c s Hwf)).
  destruct (run txs (step env c s)) as [outs s'] eqn:Hrun. simpl in *.
  unfold replay_from in *. rewrite foldl_app, <- IH. f_equal.
  destruct c as [h|id o|id h].
  - rewrite receipt_createBatch, step_createBatch.
    destruct (N.ltb_spec (nextBatchId s) UINT256_MAX) as [Hlt|Hge]; [|done].
    simpl. unfold created_batch, batches, uint256.
    by rewrite (wf_fresh s Hwf (nextBatchId s)) by lia.
  - rewrite receipt_transferBatch, step_transferBatch.
    by destruct (transfer_check (msg_sender env) id o s).
  - rewrite receipt_updateMetadata, step_updateMetadata.
    by destruct (owner_check (msg_sender env) id s).
Qed.

(** X10. The batches in the storage are a function of the events emitted
    since deployment: an observer who starts with nothing and applies the
    events in order ends with exactly the contract's [batches] mapping. *)
Theorem storage_replays_from_events (txs : list (Env * Call)) :
  replay (event_log txs constructor) = st_batches (history_state txs)
  ∧ ∀ id h, view (getOwnerHistory id) (history_state txs) = inr h →
            ownerHistory <$> replay (event_log txs constructor) !! id = Some h.
Proof.
  assert (Hreplay : replay (event_log txs constructor)
                    = st_batches (history_state txs))
    by apply (replay_from_run txs constructor wf_constructor).
  split; [done|]. intros id h Hv. rewrite Hreplay.
  pose proof (reachable_wf _ (history_state_reachable txs)) as Hwf.
  assert (Hex : batchExists id (history_state txs) = true).
  { destruct (batchExists id (history_state txs)) eqn:E; [done|].
    unfold getOwnerHistory in Hv. by rewrite view_not_found in Hv. }
  rewrite view_getOwnerHistory in Hv by done. injection Hv as <-.
  pose proof (wf_owned _ Hwf id Hex) as Hne. unfold batches in *.
  by destruct (st_batches (history_state txs) !! id).
Qed.

Lemma storage_replays_from_events_witness :
  ownerHistory <$> replay (event_log demo_history constructor) !! 1
  = Some [alice; bob].
Proof.
  apply (proj2 (storage_replays_from_events demo_history) 1 [alice; bob]).
  vm_compute. reflexivity.
Defined.

Lemma run_length txs s : length (fst (run txs s)) = length txs.
Proof.
  revert s. induction txs as [|[env c] txs IH]; intros s; simpl; [done|].
  specialize (IH (step env c s)).
  destruct (run txs (step env c s)). simpl in *. by rewrite IH.
Qed.

Lemma created_ids_length outs : (length (created_ids outs) ≤ length outs)%nat.
Proof.
  induction outs as [|[e|[id|]] outs IH]; simpl; lia.
Qed.

(** X24. [createBatch] checks nothing about its caller or its argument:
    the only way it can fail is the overflow check on the counter, a
    [Panic(0x11)] without a reason string, and then nothing is written.
    No history of fewer than [2^256 - 2] transactions brings the counter
    there: after such a history anyone can create a batch, with any
    reference, and gets the number of batches created so far plus one. *)
Theorem createBatch_is_permissionless :
  (∀ s env h e,
     outcome env (CreateBatch h) s = inl e →
     e = PANIC_ARITHMETIC ∧ error_kind e = None
     ∧ UINT256_MAX ≤ nextBatchId s
     ∧ execute (dispatch env (CreateBatch h)) s = (inl e, s, []))
  ∧ (∀ txs env h,
       N.of_nat (length txs) < UINT256_MAX - 1 →
       outcome env (CreateBatch h) (history_state txs)
       = inr (Created (N.of_nat (length (history_ids txs)) + 1))).
Proof.
  split.
  - intros s env h e. rewrite outcome_createBatch, execute_createBatch.
    destruct (N.ltb_spec (nextBatchId s) UINT256_MAX) as [Hlt|Hge]; [done|].
    by intros [= <-].
  - intros txs env h Hlen. rewrite outcome_createBatch.
    unfold history_ids, history_state.
    destruct (run_counter txs constructor) as [_ Hnext].
    pose proof (created_ids_length (fst (run txs constructor))) as Hle.
    rewrite run_length in Hle. simpl in Hnext. rewrite Hnext.
    destruct (N.ltb_spec
                (1 + N.of_nat (length (created_ids (fst (run txs constructor)))))
                UINT256_MAX) as [Hlt|Hge].
    + do 2 f_equal. lia.
    + lia.
Qed.

Lemma createBatch_is_permissionless_witness :
  outcome (sent_by 4004) (CreateBatch "") (history_state demo_history)
  = inr (Created (N.of_nat (length (history_ids demo_history)) + 1)).
Proof.
  apply (proj2 createBatch_is_permissionless demo_history (sent_by 4004) "").
  vm_compute. reflexivity.
Defined.

End LedgerExtra.

(* ===================================================================== *)
(** * Part VII: the two contracts compared                                *)
(* ===================================================================== *)

Module VariantFacts.

Import Ledger LedgerSpec LedgerFacts Variants.
Local Open Scope N_scope.

#[local] Arguments LedgerBasic.last_owner : simpl never.
#[local] Arguments LedgerBasic.getCurrentOwner : simpl never.
#[local] Arguments LedgerBasic.index : simpl never.

Ltac run_basic :=
  repeat progress
    (unfold mbind, LedgerBasic.M_bind, mret, LedgerBasic.M_ret,
       LedgerBasic.read, LedgerBasic.write, LedgerBasic.emit,
       LedgerBasic.require, LedgerBasic.throw, LedgerBasic.checked_add,
       LedgerBasic.checked_sub, LedgerBasic.update_batch,
       LedgerBasic.set_batchExists, LedgerBasic.set_nextBatchId in *;
     simpl in *).

Lemma basic_batches_insert_eq id b (m : gmap N LedgerBasic.Batch) ex n :
  LedgerBasic.batches id
    {| LedgerBasic.st_batches := <[id := b]> m;
       LedgerBasic.st_batchExists := ex; LedgerBasic.nextBatchId := n |} = b.
Proof. unfold LedgerBasic.batches; simpl. by rewrite lookup_insert_eq. Qed.

Lemma basic_index_last {A} (h : list A) (o : A) (m : LedgerBasic.Machine) :
  last h = Some o →
  LedgerBasic.index h (array_length h - 1) m = (inr o, m).
Proof.
  intros Hlast. unfold LedgerBasic.index, array_length.
  replace (N.to_nat (N.of_nat (length h) - 1)) with (Nat.pred (length h))
    by lia.
  by rewrite <- last_lookup, Hlast.
Qed.

Lemma basic_last_owner_run id m o :
  last (LedgerBasic.ownerHistory
          (LedgerBasic.batches id (LedgerBasic.storage m))) = Some o →
  LedgerBasic.last_owner id m = (inr o, m).
Proof.
  intros Hlast. unfold LedgerBasic.last_owner. run_basic.
  rewrite (last_nonempty_length _ _ Hlast).
  by apply basic_index_last.
Qed.

Lemma basic_last_owner_empty id m :
  LedgerBasic.ownerHistory
    (LedgerBasic.batches id (LedgerBasic.storage m)) = [] →
  LedgerBasic.last_owner id m = (inl PANIC_ARITHMETIC, m).
Proof.
  intros Hh. unfold LedgerBasic.last_owner, LedgerBasic.index, array_length.
  run_basic. by rewrite Hh.
Qed.

Lemma basic_getCurrentOwner_run id m o :
  LedgerBasic.batchExists id (LedgerBasic.storage m) = true →
  last (LedgerBasic.ownerHistory
          (LedgerBasic.batches id (LedgerBasic.storage m))) = Some o →
  LedgerBasic.getCurrentOwner id m = (inr o, m).
Proof.
  intros Hex Hlast.
  unfold LedgerBasic.getCurrentOwner, LedgerBasic.batchMustExist. run_basic.
  rewrite Hex; simpl. by apply basic_last_owner_run.
Qed.

Lemma basic_execute_createBatch env s :
  LedgerBasic.execute (LedgerBasic.createBatch env) s =
    if LedgerBasic.nextBatchId s <? UINT256_MAX
    then (inr (LedgerBasic.nextBatchId s), basic_created_state env s,
          [LedgerBasic.BatchCreated (LedgerBasic.nextBatchId s)
             (msg_sender env) (block_timestamp env)])
    else (inl PANIC_ARITHMETIC, s, []).
Proof.
  unfold LedgerBasic.execute, LedgerBasic.createBatch. run_basic.
  destruct (N.ltb_spec (LedgerBasic.nextBatchId s) UINT256_MAX) as [Hlt|Hge].
  - assert (Hle : (LedgerBasic.nextBatchId s + 1 <=? UINT256_MAX) = true)
      by (apply N.leb_le; lia).
    rewrite Hle; simpl.
    rewrite !basic_batches_insert_eq. unfold LedgerBasic.batches at 1; simpl.
    by rewrite !insert_insert_eq.
  - assert (Hle : (LedgerBasic.nextBatchId s + 1 <=? UINT256_MAX) = false)
      by (apply N.leb_gt; lia).
    by rewrite Hle.
Qed.

Lemma basic_execute_transferBatch env id newOwner s :
  LedgerBasic.execute (LedgerBasic.transferBatch env id newOwner) s =
    match basic_transfer_check (msg_sender env) id newOwner s with
    | Some e => (inl e, s, [])
    | None =>
        (inr tt, basic_transferred_state env id newOwner s,
         [LedgerBasic.BatchTransferred id (msg_sender env) newOwner
            (block_timestamp env)])
    end.
Proof.
  unfold LedgerBasic.execute, LedgerBasic.transferBatch,
    LedgerBasic.batchMustExist, LedgerBasic.onlyCurrentOwner,
    basic_transfer_check, basic_owner_check.
  run_basic.
  destruct (LedgerBasic.batchExists id s) eqn:Hex; simpl; [|done].
  rewrite Hex; simpl.
  destruct (last (LedgerBasic.ownerHistory (LedgerBasic.batches id s)))
    as [o|] eqn:Hlast.
  - rewrite (basic_last_owner_run id _ o) by done.
    destruct (N.eqb_spec o (msg_sender env)) as [->|Hne]; simpl; [|done].
    destruct (newOwner =? address_zero); simpl; [done|].
    rewrite (basic_getCurrentOwner_run id _ (msg_sender env)) by done.
    destruct (newOwner =? msg_sender env); simpl; [done|].
    rewrite (basic_getCurrentOwner_run id _ (msg_sender env)) by done.
    by rewrite basic_batches_insert_eq, insert_insert_eq.
  - apply last_None in Hlast. by rewrite basic_last_owner_empty.
Qed.

(** ** Erasing the metadata *)

Lemma batches_erase id s :
  LedgerBasic.batches id (erase s) = erase_batch (batches id s).
Proof.
  unfold LedgerBasic.batches, batches, erase; simpl.
  rewrite lookup_fmap. by destruct (st_batches s !! id).
Qed.

Lemma basic_owner_check_erase sender id s :
  basic_owner_check sender id (erase s)
  = erase_error <$> owner_check sender id s.
Proof.
  unfold basic_owner_check, owner_check. rewrite batches_erase.
  change (LedgerBasic.batchExists id (erase s)) with (batchExists id s).
  destruct (batchExists id s); [|done]. simpl.
  destruct (last (ownerHistory (batches id s))) as [o|]; [|done].
  by destruct (o =? sender).
Qed.

Lemma basic_transfer_check_erase sender id o s :
  basic_transfer_check sender id o (erase s)
  = erase_error <$> transfer_check sender id o s.
Proof.
  unfold basic_transfer_check, transfer_check.
  rewrite basic_owner_check_erase.
  destruct (owner_check sender id s); simpl; [done|].
  destruct (o =? address_zero); [done|]. by destruct (o =? sender).
Qed.

Lemma erase_created env h s :
  erase (created_state env h s) = basic_created_state env (erase s).
Proof.
  unfold erase, created_state, basic_created_state; simpl.
  rewrite fmap_insert. do 2 f_equal.
  fold (erase s). rewrite batches_erase. reflexivity.
Qed.

Lemma erase_transferred env id o s :
  erase (transferred_state env id o s)
  = basic_transferred_state env id o (erase s).
Proof.
  unfold erase, transferred_state, basic_transferred_state; simpl.
  rewrite fmap_insert. do 2 f_equal.
  fold (erase s). rewrite batches_erase. reflexivity.
Qed.

Lemma erase_updated sender id h s :
  owner_check sender id s = None →
  erase (updated_state id h s) = erase s.
Proof.
  intros Hchk. apply owner_check_None in Hchk as [_ Hlast].
  unfold erase, updated_state; simpl. f_equal.
  rewrite fmap_insert. apply insert_id. rewrite lookup_fmap.
  unfold batches in *.
  destruct (st_batches s !! id) as [b|]; [done | discriminate].
Qed.

Lemma raw_execute_createBatch env h s :
  execute (createBatch env h) s =
    if nextBatchId s <? UINT256_MAX
    then (inr (nextBatchId s), created_state env h s,
          [BatchCreated (nextBatchId s) (msg_sender env) (block_timestamp env) h])
    else (inl PANIC_ARITHMETIC, s, []).
Proof.
  unfold execute.
  destruct (N.ltb_spec (nextBatchId s) UINT256_MAX) as [Hlt|Hge].
  - by rewrite createBatch_run.
  - by rewrite createBatch_overflow.
Qed.

Lemma raw_execute_transferBatch env id o s :
  execute (transferBatch env id o) s =
    match transfer_check (msg_sender env) id o s with
    | Some e => (inl e, s, [])
    | None => (inr tt, transferred_state env id o s,
               [BatchTransferred id (msg_sender env) o (block_timestamp env)])
    end.
Proof.
  unfold execute. rewrite transferBatch_run. simpl.
  by destruct (transfer_check (msg_sender env) id o s).
Qed.

Lemma raw_execute_updateMetadata env id h s :
  execute (updateMetadata env id h) s =
    match owner_check (msg_sender env) id s with
    | Some e => (inl e, s, [])
    | None => (inr tt, updated_state id h s,
               [MetadataUpdated id (ipfsHash (batches id s)) h
                  (block_timestamp env)])
    end.
Proof.
  unfold execute. rewrite updateMetadata_run. simpl.
  by destruct (owner_check (msg_sender env) id s).
Qed.

Lemma basic_view_not_found {A} (body : LedgerBasic.M A) id s :
  LedgerBasic.batchExists id s = false →
  LedgerBasic.view (LedgerBasic.batchMustExist id body) s
  = inl (Revert MSG_NOT_EXIST).
Proof.
  intros Hex. unfold LedgerBasic.view, LedgerBasic.batchMustExist.
  run_basic. by rewrite Hex.
Qed.

Lemma basic_view_found {A} (body : LedgerBasic.M A) id s :
  LedgerBasic.batchExists id s = true →
  LedgerBasic.view (LedgerBasic.batchMustExist id body) s
  = LedgerBasic.view body s.
Proof.
  intros Hex. unfold LedgerBasic.view, LedgerBasic.batchMustExist.
  run_basic. by rewrite Hex.
Qed.

(** A view guarded by [batchMustExist] agrees in the two contracts as soon
    as its body does on existing batches. *)
Lemma guarded_views_agree {A B} (f : A → B) (body : M A)
    (body' : LedgerBasic.M B) id s :
  (batchExists id s = true →
   LedgerBasic.view body' (erase s)
   = match view body s with inl e => inl e | inr a => inr (f a) end) →
  LedgerBasic.view (LedgerBasic.batchMustExist id body') (erase s)
  = match view (batchMustExist id body) s with
    | inl e => inl e
    | inr a => inr (f a)
    end.
Proof.
  intros Hbody. destruct (batchExists id s) eqn:Hex.
  - rewrite view_found, basic_view_found by done. by apply Hbody.
  - by rewrite view_not_found, basic_view_not_found.
Qed.

Lemma guarded_views_same {A} (body : M A) (body' : LedgerBasic.M A) id s :
  (batchExists id s = true →
   LedgerBasic.view body' (erase s) = view body s) →
  LedgerBasic.view (LedgerBasic.batchMustExist id body') (erase s)
  = view (batchMustExist id body) s.
Proof.
  intros Hbody. destruct (batchExists id s) eqn:Hex.
  - rewrite view_found, basic_view_found by done. by apply Hbody.
  - by rewrite view_not_found, basic_view_not_found.
Qed.

Lemma last_owner_views_agree id s :
  LedgerBasic.view (LedgerBasic.last_owner id) (erase s)
  = view (last_owner id) s.
Proof.
  unfold LedgerBasic.view, view.
  destruct (last (ownerHistory (batches id s))) as [o|] eqn:Hlast.
  - rewrite (last_owner_run id _ o) by done.
    rewrite (basic_last_owner_run id _ o); [done|].
    simpl. by rewrite batches_erase.
  - apply last_None in Hlast. rewrite last_owner_empty by done.
    rewrite basic_last_owner_empty; [done|].
    simpl. by rewrite batches_erase.
Qed.

(** X11. The contract with metadata, seen without the metadata, is the
    contract without it: deployment, [createBatch] and [transferBatch]
    commute with erasing the [ipfsHash] member, up to the wording of the
    refusal of a stranger; [updateMetadata] is invisible; and the views
    return the same, [getBatchInfo] less its last component. *)
Theorem contract_variants_agree :
  erase constructor = LedgerBasic.constructor
  ∧ (∀ env h s,
       LedgerBasic.execute (LedgerBasic.createBatch env) (erase s)
       = erase_outcome (execute (createBatch env h) s))
  ∧ (∀ env id o s,
       LedgerBasic.execute (LedgerBasic.transferBatch env id o) (erase s)
       = erase_outcome (execute (transferBatch env id o) s))
  ∧ (∀ env id h s,
       erase (snd (fst (execute (updateMetadata env id h) s))) = erase s)
  ∧ (∀ id s,
       LedgerBasic.view (LedgerBasic.getCurrentOwner id) (erase s)
       = view (getCurrentOwner id) s
       ∧ LedgerBasic.view (LedgerBasic.getOwnerHistory id) (erase s)
         = view (getOwnerHistory id) s
       ∧ LedgerBasic.view (LedgerBasic.getOwnerCount id) (erase s)
         = view (getOwnerCount id) s
       ∧ (∀ a, LedgerBasic.view (LedgerBasic.wasOwner id a) (erase s)
               = view (wasOwner id a) s)
       ∧ LedgerBasic.view (LedgerBasic.getBatchInfo id) (erase s)
         = match view (getBatchInfo id) s with
           | inl e => inl e
           | inr t => inr (erase_info t)
           end)
  ∧ (∀ s, LedgerBasic.view LedgerBasic.getTotalBatches (erase s)
          = view getTotalBatches s).
Proof.
  split; [|split; [|split; [|split; [|split]]]].
  - unfold erase, constructor, LedgerBasic.constructor; simpl.
    by rewrite fmap_empty.
  - intros env h s.
    rewrite basic_execute_createBatch, raw_execute_createBatch. simpl.
    destruct (nextBatchId s <? UINT256_MAX); simpl; [|done].
    by rewrite erase_created.
  - intros env id o s.
    rewrite basic_execute_transferBatch, raw_execute_transferBatch.
    rewrite basic_transfer_check_erase.
    destruct (transfer_check (msg_sender env) id o s); simpl; [done|].
    by rewrite erase_transferred.
  - intros env id h s. rewrite raw_execute_updateMetadata.
    destruct (owner_check (msg_sender env) id s) eqn:Hchk; simpl; [done|].
    by apply (erase_updated (msg_sender env)).
  - intros id s.
    split; [|split; [|split; [|split]]].
    + apply guarded_views_same. intros _. apply last_owner_views_agree.
    + apply guarded_views_same. intros _.
      unfold LedgerBasic.view, view; simpl. by rewrite batches_erase.
    + apply guarded_views_same. intros _.
      unfold LedgerBasic.view, view; simpl. by rewrite batches_erase.
    + intros a. apply guarded_views_same. intros _.
      unfold LedgerBasic.view, view. run_basic. run_monad.
      by rewrite batches_erase.
    + apply guarded_views_agree. intros Hex.
      unfold LedgerBasic.view, view. run_basic. run_monad.
      rewrite batches_erase. simpl.
      destruct (1 <=? array_length (ownerHistory (batches id s))); simpl;
        [|done].
      unfold LedgerBasic.index, index.
      by destruct (ownerHistory (batches id s) !! _).
  - intros s. unfold LedgerBasic.view, view, LedgerBasic.getTotalBatches,
      getTotalBatches. run_basic. run_monad.
    by destruct (1 <=? nextBatchId s).
Qed.

End VariantFacts.

(* ===================================================================== *)
(** * Part VIII: further properties of the client access layer            *)
(* ===================================================================== *)

Module ClientExtra.

Import Client ClientSpec ClientMoreSpec ClientFacts.
Local Open Scope N_scope.

Section Facts.

Context `{Collaborators}.

(** ** The side index *)




(** What [getAllBatchMetadata] returns in [w]. *)
Lemma storage_getBatchMetadata_run id w :
  MetadataStorage.getBatchMetadata id w =
    (inr (MetadataStorage.or_null
            (member (if localStorage_available then index_of (stored w)
                     else JObj []) id)),
     w).
Proof.
  unfold MetadataStorage.getBatchMetadata, try_catch.
  unfold mbind at 1, Async_bind at 1. rewrite getAllBatchMetadata_run.
  unfold mbind, Async_bind. rewrite settle_run.
  by destruct (if localStorage_available then index_of (stored w)
               else JObj []).
Qed.

Lemma storage_hasBatchMetadata_run to_number_positive id w :
  MetadataStorage.hasBatchMetadata to_number_positive id w =
    (match MetadataStorage.or_null
             (member (if localStorage_available then index_of (stored w)
                      else JObj []) id) with
     | JNull => inr false
     | hash => MetadataStorage.length_positive to_number_positive hash
     end,
     w).
Proof.
  unfold MetadataStorage.hasBatchMetadata.
  unfold mbind, Async_bind. rewrite storage_getBatchMetadata_run.
  destruct (MetadataStorage.or_null _); try done; by rewrite settle_run.
Qed.

Lemma storage_removeBatchMetadata_run id w :
  MetadataStorage.removeBatchMetadata id w =
    (inr tt,
     if localStorage_available then
       match MetadataStorage.delete_member (index_of (stored w)) id with
       | inr existing => {| trace := trace w; stored := Item existing |}
       | inl _ => w
       end
     else w).
Proof.
  unfold MetadataStorage.removeBatchMetadata, try_catch.
  unfold mbind at 1, Async_bind at 1. rewrite getAllBatchMetadata_run.
  unfold mbind, Async_bind, setItem.
  destruct localStorage_available; simpl.
  - rewrite settle_run.
    by destruct (MetadataStorage.delete_member (index_of (stored w)) id).
  - done.
Qed.

Lemma storage_clearAllMetadata_run w :
  MetadataStorage.clearAllMetadata w =
    (inr tt,
     if localStorage_available
     then {| trace := trace w; stored := NoItem |}
     else w).
Proof.
  unfold MetadataStorage.clearAllMetadata, try_catch,
    MetadataStorage.removeItem.
  by destruct localStorage_available.
Qed.




(** X14. Writing, reading, removing, clearing and [getAllBatchMetadata]
    never throw.  [hasBatchMetadata], which has no [try] of its own,
    changes nothing and throws in one case only: the entry is an object
    whose [length] member the comparison with 0 cannot convert to a
    number.  In a browser whose storage throws, writing, removing and
    clearing change nothing, every entry reads as [null] and
    [hasBatchMetadata] is false; a stored item that does not parse reads
    as the empty object. *)
Theorem side_index_never_throws
    (to_number_positive : json → JsError + bool) (id : N) (hash : string)
    (w : World) :
  (∃ w', setBatchMetadata id hash w = (inr tt, w'))
  ∧ (∃ v, MetadataStorage.getBatchMetadata id w = (inr v, w))
  ∧ (∃ r, MetadataStorage.hasBatchMetadata to_number_positive id w = (r, w)
          ∧ ∀ e, r = inl e →
              ∃ fields x,
                MetadataStorage.getBatchMetadata id w = (inr (JObj fields), w)
                ∧ assoc "length" fields = Some x
                ∧ to_number_positive x = inl e)
  ∧ ((∀ x, ∃ b, to_number_positive x = inr b) →
       ∃ v, MetadataStorage.hasBatchMetadata to_number_positive id w
            = (inr v, w))
  ∧ (∃ w', MetadataStorage.removeBatchMetadata id w = (inr tt, w'))
  ∧ (∃ w', MetadataStorage.clearAllMetadata w = (inr tt, w'))
  ∧ (∃ v, getAllBatchMetadata w = (inr v, w))
  ∧ (localStorage_available = false →
       setBatchMetadata id hash w = (inr tt, w)
       ∧ MetadataStorage.removeBatchMetadata id w = (inr tt, w)
       ∧ MetadataStorage.clearAllMetadata w = (inr tt, w)
       ∧ MetadataStorage.getBatchMetadata id w = (inr JNull, w)
       ∧ MetadataStorage.hasBatchMetadata to_number_positive id w
         = (inr false, w))
  ∧ (stored w = Garbled → getAllBatchMetadata w = (inr (JObj []), w)).
Proof.
  assert (Hhas : ∀ e,
            MetadataStorage.hasBatchMetadata to_number_positive id w
            = (inl e, w) →
            ∃ fields x,
              MetadataStorage.getBatchMetadata id w = (inr (JObj fields), w)
              ∧ assoc "length" fields = Some x
              ∧ to_number_positive x = inl e).
  { intros e. rewrite storage_hasBatchMetadata_run,
      storage_getBatchMetadata_run.
    destruct (MetadataStorage.or_null _) as [|b|n|s|items|fields];
      simpl; try done.
    unfold MetadataStorage.greater_than_zero.
    destruct (assoc "length" fields) as [[|b|n|s|items|fields']|] eqn:Hlen;
      try done; intros [= Hx]; by eexists fields, _. }
  split; [rewrite setBatchMetadata_run; by eauto|].
  split; [rewrite storage_getBatchMetadata_run; by eauto|].
  split.
  { destruct (MetadataStorage.hasBatchMetadata to_number_positive id w)
      as [r w'] eqn:Hrun.
    assert (w' = w) as ->.
    { rewrite storage_hasBatchMetadata_run in Hrun. congruence. }
    exists r. split; [done|]. intros e ->. by apply Hhas. }
  split.
  { intros Htotal.
    destruct (MetadataStorage.hasBatchMetadata to_number_positive id w)
      as [[e|v] w'] eqn:Hrun.
    - assert (w' = w) as ->.
      { rewrite storage_hasBatchMetadata_run in Hrun. congruence. }
      destruct (Hhas e eq_refl) as (fields & x & _ & _ & Hx).
      destruct (Htotal x) as [b Hb]. congruence.
    - exists v. rewrite storage_hasBatchMetadata_run in Hrun. congruence. }
  rewrite setBatchMetadata_run, storage_getBatchMetadata_run,
    storage_hasBatchMetadata_run, storage_removeBatchMetadata_run,
    storage_clearAllMetadata_run, getAllBatchMetadata_run.
  do 3 (split; [by eauto|]). split.
  - intros Hoff. unfold recorded. by rewrite Hoff.
  - intros ->. by destruct localStorage_available.
Qed.

(** ** Which networks are served *)

Lemma truthy_string_Some (o : option string) :
  truthy_string o = true → ∃ a, o = Some a ∧ a ≠ "".
Proof.
  destruct o as [a|]; [|done]. simpl.
  destruct (String.eqb_spec a ""); [done|]. by exists a.
Qed.

(** X15. [getContractConfig] knows the chain ids 1337 and 31337 and no
    other, and returns the non-empty address of that network's deployment
    file; [getBatchTrackerContract] fails for every other chain id except
    0, for which it serves the Hardhat deployment. *)
Theorem supported_networks (chainId : N) :
  (∀ a, getContractConfig chainId = inr a →
     a ≠ ""
     ∧ (chainId = 1337 ∧ localhostDeployment = Some a
        ∨ chainId = 31337 ∧ hardhatDeployment = Some a))
  ∧ (chainId ≠ 0 →
       getBatchTrackerContract chainId = getContractConfig chainId)
  ∧ (chainId ≠ 0 → chainId ≠ 1337 → chainId ≠ 31337 →
       ∃ e, getBatchTrackerContract chainId = inl e)
  ∧ (∀ a, getBatchTrackerContract 0 = inr a ↔
          getContractConfig 31337 = inr a).
Proof.
  split; [|split; [|split]].
  - intros a. unfold getContractConfig.
    destruct (N.eqb_spec chainId 1337) as [->|H1].
    + destruct (truthy_string localhostDeployment) eqn:Ht; [|done].
      apply truthy_string_Some in Ht as (a' & Ha' & Hne). rewrite Ha'. simpl.
      intros [= <-]. split; [done|]. by left.
    + destruct (N.eqb_spec chainId 31337) as [->|H2]; [|done].
      destruct (truthy_string hardhatDeployment) eqn:Ht; [|done].
      apply truthy_string_Some in Ht as (a' & Ha' & Hne). rewrite Ha'. simpl.
      intros [= <-]. split; [done|]. by right.
  - intros Hz. unfold getBatchTrackerContract.
    by destruct (N.eqb_spec chainId 0).
  - intros Hz H1 H2. unfold getBatchTrackerContract, getContractConfig.
    destruct (N.eqb_spec chainId 0); [done|]. simpl.
    destruct (N.eqb_spec chainId 1337); [done|].
    destruct (N.eqb_spec chainId 31337); [done|]. by eauto.
  - intros a. unfold getBatchTrackerContract. simpl.
    destruct (getContractConfig 31337); split; congruence.
Qed.

Lemma getBatchInfoWithMetadata_fails id w e w1 :
  getBatchInfo id w = (inl e, w1) →
  getBatchInfoWithMetadata id w = (inl e, w1).
Proof.
  intros Hinfo. unfold getBatchInfoWithMetadata.
  unfold mbind, Async_bind. by rewrite Hinfo.
Qed.

(** X16. When the wallet is on a network without deployment, every read
    fails with the configuration error after asking for the network only:
    no request reaches a contract.  A creation fails too, but only after
    its uploads: the Pinata requests have been sent, and a document that
    was pinned stays behind with no batch referring to it. *)
Theorem unsupported_network_fails_fast (chainId : N) (e : JsError)
    (w : World) :
  provider_getNetwork = inr chainId →
  getBatchTrackerContract chainId = inl e →
  (∀ id, getBatchInfo id w = (inl e, after w [GetNetwork])
         ∧ getBatchInfoWithMetadata id w = (inl e, after w [GetNetwork]))
  ∧ getTotalBatches w = (inl e, after w [GetNetwork])
  ∧ (∀ userAddress,
       getUserOwnedBatches userAddress w = (inl e, after w [GetNetwork]))
  ∧ ClientMore.createBatch w = (inl (enhanceError e), after w [GetNetwork])
  ∧ (∀ formData,
       (∃ e', createBatchWithMetadata formData w
              = (inl e', after w (GetNetwork :: form_offchain formData)))
       ∧ form_offchain formData ≠ []
       ∧ Forall (λ x, is_offchain x = true) (form_offchain formData)
       ∧ ∀ uploaded, form_uploaded formData = Some uploaded →
           PinJSON (uploaded_metadata uploaded) ∈ form_offchain formData).
Proof.
  intros Hnet Hcon.
  assert (Hinfo : ∀ id, getBatchInfo id w = (inl e, after w [GetNetwork])).
  { intros id. by rewrite getBatchInfo_run, Hnet, Hcon. }
  split; [|split; [|split; [|split]]].
  - intros id. split; [done|]. by apply getBatchInfoWithMetadata_fails.
  - unfold getTotalBatches.
    unfold mbind at 1, Async_bind at 1. rewrite request_run, Hnet.
    unfold mbind at 1, Async_bind at 1. by rewrite settle_run, Hcon.
  - intros userAddress. unfold getUserOwnedBatches.
    unfold mbind at 1, Async_bind at 1. rewrite request_run, Hnet.
    unfold mbind at 1, Async_bind at 1. by rewrite settle_run, Hcon.
  - unfold ClientMore.createBatch, try_catch.
    unfold mbind at 1, Async_bind at 1. rewrite request_run, Hnet.
    unfold mbind at 1, Async_bind at 1. by rewrite settle_run, Hcon.
  - intros formData.
    destruct (createBatchWithMetadata_run formData w) as (r & Hrun & Hr).
    unfold creation_result, creation_offchain, creation_onchain,
      onchain_result, onchain_effects in *.
    rewrite Hnet, Hcon in *.
    split; [|split; [|split]].
    + destruct (form_uploaded formData); simpl in *; rewrite app_nil_r in *;
        destruct Hr as [e' ->]; by eauto.
    + unfold form_offchain, offchain_effects.
      by destruct (form_image formData).
    + apply offchain_effects_offchain.
    + intros uploaded Hup. by apply form_uploaded_Some.
Qed.

(** ** The plain creation *)

Lemma find_BatchCreated_Some logs l :
  find_BatchCreated logs = Some l →
  l ∈ logs ∧ ∃ id, l = Parsed "BatchCreated" id.
Proof.
  induction logs as [|[|event_name arg0] logs IH]; simpl; [done| |].
  - intros Hf. destruct (IH Hf) as [Hin Hl]. split; [by right|done].
  - destruct (String.eqb_spec event_name "BatchCreated") as [->|Hne].
    + intros [= <-]. split; [by left | by eauto].
    + intros Hf. destruct (IH Hf) as [Hin Hl]. split; [by right|done].
Qed.

Lemma plain_createBatch_run w :
  let sent := match provider_getNetwork with
              | inl _ => []
              | inr chainId => onchain_effects chainId ""
              end in
  ∃ r, ClientMore.createBatch w = (r, after w (GetNetwork :: sent))
       ∧ settles_as r (match provider_getNetwork with
                       | inl _ => None
                       | inr chainId => onchain_result chainId ""
                       end).
Proof.
  unfold ClientMore.createBatch, try_catch, onchain_effects, onchain_result.
  unfold mbind at 1, Async_bind at 1. rewrite request_run.
  destruct provider_getNetwork as [e|chainId]; simpl; [by eauto|].
  unfold mbind at 1, Async_bind at 1. rewrite settle_run.
  destruct (getBatchTrackerContract chainId) as [e|contract]; simpl;
    [by eauto|].
  unfold mbind at 1, Async_bind at 1. rewrite request_run, after_after.
  destruct (contract_createBatch contract "") as [e|tx]; simpl; [by eauto|].
  unfold mbind at 1, Async_bind at 1. rewrite request_run, after_after.
  simpl.
  destruct (tx_wait tx) as [e|receipt]; simpl; [by eauto|].
  destruct (find_BatchCreated (default [] receipt)) as [[|event_name id]|];
    simpl; by eauto.
Qed.

(** X17. The plain [createBatch] asks for the network and then talks to
    the contract only: it sends no request to Pinata or the gateway, the
    reference it submits is the empty string, and it leaves the side
    index alone.  The id it resolves to is the first argument of the
    first [BatchCreated] entry of the receipt. *)
Theorem plain_createBatch_protocol (w : World) :
  ∃ r sent,
    ClientMore.createBatch w = (r, after w (GetNetwork :: sent))
    ∧ Forall (λ e, is_onchain e = true) sent
    ∧ (∀ contract hash, SendCreateBatch contract hash ∈ sent → hash = "")
    ∧ stored (after w (GetNetwork :: sent)) = stored w
    ∧ (∀ id, r = inr id →
         ∃ chainId contract tx receipt,
           provider_getNetwork = inr chainId
           ∧ getBatchTrackerContract chainId = inr contract
           ∧ contract_createBatch contract "" = inr tx
           ∧ tx_wait tx = inr receipt
           ∧ sent = [SendCreateBatch contract ""; WaitForReceipt (tx_hash tx)]
           ∧ find_BatchCreated (default [] receipt)
             = Some (Parsed "BatchCreated" id)).
Proof.
  destruct (plain_createBatch_run w) as (r & Hrun & Hr).
  eexists r, _. split; [exact Hrun|]. clear Hrun.
  split; [|split; [|split]].
  - destruct provider_getNetwork; [constructor|].
    apply onchain_effects_onchain.
  - intros contract hash.
    destruct provider_getNetwork as [e|chainId];
      [by intros ?%elem_of_nil|].
    unfold onchain_effects.
    destruct (getBatchTrackerContract chainId) as [e|contract'];
      [by intros ?%elem_of_nil|].
    intros Hin. apply elem_of_cons in Hin as [[= _ ->]|Hin]; [done|].
    destruct (contract_createBatch contract' "");
      [by apply elem_of_nil in Hin|].
    by apply list_elem_of_singleton in Hin.
  - done.
  - intros id ->.
    destruct provider_getNetwork as [e|chainId] eqn:Hnet;
      [by destruct Hr|].
    unfold onchain_result, onchain_effects in *.
    destruct (getBatchTrackerContract chainId) as [e|contract] eqn:Hcon;
      [by destruct Hr|].
    destruct (contract_createBatch contract "") as [e|tx] eqn:Htx;
      [by destruct Hr|].
    destruct (tx_wait tx) as [e|receipt] eqn:Hwait; [by destruct Hr|].
    destruct (find_BatchCreated (default [] receipt)) as [l|] eqn:Hfind;
      [|by destruct Hr].
    destruct (find_BatchCreated_Some _ _ Hfind) as (_ & id' & ->).
    simpl in Hr. injection Hr as <-.
    by exists chainId, contract, tx, receipt.
Qed.

(** ** What the gateway may hand to the views *)

(** X18. [getBatchMetadata] of the Pinata service never throws and sends
    exactly one request; what it resolves to is [null] or a JSON object
    with a truthy [name] and a truthy [description]: nothing else reaches
    the [metadata] member of a record. *)
Theorem getBatchMetadata_validates (hash : string) (w : World) :
  ∃ v, getBatchMetadata hash w = (inr v, after w [Fetch (getImageUrl hash)])
       ∧ (v = JNull
          ∨ ∃ fields n d,
              v = JObj fields
              ∧ assoc "name" fields = Some n ∧ truthy n = true
              ∧ assoc "description" fields = Some d ∧ truthy d = true
              ∧ fst (getContent hash w) = inr v).
Proof.
  rewrite getBatchMetadata_run. eexists. split; [reflexivity|].
  destruct (fst (getContent hash w)) as [e|content]; [by left|].
  destruct (looks_like_metadata content) eqn:Hlooks; [|by left].
  right. unfold looks_like_metadata, truthy_field, get_field in Hlooks.
  destruct content as [| | | | |fields]; simpl in Hlooks;
    try (rewrite ?andb_false_r in Hlooks; discriminate).
  destruct (assoc "name" fields) as [n|] eqn:Hname; simpl in Hlooks;
    [|done].
  destruct (assoc "description" fields) as [d|] eqn:Hdesc;
    [|by rewrite andb_false_r in Hlooks].
  apply andb_true_iff in Hlooks as [Hn Hd].
  by exists fields, n, d.
Qed.

(** ** The scan of the owned batches *)

(** X19. Once the total is known, [getUserOwnedBatches] cannot fail any
    more: it asks for the owner of every id from 1 to the total whatever
    the answers are, and a batch whose owner query or record query throws
    is left out of the result without a trace, like a batch of somebody
    else. *)
Theorem getUserOwnedBatches_skips_failures (userAddress : string) (w : World)
    (chainId : N) (contract : string) (total : N) :
  provider_getNetwork = inr chainId →
  getBatchTrackerContract chainId = inr contract →
  contract_getTotalBatches contract = inr total →
  let ids := N.of_nat <$> seq 1 (N.to_nat total) in
  ∃ sent,
    getUserOwnedBatches userAddress w =
      (inr (omap (pick contract userAddress) ids),
       after w ([GetNetwork; GetNetwork; CallGetTotalBatches contract]
                ++ sent))
    ∧ owner_queries sent = ids
    ∧ (∀ i e, contract_getCurrentOwner contract i = inl e →
              pick contract userAddress i = None)
    ∧ (∀ i e, contract_getBatchInfo contract i = inl e →
              pick contract userAddress i = None).
Proof.
  intros Hnet Hcon Htot ids. subst ids.
  rewrite (getUserOwnedBatches_run chainId contract Hnet Hcon), Htot.
  exists (snd (scan contract userAddress (N.to_nat total) 1)).
  destruct (scan_is_omap contract userAddress (N.to_nat total) 1)
    as [Hfound Hsent].
  rewrite Hfound, Hsent, LedgerFacts.ids_from_1.
  split; [done|]. split; [done|]. split.
  - intros i e He. unfold pick. by rewrite He.
  - intros i e He. unfold pick. rewrite He.
    destruct (contract_getCurrentOwner contract i) as [?|o]; [done|].
    by destruct (String.eqb (toLowerCase o) (toLowerCase userAddress)).
Qed.

Lemma lower_ascii_idempotent c : lower_ascii (lower_ascii c) = lower_ascii c.
Proof. destruct c as [[] [] [] [] [] [] [] []]; vm_compute; reflexivity. Qed.

Lemma toLowerCase_idempotent s : toLowerCase (toLowerCase s) = toLowerCase s.
Proof.
  induction s as [|c s IH]; simpl; [done|].
  by rewrite lower_ascii_idempotent, IH.
Qed.

Lemma owned_loop_case contract u u' turns i acc w :
  toLowerCase u = toLowerCase u' →
  owned_loop contract u turns i acc w = owned_loop contract u' turns i acc w.
Proof.
  intros Hu. revert i acc w.
  induction turns as [|turns IH]; intros i acc w; simpl; [done|].
  unfold mbind, Async_bind, owned_body. rewrite Hu.
  destruct (try_catch _ _ w) as [[e|acc'] w']; [done|]. apply IH.
Qed.

(** X20. [getUserOwnedBatches] compares addresses without regard to the
    case of the letters: two spellings of the user address that agree
    once lowered give the same result and send the same requests; so does
    an address and its lowered form. *)
Theorem getUserOwnedBatches_ignores_case (u u' : string) (w : World) :
  toLowerCase u = toLowerCase u' →
  getUserOwnedBatches u w = getUserOwnedBatches u' w
  ∧ getUserOwnedBatches (toLowerCase u) w = getUserOwnedBatches u w.
Proof.
  assert (Hgen : ∀ a b, toLowerCase a = toLowerCase b →
                        getUserOwnedBatches a w = getUserOwnedBatches b w).
  { intros a b Hab. unfold getUserOwnedBatches.
    unfold mbind at 1 4, Async_bind at 1 4.
    destruct (request GetNetwork provider_getNetwork w) as [[e|chainId] w1];
      [done|].
    unfold mbind at 1 3, Async_bind at 1 3.
    destruct (settle (getBatchTrackerContract chainId) w1)
      as [[e|contract] w2]; [done|].
    unfold mbind, Async_bind.
    destruct (getTotalBatches w2) as [[e|total] w3]; [done|].
    by apply owned_loop_case. }
  intros Hu. split; [by apply Hgen|].
  apply Hgen, toLowerCase_idempotent.
Qed.

(** ** What an upload reports *)

Lemma uploadFile_labelled file w :
  ∃ r, uploadFile file w = (r, after w [PinFile file])
       ∧ match r with
         | inr result => pinned (pinFileToIPFS file) = Some result
         | inl e =>
             pinned (pinFileToIPFS file) = None
             ∧ ∃ cause,
                 e = new_Error ("Failed to upload file to IPFS: " +:+ cause)
         end.
Proof.
  unfold uploadFile, try_catch, pinned.
  unfold mbind at 1, Async_bind at 1. rewrite request_run.
  destruct (pinFileToIPFS file) as [e|response]; simpl.
  { eexists. split; [reflexivity|]. split; [done|]. by eexists. }
  destruct (resp_ok response); simpl.
  - rewrite settle_run. destruct (resp_json response); simpl.
    + eexists. split; [reflexivity|]. split; [done|]. by eexists.
    + eexists. split; [reflexivity|]. done.
  - unfold mbind, Async_bind. rewrite settle_run.
    destruct (resp_text response); simpl.
    + eexists. split; [reflexivity|]. split; [done|]. by eexists.
    + eexists. split; [reflexivity|]. split; [done|]. by eexists.
Qed.

Lemma uploadJSON_labelled doc w :
  ∃ r, uploadJSON doc w = (r, after w [PinJSON doc])
       ∧ match r with
         | inr result => pinned (pinJSONToIPFS doc) = Some result
         | inl e =>
             pinned (pinJSONToIPFS doc) = None
             ∧ ∃ cause,
                 e = new_Error ("Failed to upload metadata to IPFS: "
                                +:+ cause)
         end.
Proof.
  unfold uploadJSON, try_catch, pinned.
  unfold mbind at 1, Async_bind at 1. rewrite request_run.
  destruct (pinJSONToIPFS doc) as [e|response]; simpl.
  { eexists. split; [reflexivity|]. split; [done|]. by eexists. }
  destruct (resp_ok response); simpl.
  - rewrite settle_run. destruct (resp_json response); simpl.
    + eexists. split; [reflexivity|]. split; [done|]. by eexists.
    + eexists. split; [reflexivity|]. done.
  - unfold mbind, Async_bind. rewrite settle_run.
    destruct (resp_text response); simpl.
    + eexists. split; [reflexivity|]. split; [done|]. by eexists.
    + eexists. split; [reflexivity|]. split; [done|]. by eexists.
Qed.

(** X25. An upload sends one request to Pinata and resolves exactly when
    the reply is a success reply with a readable body.  Every other case
    (the request fails, the reply is an error reply, the body cannot be
    read) is rejected with a new error whose message starts with
    [Failed to upload file to IPFS: ] or [Failed to upload metadata to
    IPFS: ]; for an error reply the message goes on with the status and
    the body of the reply.  [uploadBatchWithAssets] passes these errors on
    as they are. *)
Theorem uploads_label_their_failures :
  (∀ file w,
     ∃ r, uploadFile file w = (r, after w [PinFile file])
          ∧ (∀ result, r = inr result ↔
                       pinned (pinFileToIPFS file) = Some result)
          ∧ (∀ e, r = inl e →
               ∃ cause,
                 e = new_Error ("Failed to upload file to IPFS: " +:+ cause))
          ∧ (∀ response body,
               pinFileToIPFS file = inr response →
               resp_ok response = false → resp_text response = inr body →
               r = inl (new_Error ("Failed to upload file to IPFS: "
                                   +:+ "Pinata API error: "
                                   +:+ pretty (resp_status response)
                                   +:+ " - " +:+ body))))
  ∧ (∀ doc w,
       ∃ r, uploadJSON doc w = (r, after w [PinJSON doc])
            ∧ (∀ result, r = inr result ↔
                         pinned (pinJSONToIPFS doc) = Some result)
            ∧ (∀ e, r = inl e →
                 ∃ cause,
                   e = new_Error ("Failed to upload metadata to IPFS: "
                                  +:+ cause))
            ∧ (∀ response body,
                 pinJSONToIPFS doc = inr response →
                 resp_ok response = false → resp_text response = inr body →
                 r = inl (new_Error ("Failed to upload metadata to IPFS: "
                                     +:+ "Pinata API error: "
                                     +:+ pretty (resp_status response)
                                     +:+ " - " +:+ body))))
  ∧ (∀ name description image properties attributes w e w',
       uploadBatchWithAssets name description image properties attributes w
       = (inl e, w') →
       ∃ cause,
         e = new_Error ("Failed to upload file to IPFS: " +:+ cause)
         ∨ e = new_Error ("Failed to upload metadata to IPFS: " +:+ cause)).
Proof.
  split; [|split].
  - intros file w.
    destruct (uploadFile_labelled file w) as (r & Hrun & Hr).
    exists r. split; [done|]. split; [|split].
    + intros result. destruct r as [e|result'].
      * destruct Hr as [Hnone _]. rewrite Hnone. split; done.
      * rewrite Hr. split; congruence.
    + intros e ->. by destruct Hr as [_ Hr].
    + intros response body Hreply Hok Hbody.
      revert Hrun. unfold uploadFile, try_catch.
      unfold mbind at 1, Async_bind at 1. rewrite request_run, Hreply.
      simpl. rewrite Hok. simpl.
      unfold mbind, Async_bind. rewrite settle_run, Hbody. simpl.
      unfold throw. by intros [= <-].
  - intros doc w.
    destruct (uploadJSON_labelled doc w) as (r & Hrun & Hr).
    exists r. split; [done|]. split; [|split].
    + intros result. destruct r as [e|result'].
      * destruct Hr as [Hnone _]. rewrite Hnone. split; done.
      * rewrite Hr. split; congruence.
    + intros e ->. by destruct Hr as [_ Hr].
    + intros response body Hreply Hok Hbody.
      revert Hrun. unfold uploadJSON, try_catch.
      unfold mbind at 1, Async_bind at 1. rewrite request_run, Hreply.
      simpl. rewrite Hok. simpl.
      unfold mbind, Async_bind. rewrite settle_run, Hbody. simpl.
      unfold throw. by intros [= <-].
  - intros name description image properties attributes w e w'.
    unfold uploadBatchWithAssets, try_catch.
    unfold mbind at 1, Async_bind at 1.
    destruct image as [file|].
    + unfold mbind at 1, Async_bind at 1.
      destruct (uploadFile_labelled file w) as (r & -> & Hr).
      destruct r as [e'|imageResult]; simpl.
      * intros [= <- _]. destruct Hr as (_ & cause & ->). by eauto.
      * unfold mbind at 1, Async_bind at 1.
        destruct (uploadJSON_labelled
                    (createBatchMetadata name description
                       (Some (IpfsHash imageResult)) properties attributes)
                    (after w [PinFile file])) as (r & -> & Hr').
        destruct r as [e'|metadataResult]; simpl; [|done].
        intros [= <- _]. destruct Hr' as (_ & cause & ->). by eauto.
    + simpl. unfold mbind at 1, Async_bind at 1.
      destruct (uploadJSON_labelled
                  (createBatchMetadata name description None properties
                     attributes) w) as (r & -> & Hr').
      destruct r as [e'|metadataResult]; simpl; [|done].
      intros [= <- _]. destruct Hr' as (_ & cause & ->). by eauto.
Qed.

(** ** Strings *)

#[local] Arguments String.append : simpl nomatch.

Lemma substring_whole s : String.substring 0 (String.length s) s = s.
Proof. induction s as [|c s IH]; simpl; [done|]. by rewrite IH. Qed.

Lemma substring_after_prefix p rest :
  String.substring (String.length p)
    (String.length (p +:+ rest) - String.length p) (p +:+ rest) = rest.
Proof.
  induction p as [|c p IH]; simpl.
  - rewrite Nat.sub_0_r. apply substring_whole.
  - exact IH.
Qed.

Lemma prefix_split p s :
  String.prefix p s = true → ∃ rest, s = p +:+ rest.
Proof.
  revert s. induction p as [|c p IH]; intros s; [by exists s|].
  destruct s as [|c' s]; simpl; [done|].
  destruct (ascii_dec c c') as [->|]; [|done].
  intros Hp. destruct (IH _ Hp) as [rest ->]. by exists rest.
Qed.

Lemma prefix_append p rest : String.prefix p (p +:+ rest) = true.
Proof.
  induction p as [|c p IH]; simpl; [by destruct rest|].
  by destruct (ascii_dec c c).
Qed.

Lemma append_assoc (a b c : string) : (a +:+ b) +:+ c = a +:+ b +:+ c.
Proof. induction a as [|x a IH]; simpl; [done|]. by rewrite IH. Qed.

Lemma append_length (a b : string) :
  String.length (a +:+ b) = (String.length a + String.length b)%nat.
Proof. induction a as [|x a IH]; simpl; [done|]. by rewrite IH. Qed.

(** ** The reason of a revert *)

Lemma until_quote_Some s run tail :
  until_quote s = Some (run, tail) ↔
  s = run +:+ String "'"%char tail ∧ quote_free run = true.
Proof.
  revert run. induction s as [|c s IH]; intros run; simpl.
  - split; [done|]. intros [Hs _]. by destruct run.
  - destruct (Ascii.eqb_spec c "'"%char) as [->|Hc].
    + split.
      * by intros [= <- <-].
      * intros [Hs Hfree]. destruct run as [|c' run]; simpl in *.
        -- by injection Hs as ->.
        -- injection Hs as <- _.
           by rewrite Ascii.eqb_refl in Hfree.
    + destruct (until_quote s) as [[run' tail']|] eqn:Hrest.
      * split.
        -- intros [= <- <-]. simpl.
           destruct (proj1 (IH run') eq_refl) as [-> Hfree].
           split; [done|].
           by destruct (Ascii.eqb_spec c "'"%char).
        -- intros [Hs Hfree]. destruct run as [|c' run]; simpl in *.
           ++ by injection Hs as ->.
           ++ injection Hs as <- Hs.
              apply andb_true_iff in Hfree as [_ Hfree].
              pose proof (proj2 (IH run) (conj Hs Hfree)) as Heq.
              by injection Heq as -> ->.
      * split; [done|]. intros [Hs Hfree].
        destruct run as [|c' run]; simpl in *.
        -- by injection Hs as ->.
        -- injection Hs as <- Hs.
           apply andb_true_iff in Hfree as [_ Hfree].
           pose proof (proj2 (IH run) (conj Hs Hfree)) as Heq.
           discriminate Heq.
Qed.

Lemma match_here_Some s reason :
  match_here s = Some reason ↔
  reason ≠ "" ∧ quote_free reason = true
  ∧ ∃ behind, s = REVERT_PREFIX +:+ reason +:+ String "'"%char behind.
Proof.
  unfold match_here. split.
  - destruct (String.prefix REVERT_PREFIX s) eqn:Hp; [|done].
    destruct (prefix_split _ _ Hp) as [rest ->].
    rewrite substring_after_prefix.
    destruct (until_quote rest) as [[run tail]|] eqn:Hrun; [|done].
    destruct (String.eqb_spec run ""); [done|]. intros [= <-].
    apply until_quote_Some in Hrun as [-> Hfree]. by eauto.
  - intros (Hne & Hfree & behind & ->).
    rewrite prefix_append, substring_after_prefix.
    rewrite (proj2 (until_quote_Some _ reason behind) (conj eq_refl Hfree)).
    by destruct (String.eqb_spec reason "").
Qed.

Lemma match_revert_sound s reason :
  match_revert s = Some reason →
  reason ≠ "" ∧ quote_free reason = true ∧ quotes_reason s reason.
Proof.
  induction s as [|c s IH]; simpl.
  - done.
  - destruct (match_here (String c s)) as [run|] eqn:Hhere.
    + intros [= <-]. apply match_here_Some in Hhere as (? & ? & behind & Hs).
      split; [done|]. split; [done|]. by exists "", behind.
    + intros Hrest. destruct (IH Hrest) as (? & ? & before & behind & ->).
      split; [done|]. split; [done|]. by exists (String c before), behind.
Qed.

Lemma match_revert_here s reason :
  match_here s = Some reason → match_revert s = Some reason.
Proof. intros Hhere. destruct s; cbn [match_revert]; by rewrite Hhere. Qed.

Lemma match_revert_complete s reason :
  reason ≠ "" → quote_free reason = true → quotes_reason s reason →
  is_Some (match_revert s).
Proof.
  intros Hne Hfree (before & behind & ->).
  induction before as [|c before IH].
  - change ("" +:+ ?x) with x. exists reason.
    apply match_revert_here, match_here_Some. by eauto.
  - change (String c before +:+ ?x) with (String c (before +:+ x)).
    cbn [match_revert]. by destruct (match_here _).
Qed.

Lemma match_revert_at_start reason behind :
  reason ≠ "" → quote_free reason = true →
  match_revert (REVERT_PREFIX +:+ reason +:+ String "'"%char behind)
  = Some reason.
Proof.
  intros Hne Hfree. apply match_revert_here, match_here_Some. by eauto.
Qed.

(** X21. [extractRevertReason] prefers the [reason] member of the error,
    then the one of the nested error.  Without either it returns the text
    that the message quotes after [reverted with reason string ']: a
    non-empty text without a quote that is followed by a quote in the
    message; it finds one whenever the message quotes one, and the one at
    the start of the message if there is one.  It never returns the empty
    string. *)
Theorem extractRevertReason_reads_quoted_reason (error : JsError) :
  (∀ reason, extractRevertReason error = Some reason → reason ≠ "")
  ∧ (∀ reason, err_reason error = Some reason → reason ≠ "" →
       extractRevertReason error = Some reason)
  ∧ (truthy_string (err_reason error) = false →
     ∀ reason, err_inner_reason error = Some reason → reason ≠ "" →
       extractRevertReason error = Some reason)
  ∧ (truthy_string (err_reason error) = false →
     truthy_string (err_inner_reason error) = false →
     (∀ reason, extractRevertReason error = Some reason →
        quote_free reason = true
        ∧ quotes_reason (err_message error) reason)
     ∧ (∀ reason, reason ≠ "" → quote_free reason = true →
          quotes_reason (err_message error) reason →
          is_Some (extractRevertReason error))
     ∧ (∀ reason behind, reason ≠ "" → quote_free reason = true →
          err_message error
          = REVERT_PREFIX +:+ reason +:+ String "'"%char behind →
          extractRevertReason error = Some reason)).
Proof.
  unfold extractRevertReason. split; [|split; [|split]].
  - intros reason.
    destruct (truthy_string (err_reason error)) eqn:H1.
    { apply truthy_string_Some in H1 as (a & -> & Ha). by intros [= <-]. }
    destruct (truthy_string (err_inner_reason error)) eqn:H2.
    { apply truthy_string_Some in H2 as (a & -> & Ha). by intros [= <-]. }
    destruct (negb (String.eqb (err_message error) "")); [|done].
    intros Hm. by apply match_revert_sound in Hm as (? & _).
  - intros reason -> Hne. simpl.
    by destruct (String.eqb_spec reason "").
  - intros -> reason -> Hne. simpl.
    by destruct (String.eqb_spec reason "").
  - intros -> ->. split; [|split].
    + intros reason.
      destruct (negb (String.eqb (err_message error) "")); [|done].
      intros Hm. by apply match_revert_sound in Hm as (_ & ? & ?).
    + intros reason Hne Hfree Hq.
      destruct (String.eqb_spec (err_message error) "") as [Hempty|_]; simpl.
      * destruct Hq as (before & behind & Hq). rewrite Hempty in Hq.
        by destruct before.
      * by apply (match_revert_complete _ reason).
    + intros reason behind Hne Hfree Hm. rewrite Hm.
      rewrite match_revert_at_start by done.
      by destruct (String.eqb_spec (REVERT_PREFIX +:+ reason
                                    +:+ String "'"%char behind) "").
Qed.

(** ** The image of a batch *)

Lemma prefix_append_more p s t :
  String.prefix p s = true → String.prefix p (s +:+ t) = true.
Proof.
  intros [rest ->]%prefix_split. by rewrite append_assoc, prefix_append.
Qed.

Lemma getImageUrl_http metadata url :
  image metadata = Some url → url ≠ "" → String.prefix "http" url = true →
  BatchDetailView.getImageUrl metadata = Some url.
Proof.
  unfold BatchDetailView.getImageUrl. intros -> Hne Hhttp. simpl.
  destruct (String.eqb_spec url ""); [done|]. simpl. by rewrite Hhttp.
Qed.

(** X22. [getImageUrl] of the detail view shows no image for a document
    without a non-empty [image]; it uses an [image] that starts with
    [http] as it is, strips a leading [ipfs://] and resolves the rest, or
    the whole value, at the gateway.  For a document written by
    [createBatchMetadata] it gives back the gateway address of the image
    hash when the configured gateway starts with [http]. *)
Theorem detail_view_image_url (metadata : BatchMetadata) :
  (BatchDetailView.getImageUrl metadata = None ↔
     truthy_string (image metadata) = false)
  ∧ (∀ url, image metadata = Some url → url ≠ "" →
       String.prefix "http" url = true →
       BatchDetailView.getImageUrl metadata = Some url)
  ∧ (∀ hash, image metadata = Some ("ipfs://" +:+ hash) →
       BatchDetailView.getImageUrl metadata = Some (getImageUrl hash))
  ∧ (∀ hash, image metadata = Some hash → hash ≠ "" →
       String.prefix "http" hash = false →
       String.prefix "ipfs://" hash = false →
       BatchDetailView.getImageUrl metadata = Some (getImageUrl hash))
  ∧ (String.prefix "http" PINATA_GATEWAY = true →
     ∀ name description hash properties attributes, hash ≠ "" →
       BatchDetailView.getImageUrl
         (createBatchMetadata name description (Some hash) properties
            attributes)
       = Some (getImageUrl hash)).
Proof.
  unfold BatchDetailView.getImageUrl.
  split; [|split; [|split; [|split]]].
  - destruct (truthy_string (image metadata)); [|done].
    split; [|done].
    destruct (String.prefix "http" _); [done|].
    by destruct (String.prefix "ipfs://" _).
  - apply getImageUrl_http.
  - intros hash ->.
    change (truthy_string (Some ("ipfs://" +:+ hash))) with true.
    change (default "" (Some ("ipfs://" +:+ hash))) with ("ipfs://" +:+ hash).
    cbv iota zeta.
    change (String.prefix "http" ("ipfs://" +:+ hash)) with false.
    cbv iota. rewrite prefix_append.
    assert (Hstrip : BatchDetailView.replace_first "ipfs://" ""
                       ("ipfs://" +:+ hash) = hash).
    { change (BatchDetailView.replace_first "ipfs://" "" ("ipfs://" +:+ hash))
        with (if String.prefix "ipfs://" ("ipfs://" +:+ hash)
              then "" +:+ String.substring (String.length "ipfs://")
                            (String.length ("ipfs://" +:+ hash)
                             - String.length "ipfs://") ("ipfs://" +:+ hash)
              else String "i" (BatchDetailView.replace_first "ipfs://" ""
                                 ("pfs://" +:+ hash))).
      by rewrite prefix_append, substring_after_prefix. }
    by rewrite Hstrip.
  - intros hash -> Hne Hhttp Hipfs. simpl.
    destruct (String.eqb_spec hash ""); [done|]. simpl.
    by rewrite Hhttp, Hipfs.
  - intros Hhttp name description hash properties attributes Hne.
    fold (BatchDetailView.getImageUrl
            (createBatchMetadata name description (Some hash) properties
               attributes)).
    apply getImageUrl_http.
    + unfold createBatchMetadata. simpl.
      by destruct (String.eqb_spec hash "").
    + unfold getImageUrl. destruct PINATA_GATEWAY; discriminate.
    + unfold getImageUrl. by apply prefix_append_more.
Qed.

(** ** The scanned address *)

Lemma hex_digits_Some n s digits :
  TransferBatch.hex_digits n s = Some digits →
  String.length digits = n ∧ all_hex digits = true
  ∧ ∃ behind, s = digits +:+ behind.
Proof.
  revert s digits. induction n as [|n IH]; intros s digits; simpl.
  - intros [= <-]. split; [done|]. split; [done|]. by exists s.
  - destruct s as [|c s]; [done|].
    destruct (TransferBatch.is_hex c) eqn:Hc; [|done].
    destruct (TransferBatch.hex_digits n s) as [digits'|] eqn:Hrest; [|done].
    intros [= <-]. destruct (IH _ _ Hrest) as (Hlen & Hall & behind & ->).
    simpl. rewrite Hc, Hall, Hlen. split; [done|]. split; [done|].
    by exists behind.
Qed.

Lemma hex_digits_exact digits behind :
  all_hex digits = true →
  TransferBatch.hex_digits (String.length digits) (digits +:+ behind)
  = Some digits.
Proof.
  induction digits as [|c digits IH]; simpl; [done|].
  intros [Hc Hall]%andb_true_iff. by rewrite Hc, IH.
Qed.

Lemma substring_after_0x rest :
  String.substring 2 (String.length ("0x" +:+ rest) - 2) ("0x" +:+ rest)
  = rest.
Proof. exact (substring_after_prefix "0x" rest). Qed.

Lemma address_here_Some s a :
  TransferBatch.address_here s = Some a ↔
  ∃ digits behind,
    a = "0x" +:+ digits ∧ String.length digits = 40%nat
    ∧ all_hex digits = true ∧ s = a +:+ behind.
Proof.
  unfold TransferBatch.address_here. split.
  - destruct (String.prefix "0x" s) eqn:Hp; [|done].
    destruct (prefix_split _ _ Hp) as [rest ->].
    rewrite substring_after_0x.
    destruct (TransferBatch.hex_digits 40 rest) as [digits|] eqn:Hd; [|done].
    intros [= <-].
    destruct (hex_digits_Some _ _ _ Hd) as (Hlen & Hall & behind & ->).
    exists digits, behind. split_and!; done || reflexivity.
  - intros (digits & behind & -> & Hlen & Hall & ->).
    rewrite !append_assoc, prefix_append, substring_after_0x, <- Hlen.
    by rewrite hex_digits_exact.
Qed.

Lemma test_address_true s :
  TransferBatch.test_address s = true ↔
  ∃ digits, s = "0x" +:+ digits ∧ String.length digits = 40%nat
            ∧ all_hex digits = true.
Proof.
  unfold TransferBatch.test_address. split.
  - destruct (TransferBatch.address_here s) as [a|] eqn:Ha; [|done].
    intros ->%String.eqb_eq.
    apply address_here_Some in Ha as (digits & behind & Hs & Hlen & Hall & _).
    by exists digits.
  - intros (digits & -> & Hlen & Hall).
    assert (Ha : TransferBatch.address_here ("0x" +:+ digits)
                 = Some ("0x" +:+ digits)).
    { apply address_here_Some. exists digits, "".
      split; [done|]. split; [done|]. split; [done|].
      clear. induction digits as [|c d IH]; [done|].
      simpl in *. by injection IH as <-. }
    rewrite Ha. apply String.eqb_refl.
Qed.

Lemma match_address_Some s a :
  TransferBatch.match_address s = Some a →
  ∃ digits before behind,
    a = "0x" +:+ digits ∧ String.length digits = 40%nat
    ∧ all_hex digits = true ∧ s = before +:+ a +:+ behind.
Proof.
  induction s as [|c s IH]; cbn [TransferBatch.match_address].
  - destruct (TransferBatch.address_here "") as [a'|] eqn:Ha; [|done].
    intros [= <-].
    apply address_here_Some in Ha as (digits & behind & ? & ? & ? & ?).
    by exists digits, "", behind.
  - destruct (TransferBatch.address_here (String c s)) as [a'|] eqn:Ha.
    + intros [= <-].
      apply address_here_Some in Ha as (digits & behind & ? & ? & ? & ?).
      by exists digits, "", behind.
    + intros Hrest.
      destruct (IH Hrest) as (digits & before & behind & ? & ? & ? & ->).
      by exists digits, (String c before), behind.
Qed.

Lemma match_address_None s :
  TransferBatch.match_address s = None → TransferBatch.test_address s = false.
Proof.
  unfold TransferBatch.test_address.
  destruct s as [|c s]; cbn [TransferBatch.match_address].
  - by destruct (TransferBatch.address_here "").
  - by destruct (TransferBatch.address_here (String c s)).
Qed.

Lemma match_address_here s a :
  TransferBatch.address_here s = Some a →
  TransferBatch.match_address s = Some a.
Proof.
  intros Hhere. destruct s; cbn [TransferBatch.match_address];
    by rewrite Hhere.
Qed.

Lemma match_address_later c s :
  is_Some (TransferBatch.match_address s) →
  is_Some (TransferBatch.match_address (String c s)).
Proof.
  intros Hs. cbn [TransferBatch.match_address].
  destruct (TransferBatch.address_here (String c s)) as [a|];
    [by exists a | exact Hs].
Qed.

Lemma match_address_complete before a behind :
  TransferBatch.test_address a = true →
  is_Some (TransferBatch.match_address (before +:+ a +:+ behind)).
Proof.
  intros (digits & -> & Hlen & Hall)%test_address_true.
  assert (Hhere : TransferBatch.address_here (("0x" +:+ digits) +:+ behind)
                  = Some ("0x" +:+ digits)).
  { apply address_here_Some. by exists digits, behind. }
  induction before as [|c before IH].
  - exists ("0x" +:+ digits). by apply match_address_here.
  - by apply match_address_later.
Qed.

(** X23. [handleQRScan] accepts a scan exactly when the trimmed text
    contains [0x] followed by forty hexadecimal digits: it then puts the
    leftmost such text, and nothing around it, into the owner field,
    returns to manual input and clears the error; the address it puts
    there passes the check of [handleTransfer].  Any other scan only sets
    the error and leaves the field and the input mode as they were. *)
Theorem handleQRScan_extracts_address (trim : string → string)
    (scannedData : string) (form : TransferBatch.Form) :
  match TransferBatch.match_address (trim scannedData) with
  | Some a =>
      TransferBatch.handleQRScan trim scannedData form
      = {| TransferBatch.newOwner := a;
           TransferBatch.inputMode := TransferBatch.Manual;
           TransferBatch.error := None |}
      ∧ TransferBatch.test_address a = true
      ∧ String.length a = 42%nat
      ∧ ∃ before behind, trim scannedData = before +:+ a +:+ behind
  | None =>
      TransferBatch.handleQRScan trim scannedData form = scan_rejected form
      ∧ ∀ before a behind,
          trim scannedData = before +:+ a +:+ behind →
          TransferBatch.test_address a = false
  end.
Proof.
  unfold TransferBatch.handleQRScan.
  destruct (TransferBatch.match_address (trim scannedData)) as [a|] eqn:Hm.
  - destruct (match_address_Some _ _ Hm)
      as (digits & before & behind & Ha & Hlen & Hall & Hs).
    assert (Htest : TransferBatch.test_address a = true).
    { apply test_address_true. by exists digits. }
    rewrite Htest. split; [done|]. split; [done|]. split.
    + rewrite Ha, append_length, Hlen. done.
    + by exists before, behind.
  - rewrite (match_address_None _ Hm). split; [done|].
    intros before a behind Hs.
    destruct (TransferBatch.test_address a) eqn:Htest; [|done].
    destruct (match_address_complete before a behind Htest) as [a' Ha'].
    congruence.
Qed.

End Facts.

#[local] Existing Instance demo_browser.



Lemma side_index_never_throws_witness :
  @setBatchMetadata private_browser 3 "bafy-document" fresh_world
  = (inr tt, fresh_world).
Proof.
  destruct (@side_index_never_throws private_browser (λ _, inr false) 3
              "bafy-document" fresh_world)
    as (_ & _ & _ & _ & _ & _ & _ & Hoff & _).
  destruct Hoff as (Hset & _); [reflexivity | exact Hset].
Defined.

Lemma supported_networks_witness :
  ∃ e, @getBatchTrackerContract demo_browser 5 = inl e.
Proof.
  destruct (@supported_networks demo_browser 5) as (_ & _ & Hother & _).
  apply Hother; lia.
Defined.

Lemma unsupported_network_fails_fast_witness :
  @getTotalBatches mainnet_browser fresh_world
  = (inl (new_Error "Unsupported network. ChainId: 1. Supported networks: 1337, 31337"),
     after fresh_world [GetNetwork]).
Proof.
  destruct (@unsupported_network_fails_fast mainnet_browser 1
              (new_Error "Unsupported network. ChainId: 1. Supported networks: 1337, 31337")
              fresh_world) as (_ & Htotal & _).
  - reflexivity.
  - vm_compute. reflexivity.
  - exact Htotal.
Defined.

Lemma plain_createBatch_protocol_witness :
  ∃ r sent,
    ClientMore.createBatch fresh_world
    = (r, after fresh_world (GetNetwork :: sent))
    ∧ Forall (λ e, is_onchain e = true) sent.
Proof.
  destruct (plain_createBatch_protocol fresh_world)
    as (r & sent & Hrun & Hsent & _).
  by exists r, sent.
Defined.

Lemma getUserOwnedBatches_skips_failures_witness :
  ∃ sent,
    getUserOwnedBatches "0X2002" fresh_world =
      (inr (omap (pick "0x5FbDB2315678afecb367f032d93F642f64180aa3" "0X2002")
              [1; 2]),
       after fresh_world
         ([GetNetwork; GetNetwork;
           CallGetTotalBatches "0x5FbDB2315678afecb367f032d93F642f64180aa3"]
          ++ sent))
    ∧ owner_queries sent = [1; 2].
Proof.
  destruct (getUserOwnedBatches_skips_failures "0X2002" fresh_world 31337
              "0x5FbDB2315678afecb367f032d93F642f64180aa3" 2)
    as (sent & Hrun & Hsent & _).
  - reflexivity.
  - vm_compute. reflexivity.
  - vm_compute. reflexivity.
  - exists sent. split; [exact Hrun | exact Hsent].
Defined.

Lemma getUserOwnedBatches_ignores_case_witness :
  getUserOwnedBatches "0X2002aB" fresh_world
  = getUserOwnedBatches "0x2002Ab" fresh_world.
Proof.
  destruct (getUserOwnedBatches_ignores_case "0X2002aB" "0x2002Ab" fresh_world)
    as [Hsame _].
  - vm_compute. reflexivity.
  - exact Hsame.
Defined.

Lemma extractRevertReason_reads_quoted_reason_witness :
  extractRevertReason
    (new_Error "reverted with reason string 'Batch does not exist'")
  = Some "Batch does not exist".
Proof.
  destruct (extractRevertReason_reads_quoted_reason
              (new_Error "reverted with reason string 'Batch does not exist'"))
    as (_ & _ & _ & Hmessage).
  destruct Hmessage as (_ & _ & Hstart); [reflexivity | reflexivity |].
  apply (Hstart "Batch does not exist" ""); [done | reflexivity | reflexivity].
Defined.

Lemma detail_view_image_url_witness :
  BatchDetailView.getImageUrl
    (createBatchMetadata "Wheat lot 7" "Hard red winter wheat"
       (Some "bafy-image") None None)
  = Some "https://gateway.pinata.cloud/ipfs/bafy-image".
Proof.
  destruct (detail_view_image_url
              (createBatchMetadata "Wheat lot 7" "Hard red winter wheat"
                 (Some "bafy-image") None None))
    as (_ & _ & _ & _ & Hround).
  apply (Hround eq_refl "Wheat lot 7" "Hard red winter wheat" "bafy-image"
           None None).
  done.
Defined.

Lemma handleQRScan_extracts_address_witness :
  TransferBatch.handleQRScan (λ s, s)
    "ethereum:0x5FbDB2315678afecb367f032d93F642f64180aa3@31337"
    {| TransferBatch.newOwner := "";
       TransferBatch.inputMode := TransferBatch.Scan;
       TransferBatch.error := Some "QR Scanner Error: busy" |}
  = {| TransferBatch.newOwner := "0x5FbDB2315678afecb367f032d93F642f64180aa3";
       TransferBatch.inputMode := TransferBatch.Manual;
       TransferBatch.error := None |}.
Proof.
  exact (proj1 (handleQRScan_extracts_address (λ s, s)
                  "ethereum:0x5FbDB2315678afecb367f032d93F642f64180aa3@31337"
                  {| TransferBatch.newOwner := "";
                     TransferBatch.inputMode := TransferBatch.Scan;
                     TransferBatch.error := Some "QR Scanner Error: busy" |})).
Defined.

Lemma uploads_label_their_failures_witness :
  ∃ r, uploadFile {| file_name := "lot7.png"; file_bytes := "PNG" |}
         fresh_world
       = (r, after fresh_world
               [PinFile {| file_name := "lot7.png"; file_bytes := "PNG" |}])
       ∧ r = inr {| IpfsHash := "bafy-image"; PinSize := 1;
                    Timestamp := "2025-01-01T00:00:00.000Z" |}.
Proof.
  destruct (proj1 uploads_label_their_failures
              {| file_name := "lot7.png"; file_bytes := "PNG" |} fresh_world)
    as (r & Hrun & Hiff & _).
  exists r. split; [exact Hrun|]. apply Hiff. reflexivity.
Defined.

End ClientExtra.
